(** * SNRv5 irrigation controller: sessions, edit locks, schedule validation
      and the relay command dispatcher.

    A shallow embedding of the firmware's coordination core:

    - [LockManager]    (src/LockManager.cpp, include/FileLock.h)
    - [SessionManager] (src/SessionManager.cpp, include/SessionData.h)
    - [OutputPointManager] (src/OutputPointManager.cpp)
    - [ScheduleManager], [ScheduleIndex] (src/ScheduleManager.cpp,
      include/ScheduleData.h, include/ScheduleManager.h)
    - [AuthUtils]      (src/AuthUtils.cpp)
    - [ApiRoutes]      (src/ApiRoutes.cpp, the schedule lock end points)

    Conventions.  [unsigned long] and [size_t] are 32 bits wide on the target
    (ESP32); they are carried as [Z] and every subtraction or sum the code
    performs on them is wrapped with [u32].  [int] values are carried as [Z]
    too; the one sum the code forms on them (the relay numbers of
    [buildDirectRelayMap]) is wrapped with [i32], and the [int] fields of
    the relay configuration carry their range.  [float]
    fields are IEEE values, carried as primitive floats (every binary32
    value is a binary64 value and the only operation is a comparison with
    zero).  The clock [millis()] is an explicit argument [now]. *)

From Stdlib Require Import ZArith Bool List String Ascii Lia.
From Stdlib Require Import DecimalString DecimalZ DecimalPos.
From Stdlib Require Import Strings.Byte.
From Stdlib Require Import Floats.PrimFloat.
From stdpp Require Import base gmap strings list sorting.

Local Open Scope Z_scope.

(** ** Machine integers *)

Definition u32 (z : Z) : Z := z mod 2 ^ 32.
Definition u8 (z : Z) : Z := z mod 2 ^ 8.

(** A 32-bit [int]: its range, and the value the target's two's complement
    adder leaves for a sum that runs out of it. *)
Definition isInt (z : Z) : bool := (- 2 ^ 31 <=? z) && (z <? 2 ^ 31).
Definition i32 (z : Z) : Z := (z + 2 ^ 31) mod 2 ^ 32 - 2 ^ 31.

(** ** The Arduino [String] operations the code relies on *)

Module WString.

Definition isEmpty (s : string) : bool :=
  match s with EmptyString => true | String _ _ => false end.

(** [String::indexOf(const String&)]: position of the first occurrence,
    [-1] when there is none. *)
Definition indexOf (s pat : string) : Z :=
  match String.index 0 pat s with
  | Some i => Z.of_nat i
  | None => -1
  end.

Fixpoint findChar (c : ascii) (s : string) (pos : nat) : option nat :=
  match s with
  | EmptyString => None
  | String d rest => if Ascii.eqb c d then Some pos else findChar c rest (S pos)
  end.

Fixpoint drop (n : nat) (s : string) : string :=
  match n, s with
  | O, _ => s
  | S n', String _ rest => drop n' rest
  | S _, EmptyString => EmptyString
  end.

(** [String::indexOf(char, fromIndex)]: [-1] when [fromIndex] is at or past
    the end, otherwise the first position at or after it. *)
Definition indexOfFrom (s : string) (c : ascii) (fromIndex : Z) : Z :=
  if Z.of_nat (String.length s) <=? fromIndex then -1
  else match findChar c (drop (Z.to_nat fromIndex) s) (Z.to_nat fromIndex) with
       | Some i => Z.of_nat i
       | None => -1
       end.

(** [String::substring(left, right)]: swaps the bounds when [left > right],
    is empty when [left] is at or past the end, clips [right] to the end. *)
Definition substring (s : string) (left right : Z) : string :=
  let (left, right) := if right <? left then (right, left) else (left, right) in
  let len := Z.of_nat (String.length s) in
  if len <=? left then EmptyString
  else
    let right := if len <? right then len else right in
    String.substring (Z.to_nat left) (Z.to_nat (right - left)) s.

(** [String::substring(left)] is [substring(left, length)]. *)
Definition substringFrom (s : string) (left : Z) : string :=
  substring s left (Z.of_nat (String.length s)).

(** C [isspace] in the default locale. *)
Definition isspace (c : ascii) : bool :=
  let n := nat_of_ascii c in
  (Nat.eqb n 32 || (Nat.leb 9 n && Nat.leb n 13))%bool.

Fixpoint trimLeft (s : string) : string :=
  match s with
  | EmptyString => EmptyString
  | String c rest => if isspace c then trimLeft rest else s
  end.

Fixpoint trimRight (s : string) : string :=
  match s with
  | EmptyString => EmptyString
  | String c rest =>
      match trimRight rest with
      | EmptyString => if isspace c then EmptyString else String c EmptyString
      | rest' => String c rest'
      end
  end.

(** [String::trim()]. *)
Definition trim (s : string) : string := trimRight (trimLeft s).

(** [String(int)]: the decimal representation. *)
Definition ofInt (n : Z) : string := NilZero.string_of_int (Z.to_int n).

(** [String::replace(find, replace)]: every occurrence, left to right, the
    search resuming after each replaced occurrence; nothing happens when
    [find] is empty.  [skip] counts the characters of a matched occurrence
    still to be passed over. *)
Fixpoint replaceFrom (find repl : string) (skip : nat) (s : string) : string :=
  match s with
  | EmptyString => EmptyString
  | String c rest =>
      match skip with
      | S k => replaceFrom find repl k rest
      | O =>
          if String.prefix find s
          then (repl ++ replaceFrom find repl (String.length find - 1) rest)%string
          else String c (replaceFrom find repl 0 rest)
      end
  end.

Definition replace (s find repl : string) : string :=
  if isEmpty find then s else replaceFrom find repl 0 s.

(** [String::lastIndexOf(char)]: [-1] when the character does not occur. *)
Fixpoint lastIndexFrom (c : ascii) (s : string) (pos : Z) (found : Z) : Z :=
  match s with
  | EmptyString => found
  | String d rest =>
      lastIndexFrom c rest (pos + 1) (if Ascii.eqb c d then pos else found)
  end.

Definition lastIndexOf (s : string) (c : ascii) : Z := lastIndexFrom c s 0 (-1).

(** [String::endsWith]. *)
Definition endsWith (s suffix : string) : bool :=
  let n := String.length s in
  let k := String.length suffix in
  if (n <? k)%nat then false
  else String.eqb (String.substring (n - k) k s) suffix.

(** Whether a character occurs in a string ([indexOf(c) != -1]). *)
Fixpoint hasChar (c : ascii) (s : string) : bool :=
  match s with
  | EmptyString => false
  | String d rest => Ascii.eqb c d || hasChar c rest
  end.

(** The characters of a string passing a test, in order. *)
Fixpoint keepChars (p : ascii -> bool) (s : string) : string :=
  match s with
  | EmptyString => EmptyString
  | String c rest => if p c then String c (keepChars p rest) else keepChars p rest
  end.

End WString.

(** ** include/UserAccount.h, include/SessionData.h *)

Inductive UserRole := VIEWER | MANAGER | OWNER | UNKNOWN.

Definition UserRole_eqb (a b : UserRole) : bool :=
  match a, b with
  | VIEWER, VIEWER | MANAGER, MANAGER | OWNER, OWNER | UNKNOWN, UNKNOWN => true
  | _, _ => false
  end.

Module SessionData.

Record t := mk {
  sessionId : string;
  username : string;
  userRole : UserRole;
  creationTime : Z;
  lastHeartbeat : Z;
  fingerprint : string
}.

(** The default-constructed (invalid) session. *)
Definition empty : t := mk "" "" UNKNOWN 0 0 "".

Definition isValid (s : t) : bool :=
  negb (WString.isEmpty (sessionId s)) && negb (WString.isEmpty (username s))
  && negb (UserRole_eqb (userRole s) UNKNOWN)
  && (0 <? creationTime s) && (0 <? lastHeartbeat s).

End SessionData.

(** ** include/FileLock.h *)

(** [LOCKTYPE_INVALID] is the value [(LockType)-1] that [stringToLockType]
    returns for an unknown string and that a default [FileLock] carries. *)
Inductive LockType := EDITING_SCHEDULE | EDITING_TEMPLATE | LOCKTYPE_INVALID.

Definition LockType_eqb (a b : LockType) : bool :=
  match a, b with
  | EDITING_SCHEDULE, EDITING_SCHEDULE
  | EDITING_TEMPLATE, EDITING_TEMPLATE
  | LOCKTYPE_INVALID, LOCKTYPE_INVALID => true
  | _, _ => false
  end.

Module FileLock.

Record t := mk {
  resourceId : string;
  lockType : LockType;
  sessionId : string;
  username : string;
  timestamp : Z
}.

Definition isValid (l : t) : bool :=
  negb (WString.isEmpty (resourceId l))
  && negb (LockType_eqb (lockType l) LOCKTYPE_INVALID)
  && negb (WString.isEmpty (sessionId l))
  && (0 <? timestamp l).

End FileLock.

(** ** src/LockManager.cpp *)

Module LockManager.

Definition LOCK_TIMEOUT_MS : Z := 30 * 60 * 1000.
Definition LOCK_CLEANUP_INTERVAL_MS : Z := 5 * 60 * 1000.

(** What [loadAllLocks] can find at the lock file's path.  An array is given
    by the records its elements are read into (a missing or mistyped field
    takes its default, so every element yields a record, possibly an invalid
    one). *)
Inductive LockFile :=
| Unreadable                          (* LittleFS.open(path, "r") fails *)
| EmptyFile                           (* size() == 0 *)
| Malformed                           (* deserializeJson reports an error *)
| NotAnArray                          (* parsed, but not a JSON array *)
| LockArray (entries : list FileLock.t).

(** How a rewrite of the lock file ends: written; the file could not be
    opened for writing (left as it was); or opened, hence truncated, and
    [serializeJson] wrote nothing. *)
Inductive WriteOutcome := Written | OpenFails | WritesNothing.

(** The flash filesystem as the lock manager sees it: the lock file, and the
    outcomes of the rewrites still to come (the head is the next one; an
    exhausted script means every further rewrite succeeds). *)
Record Flash := mkFlash {
  lockFile : LockFile;
  writes : list WriteOutcome
}.

Definition loadAllLocks (fl : Flash) : option (list FileLock.t) :=
  match lockFile fl with
  | Unreadable => None
  | EmptyFile => Some []
  | Malformed => None
  | NotAnArray => None
  | LockArray entries => Some (List.filter FileLock.isValid entries)
  end.

Definition saveAllLocks (locks : list FileLock.t) (fl : Flash) : bool * Flash :=
  let stored := LockArray (List.filter FileLock.isValid locks) in
  match writes fl with
  | [] => (true, mkFlash stored [])
  | Written :: ws => (true, mkFlash stored ws)
  | OpenFails :: ws => (false, mkFlash (lockFile fl) ws)
  | WritesNothing :: ws => (false, mkFlash EmptyFile ws)
  end.

(** The lambda of [acquireLock] and [releaseLock]: same resource and same
    holder. *)
Definition heldBy (resourceId sessionId : string) (l : FileLock.t) : bool :=
  String.eqb (FileLock.resourceId l) resourceId
  && String.eqb (FileLock.sessionId l) sessionId.

(** [remove_if] + [erase]: the entries the predicate rejects, in order. *)
Definition eraseIf {A} (p : A -> bool) (v : list A) : list A :=
  List.filter (fun x => negb (p x)) v.

(** The scan at the head of [acquireLock]: the first entry for the resource
    decides.  [None] is the early [return false]; otherwise the vector to
    which the new lock is appended. *)
Fixpoint scanForHolder (resourceId sessionId : string)
    (rest all : list FileLock.t) : option (list FileLock.t) :=
  match rest with
  | [] => Some all
  | existingLock :: rest' =>
      if String.eqb (FileLock.resourceId existingLock) resourceId then
        if negb (String.eqb (FileLock.sessionId existingLock) sessionId)
        then None
        else Some (eraseIf (heldBy resourceId sessionId) all)
      else scanForHolder resourceId sessionId rest' all
  end.

Definition acquireLock (resourceId : string) (lockType : LockType)
    (session : SessionData.t) (now : Z) (fl : Flash) : bool * Flash :=
  if WString.isEmpty resourceId || negb (SessionData.isValid session)
  then (false, fl)
  else
    match loadAllLocks fl with
    | None => (false, fl)
    | Some currentLocks =>
        match scanForHolder resourceId (SessionData.sessionId session)
                currentLocks currentLocks with
        | None => (false, fl)
        | Some currentLocks =>
            let newLock :=
              FileLock.mk resourceId lockType (SessionData.sessionId session)
                (SessionData.username session) now in
            if negb (FileLock.isValid newLock) then (false, fl)
            else saveAllLocks (currentLocks ++ [newLock]) fl
        end
    end.

Definition releaseLock (resourceId sessionId : string) (fl : Flash)
    : bool * Flash :=
  if WString.isEmpty resourceId || WString.isEmpty sessionId then (false, fl)
  else
    match loadAllLocks fl with
    | None => (false, fl)
    | Some currentLocks =>
        let remaining := eraseIf (heldBy resourceId sessionId) currentLocks in
        if (List.length remaining <? List.length currentLocks)%nat
        then saveAllLocks remaining fl
        else (false, fl)
    end.

Definition releaseLocksForSession (sessionId : string) (fl : Flash)
    : nat * Flash :=
  if WString.isEmpty sessionId then (O, fl)
  else
    match loadAllLocks fl with
    | None => (O, fl)
    | Some currentLocks =>
        let remaining :=
          eraseIf (fun l => String.eqb (FileLock.sessionId l) sessionId)
            currentLocks in
        let releasedCount := (List.length currentLocks - List.length remaining)%nat in
        if (0 <? releasedCount)%nat
        then (releasedCount, snd (saveAllLocks remaining fl))
        else (releasedCount, fl)
    end.

(** [isLocked(resourceId, lockInfo)]: the first entry for the resource. *)
Fixpoint firstFor (resourceId : string) (locks : list FileLock.t)
    : option FileLock.t :=
  match locks with
  | [] => None
  | lock :: rest =>
      if String.eqb (FileLock.resourceId lock) resourceId then Some lock
      else firstFor resourceId rest
  end.

(** The [bool] result and, when it is [true], the lock copied to
    [*lockInfo]. *)
Definition isLocked (resourceId : string) (fl : Flash) : bool * option FileLock.t :=
  match loadAllLocks fl with
  | None => (false, None)
  | Some currentLocks =>
      match firstFor resourceId currentLocks with
      | Some lock => (true, Some lock)
      | None => (false, None)
      end
  end.

Definition getLockInfo (resourceId : string) (fl : Flash) : bool * option FileLock.t :=
  isLocked resourceId fl.

(** The manager itself: its file and the time of the last sweep. *)
Record t := mk {
  flash : Flash;
  lastCleanupTime : Z
}.

(** The sweep's lambda: [currentTime - lock.timestamp > LOCK_TIMEOUT_MS] in
    [unsigned long]. *)
Definition expired (currentTime : Z) (lock : FileLock.t) : bool :=
  LOCK_TIMEOUT_MS <? u32 (currentTime - FileLock.timestamp lock).

(** [cleanupExpiredLocks], compiled with [LOCK_TIMEOUT_MS > 0]. *)
Definition cleanupExpiredLocks (currentTime : Z) (m : t) : t :=
  if LOCK_CLEANUP_INTERVAL_MS <=? u32 (currentTime - lastCleanupTime m) then
    match loadAllLocks (flash m) with
    | None => mk (flash m) currentTime
    | Some currentLocks =>
        let remaining := eraseIf (expired currentTime) currentLocks in
        let cleanedCount := (List.length currentLocks - List.length remaining)%nat in
        if (0 <? cleanedCount)%nat
        then mk (snd (saveAllLocks remaining (flash m))) currentTime
        else mk (flash m) currentTime
    end
  else m.

End LockManager.

(** ** src/AuthUtils.cpp *)

Module AuthUtils.

(** One digit of [sprintf("%02x", ...)]. *)
Definition hexDigit (n : N) : ascii :=
  ascii_of_N (if (n <? 10)%N then 48 + n else 87 + n).

Definition byteToHex (b : byte) : string :=
  let n := Byte.to_N b in
  String (hexDigit (n / 16)) (String (hexDigit (n mod 16)) EmptyString).

Fixpoint bytesToHex (bytes : list byte) : string :=
  match bytes with
  | [] => EmptyString
  | b :: rest => (byteToHex b ++ bytesToHex rest)%string
  end.

(** Value of a base-16 digit, as [strtol] reads it. *)
Definition hexValue (c : ascii) : option Z :=
  let n := Z.of_N (N_of_ascii c) in
  if (48 <=? n) && (n <=? 57) then Some (n - 48)
  else if (97 <=? n) && (n <=? 102) then Some (n - 87)
  else if (65 <=? n) && (n <=? 70) then Some (n - 55)
  else None.

Fixpoint digits16 (s : string) (acc : Z) : Z :=
  match s with
  | EmptyString => acc
  | String c rest =>
      match hexValue c with
      | Some v => digits16 rest (16 * acc + v)
      | None => acc
      end
  end.

(** [strtol(s, NULL, 16)]: leading white space, an optional sign, an optional
    [0x] or [0X], then digits up to the first character that is none; 0 when
    there is no digit.  It is applied to two-character strings only, where
    the clamping of out-of-range values cannot occur. *)
Definition strtol16 (s : string) : Z :=
  let s := WString.trimLeft s in
  let '(negative, s) :=
    match s with
    | String c rest =>
        if Ascii.eqb c "-" then (true, rest)
        else if Ascii.eqb c "+" then (false, rest)
        else (false, s)
    | EmptyString => (false, s)
    end in
  let s :=
    match s with
    | String c (String x rest) =>
        if Ascii.eqb c "0" && (Ascii.eqb x "x" || Ascii.eqb x "X") then rest else s
    | _ => s
    end in
  let v := digits16 s 0 in
  if negative then - v else v.

(** The cast [(unsigned char)]. *)
Definition toByte (z : Z) : byte :=
  match Byte.of_N (Z.to_N (z mod 256)) with
  | Some b => b
  | None => Byte.x00
  end.

(** The loop of [hexToBytes]: one byte per pair of characters. *)
Fixpoint hexPairs (s : string) : list byte :=
  match s with
  | String a (String b rest) =>
      toByte (strtol16 (String a (String b EmptyString))) :: hexPairs rest
  | _ => []
  end.

(** [hexToBytes]: the bytes written to [outBytes]; their number is the
    function's result ([0], nothing written, for a string of odd length or a
    buffer that is too small). *)
Definition hexToBytes (hex : string) (maxLen : nat) : list byte :=
  let hexLen := String.length hex in
  if negb (Nat.eqb (hexLen mod 2) 0) || (maxLen <? hexLen / 2)%nat then []
  else hexPairs hex.

(** [generateSalt]: [randomBytes] is what the hardware generator filled the
    buffer with (its length is the requested length). *)
Definition generateSalt (randomBytes : list byte) : string :=
  match randomBytes with
  | [] => EmptyString
  | _ => bytesToHex randomBytes
  end.

Section Digest.

(** SHA-256 of a byte string (32 bytes), from mbedtls. *)
Variable sha256 : list byte -> list byte.

Definition hashPassword (password saltHex : string) : string :=
  let saltBytes := hexToBytes saltHex (String.length saltHex / 2) in
  if Nat.eqb (List.length saltBytes) 0 then EmptyString
  else bytesToHex (sha256 (saltBytes ++ list_byte_of_string password)).

Definition verifyPassword (password storedHashHex saltHex : string) : bool :=
  let calculatedHashHex := hashPassword password saltHex in
  if WString.isEmpty calculatedHashHex then false
  else String.eqb calculatedHashHex storedHashHex.

End Digest.

End AuthUtils.

(** ** src/SessionManager.cpp *)

Module SessionManager.

Definition SESSION_TIMEOUT_MS : Z := 15 * 60 * 1000.
Definition SESSION_CLEANUP_INTERVAL_MS : Z := 1 * 60 * 1000.

(** What the code reads from an [AsyncWebServerRequest]: the client's
    address (as text), and the [User-Agent] and [Cookie] headers. *)
Record Request := mkRequest {
  remoteIP : string;
  userAgent : string;
  cookieHeader : option string
}.

(** [activeSessions] and the sweep's timer.  The lock manager is the global
    [lockManager]; its file is threaded through as a [LockManager.Flash]. *)
Record t := mk {
  activeSessions : gmap string SessionData.t;
  lastCleanupTime : Z
}.

(** The cookie parsing shared by [validateSession] and
    [invalidateSession(request)]. *)
Definition sessionIdOfCookie (cookieHeader : option string) : string :=
  match cookieHeader with
  | None => EmptyString
  | Some cookies =>
      let startIndex := WString.indexOf cookies "session_id=" in
      if startIndex =? -1 then EmptyString
      else
        let startIndex := startIndex + Z.of_nat (String.length "session_id=") in
        let endIndex := WString.indexOfFrom cookies ";"%char startIndex in
        WString.trim
          (if endIndex =? -1 then WString.substringFrom cookies startIndex
           else WString.substring cookies startIndex endIndex)
  end.

Definition removeSessionInternal (sessionId : string) (st : t)
    (fl : LockManager.Flash) : t * LockManager.Flash :=
  match activeSessions st !! sessionId with
  | Some _ =>
      let fl' := snd (LockManager.releaseLocksForSession sessionId fl) in
      (mk (delete sessionId (activeSessions st)) (lastCleanupTime st), fl')
  | None => (st, fl)
  end.

Definition expired (currentTime : Z) (session : SessionData.t) : bool :=
  SESSION_TIMEOUT_MS <? u32 (currentTime - SessionData.lastHeartbeat session).

(** [std::map] iterates in key order, and the Arduino [String] order is
    [strcmp]'s. *)
Definition keyLe (a b : string * SessionData.t) : Prop :=
  Is_true (String.leb (fst a) (fst b)).

#[local] Instance keyLe_dec a b : Decision (keyLe a b).
Proof. unfold keyLe. apply _. Defined.

Definition inKeyOrder (m : gmap string SessionData.t)
    : list (string * SessionData.t) :=
  merge_sort keyLe (map_to_list m).

Definition idsToRemove (currentTime : Z) (m : gmap string SessionData.t)
    : list string :=
  List.map fst
    (List.filter (fun pair => expired currentTime (snd pair)) (inKeyOrder m)).

Definition removeAll (ids : list string) (st : t) (fl : LockManager.Flash)
    : t * LockManager.Flash :=
  List.fold_left (fun acc id => removeSessionInternal id (fst acc) (snd acc))
    ids (st, fl).

Definition cleanupExpiredSessions (currentTime : Z) (st : t)
    (fl : LockManager.Flash) : t * LockManager.Flash :=
  if SESSION_CLEANUP_INTERVAL_MS <=? u32 (currentTime - lastCleanupTime st) then
    let '(st', fl') :=
      removeAll (idsToRemove currentTime (activeSessions st)) st fl in
    (mk (activeSessions st') currentTime, fl')
  else (st, fl).

Definition invalidateSession (sessionId : string) (st : t)
    (fl : LockManager.Flash) : bool * (t * LockManager.Flash) :=
  if WString.isEmpty sessionId then (false, (st, fl))
  else
    match activeSessions st !! sessionId with
    | Some _ => (true, removeSessionInternal sessionId st fl)
    | None => (false, (st, fl))
    end.

Definition invalidateSessionOf (request : option Request) (st : t)
    (fl : LockManager.Flash) : bool * (t * LockManager.Flash) :=
  match request with
  | None => (false, (st, fl))
  | Some req =>
      let sessionId := sessionIdOfCookie (cookieHeader req) in
      if negb (WString.isEmpty sessionId) then invalidateSession sessionId st fl
      else (false, (st, fl))
  end.

Section Fingerprint.

(** SHA-256 followed by [AuthUtils::bytesToHex]: the digest of a string, as
    64 hexadecimal characters. *)
Variable sha256hex : string -> string.

Definition generateFingerprint (request : option Request) : string :=
  match request with
  | None => EmptyString
  | Some req => sha256hex (remoteIP req ++ userAgent req)
  end.

(** [newId] is what [generateSessionId] drew from the hardware generator. *)
Definition createSession (newId : string) (username : string) (role : UserRole)
    (request : option Request) (now : Z) (st : t) : SessionData.t * t :=
  if WString.isEmpty newId then (SessionData.empty, st)
  else
    let newSession :=
      SessionData.mk newId username role now now (generateFingerprint request) in
    if negb (SessionData.isValid newSession) then (SessionData.empty, st)
    else (newSession,
          mk (<[newId := newSession]> (activeSessions st)) (lastCleanupTime st)).

(** The result is the session the returned pointer designates ([None] for
    [nullptr]). *)
Definition validateSession (request : option Request) (currentTime : Z)
    (st : t) (fl : LockManager.Flash)
    : option SessionData.t * (t * LockManager.Flash) :=
  match request with
  | None => (None, (st, fl))
  | Some req =>
      let sessionId := sessionIdOfCookie (cookieHeader req) in
      if WString.isEmpty sessionId then (None, (st, fl))
      else
        match activeSessions st !! sessionId with
        | None => (None, (st, fl))
        | Some session =>
            if expired currentTime session
            then (None, removeSessionInternal sessionId st fl)
            else
              let currentFingerprint := generateFingerprint request in
              if negb (String.eqb (SessionData.fingerprint session) currentFingerprint)
              then (None, removeSessionInternal sessionId st fl)
              else
                let session' :=
                  SessionData.mk (SessionData.sessionId session)
                    (SessionData.username session) (SessionData.userRole session)
                    (SessionData.creationTime session) currentTime
                    (SessionData.fingerprint session) in
                (Some session',
                 (mk (<[sessionId := session']> (activeSessions st))
                     (lastCleanupTime st), fl))
        end
  end.

End Fingerprint.

(** [generateSessionId]: the hexadecimal form of the 32 bytes drawn from the
    hardware generator. *)
Definition generateSessionId (randomBytes : list byte) : string :=
  AuthUtils.bytesToHex randomBytes.

End SessionManager.

(** ** src/OutputPointManager.cpp *)

Module OutputPointManager.

Inductive RelayCommandType := TURN_ON | TURN_OFF | TURN_ON_TIMED.

Record OutputCommand := mkCommand {
  pointId : string;
  commandType : RelayCommandType;
  durationMs : Z
}.

(** [controlMethod] after the two [equalsIgnoreCase] tests. *)
Inductive ControlMethod := ShiftRegister | DirectGPIO | OtherMethod.

(** The fields of [ioConfig.directIO.relayOutputs] that the code reads;
    [count] and [pointIdStartIndex] are [int]s. *)
Record DirectRelayConfig := mkConfig {
  count : Z;
  controlMethod : ControlMethod;
  pointIdPrefix : string;
  pointIdStartIndex : Z;
  count_int : isInt count = true;
  pointIdStartIndex_int : isInt pointIdStartIndex = true
}.

(** The heap block handed to a timer task. *)
Record TimerParams := mkTimer {
  relayIndex : Z;
  timerDurationMs : Z
}.

(** Capacity given to [xQueueCreate] in [begin]. *)
Definition QUEUE_LENGTH : nat := 10.

Record t := mk {
  ioConfig : DirectRelayConfig;
  directRelayPointIdToIndexMap : gmap string Z;
  relayState : Z;                         (* the [uint8_t] shift-register image *)
  pin0 : bool;                            (* level last written to GPIO 0 *)
  activeTimerTasks : list (option TimerParams);   (* nullptr = None *)
  commandQueue : list OutputCommand;      (* head = next to be received *)
  hasQueue : bool;                        (* [commandQueue] is not [nullptr] *)
  hasWorker : bool                        (* the command processor task exists *)
}.

(** The manager as its constructor leaves it: a default configuration
    (count 0, no control method, empty prefix), nothing mapped, no slot,
    [commandQueue] and the task handle [nullptr]. *)
Definition initial : t :=
  mk (mkConfig 0 OtherMethod EmptyString 0 eq_refl eq_refl) ∅ 0 false [] []
     false false.

(** The loop of [buildDirectRelayMap], for [i] from [i0] on, [n] rounds;
    [startIdx + i] is a sum of two [int]s. *)
Fixpoint mapRelays (prefix : string) (startIdx : Z) (i0 : Z) (n : nat)
    (m : gmap string Z) : gmap string Z :=
  match n with
  | O => m
  | S n' =>
      let pointId := (prefix ++ WString.ofInt (i32 (startIdx + i0)))%string in
      mapRelays prefix startIdx (i0 + 1) n' (<[pointId := i0]> m)
  end.

Definition buildDirectRelayMap (cfg : DirectRelayConfig) : gmap string Z :=
  mapRelays (pointIdPrefix cfg) (pointIdStartIndex cfg) 0 (Z.to_nat (count cfg)) ∅.

(** [initializeDirectRelayHardware]: with [DirectGPIO] pin 0 is written low
    once per relay, with [ShiftRegister] the image is cleared and shifted
    out. *)
Definition initializeDirectRelayHardware (st : t) : t :=
  match controlMethod (ioConfig st) with
  | DirectGPIO =>
      if 0 <? count (ioConfig st)
      then mk (ioConfig st) (directRelayPointIdToIndexMap st) (relayState st)
              false (activeTimerTasks st) (commandQueue st) (hasQueue st)
              (hasWorker st)
      else st
  | ShiftRegister =>
      mk (ioConfig st) (directRelayPointIdToIndexMap st) 0 (pin0 st)
         (activeTimerTasks st) (commandQueue st) (hasQueue st) (hasWorker st)
  | OtherMethod => st
  end.

(** [std::vector::resize(n, x)]. *)
Definition resize {A} (n : nat) (x : A) (v : list A) : list A :=
  List.firstn n v ++ List.repeat x (n - List.length v).

(** [begin]: [None] when the program is aborted, otherwise the result and
    the manager afterwards.  A negative count, converted to [size_t], is
    more than a vector can hold, and [resize] throws; for other counts the
    allocation is taken to succeed.  [queueCreated] and [taskCreated] say
    whether [xQueueCreate] and [xTaskCreatePinnedToCore] succeeded. *)
Definition begin (config : DirectRelayConfig) (queueCreated taskCreated : bool)
    (st : t) : option (bool * t) :=
  let st :=
    mk config (buildDirectRelayMap config) (relayState st) (pin0 st)
       (activeTimerTasks st) (commandQueue st) (hasQueue st) (hasWorker st) in
  let st := initializeDirectRelayHardware st in
  if count config <? 0 then None
  else
    let slots := resize (Z.to_nat (count config)) None (activeTimerTasks st) in
    if negb queueCreated then
      Some (false, mk (ioConfig st) (directRelayPointIdToIndexMap st)
                      (relayState st) (pin0 st) slots [] false (hasWorker st))
    else if negb taskCreated then
      Some (false, mk (ioConfig st) (directRelayPointIdToIndexMap st)
                      (relayState st) (pin0 st) slots [] true (hasWorker st))
    else
      Some (true, mk (ioConfig st) (directRelayPointIdToIndexMap st)
                     (relayState st) (pin0 st) slots [] true true).

(** [1 << relayIndex] on an [int].  A count outside 0..31 is undefined in
    C++; the target's shifter takes the count's low five bits. *)
Definition shiftOne (relayIndex : Z) : Z := Z.shiftl 1 (relayIndex mod 32).

Definition setDirectRelayStatePhysical (relayIndex : Z) (on : bool) (st : t) : t :=
  match controlMethod (ioConfig st) with
  | DirectGPIO =>
      mk (ioConfig st) (directRelayPointIdToIndexMap st) (relayState st) on
         (activeTimerTasks st) (commandQueue st) (hasQueue st) (hasWorker st)
  | ShiftRegister =>
      let relayState' :=
        if on then u8 (Z.lor (relayState st) (shiftOne relayIndex))
        else u8 (Z.land (relayState st) (Z.lnot (shiftOne relayIndex))) in
      mk (ioConfig st) (directRelayPointIdToIndexMap st) relayState' (pin0 st)
         (activeTimerTasks st) (commandQueue st) (hasQueue st) (hasWorker st)
  | OtherMethod => st
  end.

(** [sendCommand]: refused without a queue, otherwise [xQueueSendToBack]
    with no wait. *)
Definition sendCommand (command : OutputCommand) (st : t) : bool * t :=
  if negb (hasQueue st) then (false, st)
  else if (List.length (commandQueue st) <? QUEUE_LENGTH)%nat
  then (true, mk (ioConfig st) (directRelayPointIdToIndexMap st) (relayState st)
                 (pin0 st) (activeTimerTasks st) (commandQueue st ++ [command])
                 (hasQueue st) (hasWorker st))
  else (false, st).

Definition setTimer (relayIndex : Z) (h : option TimerParams) (st : t) : t :=
  mk (ioConfig st) (directRelayPointIdToIndexMap st) (relayState st) (pin0 st)
     (<[Z.to_nat relayIndex := h]> (activeTimerTasks st)) (commandQueue st)
     (hasQueue st) (hasWorker st).

(** The body of the worker's loop for one received command. *)
Definition processCommand (cmd : OutputCommand) (st : t) : t :=
  match directRelayPointIdToIndexMap st !! pointId cmd with
  | Some relayIndex =>
      match commandType cmd with
      | TURN_ON => setDirectRelayStatePhysical relayIndex true st
      | TURN_OFF => setDirectRelayStatePhysical relayIndex false st
      | TURN_ON_TIMED =>
          let st1 := setDirectRelayStatePhysical relayIndex true st in
          (* vTaskDelete of the armed task, then nullptr *)
          let st2 :=
            match activeTimerTasks st1 !! Z.to_nat relayIndex with
            | Some (Some _) => setTimer relayIndex None st1
            | _ => st1
            end in
          (* xTaskCreate stores the new task's handle in the slot *)
          setTimer relayIndex (Some (mkTimer relayIndex (durationMs cmd))) st2
      end
  | None => st
  end.

(** One round of [processCommandQueueTask]: [None] when there is no worker
    task, and while the worker blocks on an empty queue. *)
Definition workerStep (st : t) : option t :=
  if negb (hasWorker st) then None
  else
    match commandQueue st with
    | [] => None
    | cmd :: rest =>
        Some (processCommand cmd
                (mk (ioConfig st) (directRelayPointIdToIndexMap st) (relayState st)
                    (pin0 st) (activeTimerTasks st) rest (hasQueue st)
                    (hasWorker st)))
    end.

Fixpoint drain (fuel : nat) (st : t) : t :=
  match fuel with
  | O => st
  | S fuel' => match workerStep st with
               | Some st' => drain fuel' st'
               | None => st
               end
  end.

(** The command a timer task builds when its delay is over. *)
Definition timerOffCommand (tp : TimerParams) : OutputCommand :=
  mkCommand ("DirectRelay_" ++ WString.ofInt (relayIndex tp))%string TURN_OFF 0.

(** The timer task armed in slot [slot] wakes up: it submits its command,
    clears its slot and ends.  [None] when no task is armed there. *)
Definition timerExpires (slot : nat) (st : t) : option t :=
  match activeTimerTasks st !! slot with
  | Some (Some tp) =>
      let st' := snd (sendCommand (timerOffCommand tp) st) in
      Some (setTimer (relayIndex tp) None st')
  | _ => None
  end.

(** Whether relay [relayIndex] is driven on. *)
Definition relayOn (relayIndex : Z) (st : t) : bool :=
  match controlMethod (ioConfig st) with
  | ShiftRegister => Z.testbit (relayState st) relayIndex
  | DirectGPIO => pin0 st
  | OtherMethod => false
  end.

(** [sanitizeFilename] and [getOutputDefinitionPath]. *)
Definition sanitizeFilename (input : string) : string :=
  WString.replace (WString.replace input "/" "_") "\" "_".

Definition getOutputDefinitionPath (pointId : string) : string :=
  ("/data/output_definitions/" ++ sanitizeFilename pointId ++ ".json")%string.

End OutputPointManager.

(** ** include/ScheduleData.h *)

Module AutopilotWindow.

Record t := mk {
  startTime : Z;
  endTime : Z;
  matricTension : float;
  doseVolume : float;
  settlingTime : Z;
  doseDuration : Z
}.

Definition isValid (w : t) : bool :=
  if (startTime w <? 0) || (1439 <? startTime w)
     || (endTime w <? 0) || (1439 <? endTime w) then false
  else if endTime w <=? startTime w then false
  else if (PrimFloat.leb (doseVolume w) 0%float || (doseDuration w <=? 0))
          && (settlingTime w <=? 0) then false
  else true.

End AutopilotWindow.

Module DurationEvent.

Record t := mk {
  startTime : Z;
  duration : Z;
  endTime : Z
}.

Definition isValid (e : t) : bool :=
  if (startTime e <? 0) || (1439 <? startTime e) then false
  else if duration e <=? 0 then false
  else true.

End DurationEvent.

Module VolumeEvent.

Record t := mk {
  startTime : Z;
  doseVolume : float;
  calculatedDuration : Z
}.

Definition isValid (e : t) : bool :=
  if (startTime e <? 0) || (1439 <? startTime e) then false
  else if PrimFloat.leb (doseVolume e) 0%float then false
  else true.

End VolumeEvent.

Module Schedule.

Record t := mk {
  scheduleName : string;
  lightsOnTime : Z;
  lightsOffTime : Z;
  scheduleUID : string;
  autopilotWindows : list AutopilotWindow.t;
  durationEvents : list DurationEvent.t;
  volumeEvents : list VolumeEvent.t
}.

Definition isValid (s : t) : bool :=
  negb (WString.isEmpty (scheduleName s) || WString.isEmpty (scheduleUID s)).

End Schedule.

(** ** src/ScheduleManager.cpp: event validation *)

Module ScheduleManager.

(** [std::sort] with a strict comparison.  The standard leaves the relative
    order of elements that compare equal open; this insertion sort keeps
    them in their original order. *)
Fixpoint insertBy {A} (lt : A -> A -> bool) (x : A) (l : list A) : list A :=
  match l with
  | [] => [x]
  | y :: rest => if lt y x then y :: insertBy lt x rest else x :: l
  end.

Fixpoint sortBy {A} (lt : A -> A -> bool) (l : list A) : list A :=
  match l with
  | [] => []
  | x :: rest => insertBy lt x (sortBy lt rest)
  end.

Definition compareAutopilotWindows (a b : AutopilotWindow.t) : bool :=
  AutopilotWindow.startTime a <? AutopilotWindow.startTime b.

Definition compareDurationEvents (a b : DurationEvent.t) : bool :=
  DurationEvent.startTime a <? DurationEvent.startTime b.

Definition compareVolumeEvents (a b : VolumeEvent.t) : bool :=
  VolumeEvent.startTime a <? VolumeEvent.startTime b.

Definition checkTimeBounds (timeMinutes : Z) : bool :=
  (0 <=? timeMinutes) && (timeMinutes <=? 1439).

(** The five tests of [checkAutopilotOverlap] against one existing window. *)
Definition autopilotClash (newEvent existing : AutopilotWindow.t) : bool :=
  let ns := AutopilotWindow.startTime newEvent in
  let ne := AutopilotWindow.endTime newEvent in
  let es := AutopilotWindow.startTime existing in
  let ee := AutopilotWindow.endTime existing in
  (ns =? es) || (ne =? ee) || ((ns <? es) && (ee <? ne))
  || ((es <? ns) && (ns <? ee)) || ((es <? ne) && (ne <? ee)).

Definition checkAutopilotOverlap (schedule : Schedule.t)
    (newEvent : AutopilotWindow.t) : bool :=
  List.existsb (autopilotClash newEvent) (Schedule.autopilotWindows schedule).

(** [size_t] arithmetic. *)
Definition checkDurationVolumeLimit (schedule : Schedule.t) (newEventCount : nat)
    : bool :=
  u32 (Z.of_nat (List.length (Schedule.durationEvents schedule))
       + Z.of_nat (List.length (Schedule.volumeEvents schedule))
       + Z.of_nat newEventCount) <=? 100.

(** The four tests of [checkDurationOverlap] against one existing event. *)
Definition durationClash (newEvent existing : DurationEvent.t) : bool :=
  let ns := DurationEvent.startTime newEvent in
  let ne := DurationEvent.endTime newEvent in
  let es := DurationEvent.startTime existing in
  let ee := DurationEvent.endTime existing in
  (ns =? es) || ((es <? ns) && (ns <? ee))
  || ((0 <? DurationEvent.duration newEvent) && (es <? ne) && (ne <? ee))
  || ((0 <? DurationEvent.duration newEvent) && (ns <? es) && (ee <? ne)).

Definition checkDurationOverlap (schedule : Schedule.t)
    (newEvent : DurationEvent.t) : bool :=
  List.existsb (durationClash newEvent) (Schedule.durationEvents schedule).

Definition checkVolumeOverlap (schedule : Schedule.t) (newEvent : VolumeEvent.t)
    : bool :=
  let ns := VolumeEvent.startTime newEvent in
  List.existsb (fun existingVol => ns =? VolumeEvent.startTime existingVol)
    (Schedule.volumeEvents schedule)
  || List.existsb
       (fun existingDur => (DurationEvent.startTime existingDur <? ns)
                           && (ns <? DurationEvent.endTime existingDur))
       (Schedule.durationEvents schedule).

Definition validateAndAddEvent (schedule : Schedule.t)
    (event : AutopilotWindow.t) : bool * Schedule.t :=
  if negb (AutopilotWindow.isValid event) then (false, schedule)
  else if negb (checkTimeBounds (AutopilotWindow.startTime event))
          || negb (checkTimeBounds (AutopilotWindow.endTime event))
  then (false, schedule)
  else if checkAutopilotOverlap schedule event then (false, schedule)
  else
    (true,
     Schedule.mk (Schedule.scheduleName schedule) (Schedule.lightsOnTime schedule)
       (Schedule.lightsOffTime schedule) (Schedule.scheduleUID schedule)
       (sortBy compareAutopilotWindows (Schedule.autopilotWindows schedule ++ [event]))
       (Schedule.durationEvents schedule) (Schedule.volumeEvents schedule)).

(** One round of the validation loop over a batch of duration events:
    [false] is the loop's [return false]. *)
Definition durationEventPasses (schedule : Schedule.t) (event : DurationEvent.t)
    : bool :=
  if negb (DurationEvent.isValid event) then false
  else if negb (checkTimeBounds (DurationEvent.startTime event))
          || negb (checkTimeBounds (DurationEvent.endTime event)) then false
  else if checkDurationOverlap schedule event then false
  else
    let tempVolEvent :=
      VolumeEvent.mk (DurationEvent.startTime event) 0%float (-1) in
    if checkVolumeOverlap schedule tempVolEvent then false else true.

Definition validateAndAddDurationEvents (schedule : Schedule.t)
    (events : list DurationEvent.t) : bool * Schedule.t :=
  if negb (checkDurationVolumeLimit schedule (List.length events))
  then (false, schedule)
  else if negb (List.forallb (durationEventPasses schedule) events)
  then (false, schedule)
  else
    (true,
     Schedule.mk (Schedule.scheduleName schedule) (Schedule.lightsOnTime schedule)
       (Schedule.lightsOffTime schedule) (Schedule.scheduleUID schedule)
       (Schedule.autopilotWindows schedule)
       (sortBy compareDurationEvents (Schedule.durationEvents schedule ++ events))
       (Schedule.volumeEvents schedule)).

(** One round of the validation loop over a batch of volume events. *)
Definition volumeEventPasses (schedule : Schedule.t) (event : VolumeEvent.t)
    : bool :=
  if negb (VolumeEvent.isValid event) then false
  else if negb (checkTimeBounds (VolumeEvent.startTime event)) then false
  else if checkVolumeOverlap schedule event then false
  else
    let tempDurEvent :=
      DurationEvent.mk (VolumeEvent.startTime event) 0 (VolumeEvent.startTime event) in
    if checkDurationOverlap schedule tempDurEvent then false else true.

Definition validateAndAddVolumeEvents (schedule : Schedule.t)
    (events : list VolumeEvent.t) : bool * Schedule.t :=
  if negb (checkDurationVolumeLimit schedule (List.length events))
  then (false, schedule)
  else if negb (List.forallb (volumeEventPasses schedule) events)
  then (false, schedule)
  else
    (true,
     Schedule.mk (Schedule.scheduleName schedule) (Schedule.lightsOnTime schedule)
       (Schedule.lightsOffTime schedule) (Schedule.scheduleUID schedule)
       (Schedule.autopilotWindows schedule) (Schedule.durationEvents schedule)
       (sortBy compareVolumeEvents (Schedule.volumeEvents schedule ++ events))).

(** *** Creation *)

Definition allowedChars : string :=
  "abcdefghijklmnopqrstuvwxyzABCDEFGHIJKLMNOPQRSTUVWXYZ0123456789_-".

(** [allowedChars.indexOf(c) != -1] (an Arduino string holds no NUL). *)
Definition allowed (c : ascii) : bool := WString.hasChar c allowedChars.

Definition sanitizeFilename (name : string) : string :=
  let sanitized := WString.replace name " " "_" in
  let result := WString.keepChars allowed sanitized in
  if WString.isEmpty result then "schedule"%string else result.

(** [now] is what [time()] returned, in seconds. *)
Definition generateUID (name : string) (now : Z) : string :=
  (WString.substring (sanitizeFilename name) 0 20 ++ "_" ++ WString.ofInt now)%string.

(** [createSchedule(name, newSchedule)]: the result and the value left in
    [newSchedule]. *)
Definition createSchedule (name : string) (now : Z) (newSchedule : Schedule.t)
    : bool * Schedule.t :=
  if WString.isEmpty name then (false, newSchedule)
  else
    let created :=
      Schedule.mk name (-1) (-1) (generateUID name now) [] [] [] in
    (Schedule.isValid created, created).

End ScheduleManager.

(** ** include/ScheduleManager.h: an entry of the schedule index *)

Module ScheduleFile.

Record t := mk {
  scheduleUID : string;
  name : string;
  persistentLockLevel : Z;
  lockedBy : string
}.

Definition isValid (sf : t) : bool :=
  negb (WString.isEmpty (scheduleUID sf)) && negb (WString.isEmpty (name sf)).

End ScheduleFile.

(** ** src/ScheduleManager.cpp: the schedule index *)

Module ScheduleIndex.

(** What [loadScheduleIndex] can find at the index file's path; an array is
    given by the two fields read from each element, [scheduleUID] (default
    [""]) and [locked] (default [0]). *)
Inductive IndexFile :=
| Unreadable
| EmptyFile
| Malformed
| NotAnArray
| IndexArray (entries : list (string * Z)).

Record Disk := mkDisk {
  indexFile : IndexFile;
  writes : list LockManager.WriteOutcome
}.

(** An entry of the schedule directory. *)
Record DirEntry := mkEntry {
  isDirectory : bool;
  fileName : string
}.

(** [loadScheduleIndex]: the result and [_scheduleIndex] afterwards.  Only
    [scheduleUID] and [persistentLockLevel] are assigned before [isValid] is
    asked. *)
Definition loadScheduleIndex (d : Disk) : bool * list ScheduleFile.t :=
  match indexFile d with
  | Unreadable => (true, [])
  | EmptyFile => (true, [])
  | Malformed => (false, [])
  | NotAnArray => (false, [])
  | IndexArray entries =>
      (true,
       List.filter ScheduleFile.isValid
         (List.map (fun e => ScheduleFile.mk (fst e) EmptyString (snd e) EmptyString)
            entries))
  end.

Definition saveScheduleIndex (index : list ScheduleFile.t) (d : Disk) : bool * Disk :=
  let stored :=
    IndexArray
      (List.map (fun sf => (ScheduleFile.scheduleUID sf,
                            ScheduleFile.persistentLockLevel sf)) index) in
  match writes d with
  | [] => (true, mkDisk stored [])
  | LockManager.Written :: ws => (true, mkDisk stored ws)
  | LockManager.OpenFails :: ws => (false, mkDisk (indexFile d) ws)
  | LockManager.WritesNothing :: ws => (false, mkDisk EmptyFile ws)
  end.

(** The UID a directory entry stands for, if any: the file name without
    path and extension, for a [.json] file with a non-empty base name. *)
Definition uidOfEntry (e : DirEntry) : option string :=
  if isDirectory e then None
  else
    let filename := fileName e in
    let lastSlash := WString.lastIndexOf filename "/" in
    let lastDot := WString.lastIndexOf filename "." in
    if (lastSlash <? lastDot) && WString.endsWith filename ".json" then
      let uid := WString.substring filename (lastSlash + 1) lastDot in
      if negb (WString.isEmpty uid) then Some uid else None
    else None.

Fixpoint actualFilesOf (entries : list DirEntry) : list string :=
  match entries with
  | [] => []
  | e :: rest =>
      match uidOfEntry e with
      | Some uid => uid :: actualFilesOf rest
      | None => actualFilesOf rest
      end
  end.

Definition hasFile (actualFiles : list string) (sf : ScheduleFile.t) : bool :=
  List.existsb (fun actualUid => String.eqb (ScheduleFile.scheduleUID sf) actualUid)
    actualFiles.

Definition inIndex (index : list ScheduleFile.t) (uid : string) : bool :=
  List.existsb (fun sf => String.eqb (ScheduleFile.scheduleUID sf) uid) index.

(** Step 3 of [maintainScheduleIndex]: append an unlocked entry for every
    listed UID the index does not have yet; the flag is [indexChanged]. *)
Fixpoint addMissing (actualFiles : list string) (index : list ScheduleFile.t)
    (indexChanged : bool) : list ScheduleFile.t * bool :=
  match actualFiles with
  | [] => (index, indexChanged)
  | actualUid :: rest =>
      if inIndex index actualUid then addMissing rest index indexChanged
      else addMissing rest
             (index ++ [ScheduleFile.mk actualUid EmptyString 0 EmptyString]) true
  end.

(** Step 4, also the loop of [getScheduleList]: [lockedBy] from the lock
    manager. *)
Definition refreshLockedBy (fl : LockManager.Flash) (sf : ScheduleFile.t)
    : ScheduleFile.t :=
  let resourceId := ("schedule_" ++ ScheduleFile.scheduleUID sf)%string in
  match LockManager.isLocked resourceId fl with
  | (true, Some lockInfo) =>
      ScheduleFile.mk (ScheduleFile.scheduleUID sf) (ScheduleFile.name sf)
        (ScheduleFile.persistentLockLevel sf) (FileLock.username lockInfo)
  | _ =>
      ScheduleFile.mk (ScheduleFile.scheduleUID sf) (ScheduleFile.name sf)
        (ScheduleFile.persistentLockLevel sf) EmptyString
  end.

(** [maintainScheduleIndex]: [dir] is the listing of the schedule directory
    ([None] when it cannot be opened). *)
Definition maintainScheduleIndex (dir : option (list DirEntry))
    (fl : LockManager.Flash) (index : list ScheduleFile.t) (d : Disk)
    : list ScheduleFile.t * Disk :=
  match dir with
  | None => (index, d)
  | Some entries =>
      let actualFiles := actualFilesOf entries in
      let kept := List.filter (hasFile actualFiles) index in
      let removedAny := (List.length kept <? List.length index)%nat in
      let '(grown, indexChanged) := addMissing actualFiles kept removedAny in
      let refreshed := List.map (refreshLockedBy fl) grown in
      if indexChanged then (refreshed, snd (saveScheduleIndex refreshed d))
      else (refreshed, d)
  end.

Definition getScheduleList (fl : LockManager.Flash) (index : list ScheduleFile.t)
    : list ScheduleFile.t :=
  List.map (refreshLockedBy fl) index.

Fixpoint getPersistentLockLevel (index : list ScheduleFile.t) (uid : string) : Z :=
  match index with
  | [] => -1
  | sf :: rest =>
      if String.eqb (ScheduleFile.scheduleUID sf) uid
      then ScheduleFile.persistentLockLevel sf
      else getPersistentLockLevel rest uid
  end.

(** [begin]: [dirExists] and [mkdirOk] are the answers of the file system
    for the schedule directory, [dir] its listing afterwards.  The index in
    memory is empty at construction. *)
Definition begin (dirExists mkdirOk : bool) (dir : option (list DirEntry))
    (fl : LockManager.Flash) (d : Disk) : bool * (list ScheduleFile.t * Disk) :=
  if negb dirExists && negb mkdirOk then (false, ([], d))
  else
    let '(loaded, index) := loadScheduleIndex d in
    if loaded then (true, maintainScheduleIndex dir fl index d)
    else
      let '(saved, d') := saveScheduleIndex index d in
      if saved then (true, maintainScheduleIndex dir fl index d')
      else (false, (index, d')).

End ScheduleIndex.

(** ** src/ApiRoutes.cpp: the schedule lock end points *)

Module ApiRoutes.

(** A request: what the session manager reads of it and the [uid] query
    parameter, if present. *)
Record Request := mkRequest {
  client : SessionManager.Request;
  uidParam : option string
}.

(** The managers the handlers work on. *)
Record Server := mkServer {
  sessions : SessionManager.t;
  locks : LockManager.Flash;
  scheduleIndex : list ScheduleFile.t
}.

(** The value of a [UserRole] enumerator. *)
Definition roleValue (r : UserRole) : Z :=
  match r with VIEWER => 0 | MANAGER => 1 | OWNER => 2 | UNKNOWN => 3 end.

Section Handlers.

Variable sha256hex : string -> string.

(** [handleScheduleLockPost]: the status code sent and the server
    afterwards.  [t1] is the clock when the session is validated, [t2] when
    the lock is stamped. *)
Definition handleScheduleLockPost (request : Request) (t1 t2 : Z) (sv : Server)
    : Z * Server :=
  let '(session, (st, fl)) :=
    SessionManager.validateSession sha256hex (Some (client request)) t1
      (sessions sv) (locks sv) in
  let sv := mkServer st fl (scheduleIndex sv) in
  match session with
  | None => (401, sv)
  | Some session =>
      if roleValue (SessionData.userRole session) <? roleValue MANAGER
      then (403, sv)
      else
        match uidParam request with
        | None => (400, sv)
        | Some uid =>
            let resourceId := ("schedule_" ++ uid)%string in
            let persistentLockLevel :=
              ScheduleIndex.getPersistentLockLevel (scheduleIndex sv) uid in
            if (persistentLockLevel =? 1) || (persistentLockLevel =? 2)
            then (403, sv)
            else if persistentLockLevel <? 0 then (404, sv)
            else
              let '(acquired, fl') :=
                LockManager.acquireLock resourceId EDITING_SCHEDULE session t2
                  (locks sv) in
              let sv := mkServer (sessions sv) fl' (scheduleIndex sv) in
              if acquired then (200, sv)
              else if fst (LockManager.getLockInfo resourceId fl') then (409, sv)
              else (500, sv)
        end
  end.

(** [handleScheduleLockDelete]. *)
Definition handleScheduleLockDelete (request : Request) (t1 : Z) (sv : Server)
    : Z * Server :=
  let '(session, (st, fl)) :=
    SessionManager.validateSession sha256hex (Some (client request)) t1
      (sessions sv) (locks sv) in
  let sv := mkServer st fl (scheduleIndex sv) in
  match session with
  | None => (401, sv)
  | Some session =>
      if roleValue (SessionData.userRole session) <? roleValue MANAGER
      then (403, sv)
      else
        match uidParam request with
        | None => (400, sv)
        | Some uid =>
            let resourceId := ("schedule_" ++ uid)%string in
            let '(released, fl') :=
              LockManager.releaseLock resourceId (SessionData.sessionId session)
                (locks sv) in
            let sv := mkServer (sessions sv) fl' (scheduleIndex sv) in
            if released then (200, sv)
            else if fst (LockManager.getLockInfo resourceId fl') then (403, sv)
            else (400, sv)
        end
  end.

End Handlers.

End ApiRoutes.

(** * Vocabulary of the statements *)

(** Age of a time stamp as the code computes it: an [unsigned long]
    difference. *)
Definition age (now stamp : Z) : Z := u32 (now - stamp).

(** The locks the manager sees in its file (none when it cannot be read). *)
Definition registry (fl : LockManager.Flash) : list FileLock.t :=
  match LockManager.loadAllLocks fl with
  | Some locks => locks
  | None => []
  end.

(** The lock reported for a resource by [getLockInfo]. *)
Definition holder (resourceId : string) (fl : LockManager.Flash)
    : option FileLock.t :=
  snd (LockManager.getLockInfo resourceId fl).

(** Data-model invariant of the lock set: at most one lock per resource. *)
Definition oneLockPerResource (fl : LockManager.Flash) : Prop :=
  List.NoDup (List.map FileLock.resourceId (registry fl)).

(** The next rewrite of the lock file goes through. *)
Definition nextWriteSucceeds (fl : LockManager.Flash) : Prop :=
  List.hd LockManager.Written (LockManager.writes fl) = LockManager.Written.

(** A lock with its time stamp replaced. *)
Definition refreshed (l : FileLock.t) (now : Z) : FileLock.t :=
  FileLock.mk (FileLock.resourceId l) (FileLock.lockType l)
    (FileLock.sessionId l) (FileLock.username l) now.

(** Combined number of duration and volume events of a schedule. *)
Definition eventCount (s : Schedule.t) : nat :=
  (List.length (Schedule.durationEvents s)
   + List.length (Schedule.volumeEvents s))%nat.

(** The overlap rule for autopilot windows, as the requirements word it:
    equal starts, equal ends, the new window envelops the existing one, or
    the new window's start or end lies strictly inside the existing one. *)
Definition windowsOverlap (newW existing : AutopilotWindow.t) : Prop :=
  AutopilotWindow.startTime newW = AutopilotWindow.startTime existing
  \/ AutopilotWindow.endTime newW = AutopilotWindow.endTime existing
  \/ (AutopilotWindow.startTime newW < AutopilotWindow.startTime existing
      /\ AutopilotWindow.endTime existing < AutopilotWindow.endTime newW)
  \/ (AutopilotWindow.startTime existing < AutopilotWindow.startTime newW
      /\ AutopilotWindow.startTime newW < AutopilotWindow.endTime existing)
  \/ (AutopilotWindow.startTime existing < AutopilotWindow.endTime newW
      /\ AutopilotWindow.endTime newW < AutopilotWindow.endTime existing).

(** Characters that a cookie value can carry through the parsing: no white
    space and no semicolon. *)
Definition plainChar (c : ascii) : bool :=
  negb (WString.isspace c) && negb (Ascii.eqb ";" c).

Fixpoint plain (s : string) : bool :=
  match s with
  | EmptyString => true
  | String c rest => plainChar c && plain rest
  end.

(** A dispatcher state with its queue replaced. *)
Definition withQueue (q : list OutputPointManager.OutputCommand)
    (st : OutputPointManager.t) : OutputPointManager.t :=
  OutputPointManager.mk (OutputPointManager.ioConfig st)
    (OutputPointManager.directRelayPointIdToIndexMap st)
    (OutputPointManager.relayState st) (OutputPointManager.pin0 st)
    (OutputPointManager.activeTimerTasks st) q
    (OutputPointManager.hasQueue st) (OutputPointManager.hasWorker st).

(** The manager after [begin] on the manager as constructed, the queue and
    the worker task both created. *)
Definition started (config : OutputPointManager.DirectRelayConfig)
    : OutputPointManager.t :=
  match OutputPointManager.begin config true true OutputPointManager.initial with
  | Some (_, st) => st
  | None => OutputPointManager.initial
  end.

(** One autopilot window is over when the other begins. *)
Definition before (a b : AutopilotWindow.t) : Prop :=
  AutopilotWindow.endTime a <= AutopilotWindow.startTime b.

(** Valid windows in increasing order, each one over when the next begins. *)
Definition orderedWindows (l : list AutopilotWindow.t) : Prop :=
  List.Forall (fun w => AutopilotWindow.isValid w = true) l
  /\ StronglySorted before l.

(** Every character of a string passes a test. *)
Fixpoint allChars (p : ascii -> bool) (s : string) : bool :=
  match s with
  | EmptyString => true
  | String c rest => p c && allChars p rest
  end.

(** * Concrete configurations used in the examples *)

Module Scenario.

Definition alice : SessionData.t :=
  SessionData.mk "a1" "alice" MANAGER 1000 1000 "10.0.0.9Mozilla".
Definition bob : SessionData.t :=
  SessionData.mk "b2" "bob" OWNER 1500000 1500000 "10.0.0.8curl".

Definition aliceLock : FileLock.t :=
  FileLock.mk "schedule_x" EDITING_SCHEDULE "a1" "alice" 5000.
Definition bobLock : FileLock.t :=
  FileLock.mk "schedule_y" EDITING_SCHEDULE "b2" "bob" 300000.

Definition disk : LockManager.Flash :=
  LockManager.mkFlash (LockManager.LockArray [aliceLock; bobLock]) [].

Definition lockManager : LockManager.t := LockManager.mk disk 0.

Definition sessionManager : SessionManager.t :=
  SessionManager.mk (<["a1" := alice]> (<["b2" := bob]> ∅)) 0.

(** A request that presents alice's cookie from another address. *)
Definition strangerRequest : SessionManager.Request :=
  SessionManager.mkRequest "10.0.0.7" "Mozilla"
    (Some "theme=dark; session_id=a1; lang=en").

(** A stand-in for the digest in examples (any function will do). *)
Definition plainDigest (s : string) : string := s.

(** Alice's browser, and its requests about the lock of a schedule. *)
Definition aliceRequest : SessionManager.Request :=
  SessionManager.mkRequest "10.0.0.9" "Mozilla" (Some "session_id=a1").

Definition lockRequest (uid : string) : ApiRoutes.Request :=
  ApiRoutes.mkRequest aliceRequest (Some uid).

(** The server with schedules [x], [y] and [z] in its index, none of them
    locked persistently. *)
Definition server : ApiRoutes.Server :=
  ApiRoutes.mkServer sessionManager disk
    [ScheduleFile.mk "x" "" 0 ""; ScheduleFile.mk "y" "" 0 "";
     ScheduleFile.mk "z" "" 0 ""].

(** A stand-in for SHA-256 on bytes: never empty. *)
Definition plainHash (input : list byte) : list byte := Byte.x01 :: input.

Definition oneRelay : OutputPointManager.DirectRelayConfig :=
  OutputPointManager.mkConfig 1 OutputPointManager.ShiftRegister "DirectRelay_" 0
    eq_refl eq_refl.

(** Two relays, numbered from 0. *)
Definition twoRelays : OutputPointManager.DirectRelayConfig :=
  OutputPointManager.mkConfig 2 OutputPointManager.ShiftRegister "DirectRelay_" 0
    eq_refl eq_refl.

(** Two relays, numbered from 1: [DirectRelay_1] and [DirectRelay_2]. *)
Definition relaysFromOne : OutputPointManager.DirectRelayConfig :=
  OutputPointManager.mkConfig 2 OutputPointManager.ShiftRegister "DirectRelay_" 1
    eq_refl eq_refl.

(** Two relays with a prefix of the installer's choosing. *)
Definition valves : OutputPointManager.DirectRelayConfig :=
  OutputPointManager.mkConfig 2 OutputPointManager.ShiftRegister "Valve_" 0
    eq_refl eq_refl.

(** Submit the commands in order to a freshly started manager. *)
Definition submitAll (cmds : list OutputPointManager.OutputCommand)
    (st : OutputPointManager.t) : OutputPointManager.t :=
  List.fold_left (fun acc c => snd (OutputPointManager.sendCommand c acc)) cmds st.

Definition emptySchedule : Schedule.t :=
  Schedule.mk "Morning" 0 0 "Morning_1700000000" [] [] [].

Definition window (startTime endTime : Z) : AutopilotWindow.t :=
  AutopilotWindow.mk startTime endTime 10%float 0%float 5 0.

Definition pulse (startTime endTime : Z) : DurationEvent.t :=
  DurationEvent.mk startTime 600 endTime.

Definition dose (startTime : Z) : VolumeEvent.t :=
  VolumeEvent.mk startTime 250%float (-1).

(** A schedule that already holds [n] duration events, at minutes
    [0, 2, 4, ...], each one minute long. *)
Definition pulsesEveryTwoMinutes (n : nat) : list DurationEvent.t :=
  List.map (fun i => pulse (2 * Z.of_nat i) (2 * Z.of_nat i + 1)) (List.seq 0 n).

Definition scheduleWith (n : nat) : Schedule.t :=
  Schedule.mk "Morning" 0 0 "Morning_1700000000" []
    (pulsesEveryTwoMinutes n) [].

End Scenario.

(** * Lock registry *)

Section LockTheory.

Import LockManager.

Lemma filter_idem {A} (p : A -> bool) (l : list A) :
  List.filter p (List.filter p l) = List.filter p l.
Proof.
  induction l as [|x l IH]; simpl; [reflexivity|].
  destruct (p x) eqn:Hx; simpl; [rewrite Hx, IH|]; auto.
Qed.

Lemma filter_all {A} (p : A -> bool) (l : list A) :
  (forall x, In x l -> p x = true) -> List.filter p l = l.
Proof.
  induction l as [|x l IH]; simpl; intros H; [reflexivity|].
  rewrite (H x) by auto. f_equal. apply IH. intros y Hy. apply H. auto.
Qed.

Lemma loaded_valid fl locks l :
  loadAllLocks fl = Some locks -> In l locks -> FileLock.isValid l = true.
Proof.
  unfold loadAllLocks. destruct (lockFile fl); intros H Hin;
    inversion H; subst; simpl in Hin; try contradiction.
  apply filter_In in Hin. tauto.
Qed.

Lemma registry_loaded fl locks :
  loadAllLocks fl = Some locks -> registry fl = locks.
Proof. unfold registry. intros ->. reflexivity. Qed.

(** A successful rewrite stores exactly the valid locks it was given. *)
Lemma save_then_load locks fl :
  nextWriteSucceeds fl ->
  fst (saveAllLocks locks fl) = true /\
  loadAllLocks (snd (saveAllLocks locks fl)) = Some (List.filter FileLock.isValid locks).
Proof.
  unfold nextWriteSucceeds, saveAllLocks. intros H.
  destruct (writes fl) as [|w ws]; simpl in *; [|subst w];
    (split; [reflexivity|]); unfold loadAllLocks; simpl;
    rewrite filter_idem; reflexivity.
Qed.

Lemma firstFor_In R locks l :
  firstFor R locks = Some l -> In l locks /\ FileLock.resourceId l = R.
Proof.
  induction locks as [|x locks IH]; simpl; [discriminate|].
  destruct (String.eqb (FileLock.resourceId x) R) eqn:E.
  - intros H. inversion H. subst. apply String.eqb_eq in E. auto.
  - intros H. destruct (IH H). auto.
Qed.

Lemma firstFor_None R locks :
  firstFor R locks = None <->
  (forall l, In l locks -> FileLock.resourceId l <> R).
Proof.
  induction locks as [|x locks IH]; simpl.
  - split; [intros _ l []|reflexivity].
  - destruct (String.eqb (FileLock.resourceId x) R) eqn:E.
    + apply String.eqb_eq in E. split; [discriminate|].
      intros H. exfalso. apply (H x); auto.
    + apply String.eqb_neq in E. rewrite IH. split.
      * intros H l [<-|Hl]; auto.
      * intros H l Hl. apply H. auto.
Qed.

(** The scan of [acquireLock] is decided by the lock [isLocked] reports. *)
Lemma scan_conflict R sid rest all l :
  firstFor R rest = Some l -> FileLock.sessionId l <> sid ->
  scanForHolder R sid rest all = None.
Proof.
  induction rest as [|x rest IH]; simpl; [discriminate|].
  destruct (String.eqb (FileLock.resourceId x) R) eqn:E.
  - intros H Hne. inversion H. subst x.
    apply String.eqb_neq in Hne. rewrite Hne. reflexivity.
  - auto.
Qed.

Lemma scan_same R sid rest all l :
  firstFor R rest = Some l -> FileLock.sessionId l = sid ->
  scanForHolder R sid rest all = Some (eraseIf (heldBy R sid) all).
Proof.
  induction rest as [|x rest IH]; simpl; [discriminate|].
  destruct (String.eqb (FileLock.resourceId x) R) eqn:E.
  - intros H Heq. inversion H. subst x. rewrite Heq, String.eqb_refl.
    reflexivity.
  - auto.
Qed.

Lemma scan_free R sid rest all :
  firstFor R rest = None -> scanForHolder R sid rest all = Some all.
Proof.
  induction rest as [|x rest IH]; simpl; [reflexivity|].
  destruct (String.eqb (FileLock.resourceId x) R); [discriminate|auto].
Qed.

Lemma holder_spec R fl l :
  holder R fl = Some l <->
  exists locks, loadAllLocks fl = Some locks /\ firstFor R locks = Some l.
Proof.
  unfold holder, getLockInfo, isLocked.
  destruct (loadAllLocks fl) as [locks|]; simpl.
  - destruct (firstFor R locks) eqn:F; simpl; split.
    + intros H. inversion H. subst. eauto.
    + intros (locks' & H1 & H2). inversion H1. subst. congruence.
    + discriminate.
    + intros (locks' & H1 & H2). inversion H1. subst. congruence.
  - split; [discriminate|]. intros (locks' & H1 & _). discriminate.
Qed.

(** C1. While session A holds resource R, an [acquireLock] on R by a session
    with another token returns [false] and leaves the lock file, hence R's
    holder token, user name and time stamp, exactly as they were. *)
Theorem acquireLock_other_session_rejected
    (R : string) (kind : LockType) (B : SessionData.t) (now : Z)
    (fl : Flash) (heldByA : FileLock.t) :
  holder R fl = Some heldByA ->
  FileLock.sessionId heldByA <> SessionData.sessionId B ->
  acquireLock R kind B now fl = (false, fl)
  /\ holder R (snd (acquireLock R kind B now fl)) = Some heldByA.
Proof.
  intros Hh Hne.
  assert (E : acquireLock R kind B now fl = (false, fl)).
  { apply holder_spec in Hh. destruct Hh as (locks & Hload & Hfirst).
    unfold acquireLock.
    destruct (WString.isEmpty R || negb (SessionData.isValid B)); [reflexivity|].
    rewrite Hload.
    rewrite (scan_conflict _ _ _ _ _ Hfirst Hne). reflexivity. }
  rewrite E. split; [reflexivity|exact Hh].
Qed.

Lemma firstFor_app R l1 l2 :
  firstFor R (l1 ++ l2) =
  match firstFor R l1 with Some l => Some l | None => firstFor R l2 end.
Proof.
  induction l1 as [|x l1 IH]; simpl; [reflexivity|].
  destruct (String.eqb (FileLock.resourceId x) R); auto.
Qed.

Lemma firstFor_filter R (p : FileLock.t -> bool) locks :
  (forall l, In l locks -> FileLock.resourceId l = R -> p l = true) ->
  firstFor R (List.filter p locks) = firstFor R locks.
Proof.
  induction locks as [|x locks IH]; simpl; intros H; [reflexivity|].
  destruct (String.eqb (FileLock.resourceId x) R) eqn:E.
  - rewrite (H x) by (auto; apply String.eqb_eq; exact E).
    simpl. rewrite E. reflexivity.
  - destruct (p x); simpl; [rewrite E|]; apply IH; intros l Hl; apply H; auto.
Qed.

Lemma NoDup_map_inj {A B} (f : A -> B) (l : list A) x y :
  List.NoDup (List.map f l) -> In x l -> In y l -> f x = f y -> x = y.
Proof.
  induction l as [|a l IH]; simpl; [intros _ []|].
  intros Hnd Hx Hy Hf. inversion Hnd as [|? ? Hnotin Hnd']; subst.
  destruct Hx as [->|Hx], Hy as [->|Hy]; auto.
  - exfalso. apply Hnotin. rewrite Hf. apply in_map. exact Hy.
  - exfalso. apply Hnotin. rewrite <- Hf. apply in_map. exact Hx.
Qed.

Lemma isEmpty_false s : WString.isEmpty s = false <-> s <> EmptyString.
Proof. destruct s; simpl; split; congruence. Qed.

Lemma valid_lock_fields l :
  FileLock.isValid l = true ->
  WString.isEmpty (FileLock.resourceId l) = false
  /\ FileLock.lockType l <> LOCKTYPE_INVALID
  /\ WString.isEmpty (FileLock.sessionId l) = false
  /\ 0 < FileLock.timestamp l.
Proof.
  unfold FileLock.isValid. rewrite !andb_true_iff, !negb_true_iff.
  intros [[[H1 H2] H3] H4]. repeat split; auto.
  - intros E. rewrite E in H2. discriminate.
  - apply Z.ltb_lt. exact H4.
Qed.

(** What [acquireLock] stores when the resource is already held by the
    calling session: every entry for that resource and session is dropped
    and a fresh lock is appended. *)
Lemma acquireLock_same_session R kind A now fl locks held :
  loadAllLocks fl = Some locks -> firstFor R locks = Some held ->
  FileLock.sessionId held = SessionData.sessionId A ->
  SessionData.isValid A = true -> 0 < now -> nextWriteSucceeds fl ->
  kind <> LOCKTYPE_INVALID ->
  fst (acquireLock R kind A now fl) = true
  /\ loadAllLocks (snd (acquireLock R kind A now fl)) =
     Some (eraseIf (heldBy R (SessionData.sessionId A)) locks
           ++ [FileLock.mk R kind (SessionData.sessionId A)
                 (SessionData.username A) now]).
Proof.
  intros Hload Hfirst Hsid Hvalid Hnow Hw Hkind.
  destruct (firstFor_In _ _ _ Hfirst) as [Hin HR].
  pose proof (loaded_valid _ _ _ Hload Hin) as Hv.
  destruct (valid_lock_fields _ Hv) as (HRne & _ & Hsne & _).
  rewrite HR in HRne. rewrite Hsid in Hsne.
  unfold acquireLock. rewrite HRne, Hvalid. simpl. rewrite Hload.
  rewrite (scan_same _ _ _ _ _ Hfirst Hsid).
  set (newLock := FileLock.mk R kind _ _ now).
  assert (Hnv : FileLock.isValid newLock = true).
  { unfold FileLock.isValid, newLock. simpl. rewrite HRne, Hsne. simpl.
    apply Z.ltb_lt in Hnow. rewrite Hnow.
    destruct kind; simpl; congruence. }
  rewrite Hnv. simpl.
  destruct (save_then_load
              (eraseIf (heldBy R (SessionData.sessionId A)) locks ++ [newLock])
              fl Hw) as [H1 H2].
  split; [exact H1|]. rewrite H2. f_equal. apply filter_all.
  intros x Hx. apply in_app_or in Hx. destruct Hx as [Hx|[<-|[]]]; [|exact Hnv].
  apply filter_In in Hx. apply (loaded_valid _ _ _ Hload). tauto.
Qed.

(** C4. Re-acquiring a lock one already holds.  The registry has at most one
    lock per resource, R's lock [held] is the one session A took with this
    kind, the clock reads a valid (non-zero) stamp and the file can be
    rewritten.  Then [acquireLock] returns [true]; R's lock afterwards is
    [held] with only its time stamp replaced (same token, user name and
    kind); every other resource reports the lock it reported before, and the
    lock set is the old one with [held] replaced by its refreshed copy. *)
Theorem acquireLock_same_session_refreshes
    (R : string) (kind : LockType) (A : SessionData.t) (now : Z)
    (fl : Flash) (held : FileLock.t) :
  oneLockPerResource fl ->
  holder R fl = Some held ->
  FileLock.sessionId held = SessionData.sessionId A ->
  FileLock.username held = SessionData.username A ->
  FileLock.lockType held = kind ->
  SessionData.isValid A = true ->
  0 < now ->
  nextWriteSucceeds fl ->
  fst (acquireLock R kind A now fl) = true
  /\ holder R (snd (acquireLock R kind A now fl)) = Some (refreshed held now)
  /\ (forall R', R' <> R ->
        holder R' (snd (acquireLock R kind A now fl)) = holder R' fl)
  /\ (forall l, In l (registry (snd (acquireLock R kind A now fl))) <->
        (In l (registry fl) /\ l <> held) \/ l = refreshed held now).
Proof.
  intros Hinv Hh Hsid Huser Hkind Hvalid Hnow Hw.
  apply holder_spec in Hh. destruct Hh as (locks & Hload & Hfirst).
  destruct (firstFor_In _ _ _ Hfirst) as [Hin HR].
  pose proof (loaded_valid _ _ _ Hload Hin) as Hv.
  destruct (valid_lock_fields _ Hv) as (_ & Hk & _ & _).
  rewrite Hkind in Hk.
  destruct (acquireLock_same_session R kind A now fl locks held
              Hload Hfirst Hsid Hvalid Hnow Hw Hk) as [Hok Hload'].
  set (fl' := snd (acquireLock R kind A now fl)) in *.
  assert (Hnew : FileLock.mk R kind (SessionData.sessionId A)
                   (SessionData.username A) now = refreshed held now).
  { unfold refreshed. rewrite HR, Hkind, Hsid, Huser. reflexivity. }
  rewrite Hnew in Hload'.
  unfold oneLockPerResource in Hinv. rewrite (registry_loaded _ _ Hload) in Hinv.
  (* the erased entries are exactly the copies of [held] *)
  assert (Herase : forall x, In x locks ->
            (heldBy R (SessionData.sessionId A) x = true <-> x = held)).
  { intros x Hx. unfold heldBy. rewrite andb_true_iff, !String.eqb_eq. split.
    - intros [Hr _]. apply (NoDup_map_inj FileLock.resourceId locks); auto.
      congruence.
    - intros ->. auto. }
  assert (HnoR : firstFor R (eraseIf (heldBy R (SessionData.sessionId A)) locks)
                 = None).
  { apply firstFor_None. intros x Hx Hr. apply filter_In in Hx.
    destruct Hx as [Hx Hp]. apply negb_true_iff in Hp.
    assert (x = held) by (apply (NoDup_map_inj FileLock.resourceId locks); auto;
                          congruence).
    subst x. rewrite (proj2 (Herase held Hin) eq_refl) in Hp. discriminate. }
  split; [exact Hok|]. split; [|split].
  - apply holder_spec. exists (eraseIf (heldBy R (SessionData.sessionId A)) locks
                                 ++ [refreshed held now]).
    split; [exact Hload'|]. rewrite firstFor_app, HnoR. simpl.
    rewrite HR, String.eqb_refl. reflexivity.
  - intros R' HR'. unfold holder, getLockInfo, isLocked.
    rewrite Hload', Hload. rewrite firstFor_app. unfold eraseIf.
    rewrite firstFor_filter.
    + destruct (firstFor R' locks); [reflexivity|]. simpl.
      rewrite HR. apply String.eqb_neq in HR'.
      rewrite String.eqb_sym, HR'. reflexivity.
    + intros l Hl Hr. apply negb_true_iff. unfold heldBy.
      apply andb_false_iff. left. apply String.eqb_neq. congruence.
  - intros l. rewrite (registry_loaded _ _ Hload'), (registry_loaded _ _ Hload).
    rewrite in_app_iff. unfold eraseIf. rewrite filter_In. simpl. split.
    + intros [ [Hl Hp] | [ <- | [] ] ]; [left|right; reflexivity].
      split; [exact Hl|]. intros ->. apply negb_true_iff in Hp.
      rewrite (proj2 (Herase held Hin) eq_refl) in Hp. discriminate.
    + intros [ [Hl Hne] | -> ]; [left|right; left; reflexivity].
      split; [exact Hl|]. apply negb_true_iff.
      destruct (heldBy R (SessionData.sessionId A) l) eqn:E; [|reflexivity].
      exfalso. apply Hne. apply (Herase l Hl). exact E.
Qed.

(** C10. A lock file that cannot be opened, does not parse, or is not a JSON
    array makes [isLocked] and [getLockInfo] answer [false], with no lock
    reported, for every resource. *)
Theorem isLocked_false_when_file_unusable (R : string) (fl : Flash) :
  lockFile fl = Unreadable \/ lockFile fl = Malformed \/ lockFile fl = NotAnArray ->
  isLocked R fl = (false, None) /\ getLockInfo R fl = (false, None).
Proof.
  unfold getLockInfo, isLocked, loadAllLocks.
  intros [H|[H|H]]; rewrite H; split; reflexivity.
Qed.

(** *** Sweeps and bulk release: load, erase, rewrite if anything went *)

Lemma filter_length_le' {A} (p : A -> bool) (l : list A) :
  (List.length (List.filter p l) <= List.length l)%nat.
Proof.
  induction l as [|x l IH]; simpl; [lia|]. destruct (p x); simpl; lia.
Qed.

Lemma filter_same_length {A} (p : A -> bool) (l : list A) :
  List.length (List.filter p l) = List.length l -> List.filter p l = l.
Proof.
  induction l as [|x l IH]; simpl; [reflexivity|].
  pose proof (filter_length_le' p l) as Hle.
  destruct (p x); simpl; intros H; [f_equal; apply IH; lia|lia].
Qed.

Lemma erase_then_rewrite (p : FileLock.t -> bool) fl locks :
  loadAllLocks fl = Some locks -> nextWriteSucceeds fl ->
  loadAllLocks
    (if (0 <? List.length locks - List.length (eraseIf p locks))%nat
     then snd (saveAllLocks (eraseIf p locks) fl) else fl)
  = Some (eraseIf p locks).
Proof.
  intros Hload Hw.
  destruct (0 <? List.length locks - List.length (eraseIf p locks))%nat eqn:E.
  - destruct (save_then_load (eraseIf p locks) fl Hw) as [_ ->].
    f_equal. apply filter_all. intros x Hx. apply filter_In in Hx.
    apply (loaded_valid _ _ _ Hload). tauto.
  - apply Nat.ltb_ge in E. rewrite Hload. f_equal. symmetry.
    apply filter_same_length.
    pose proof (filter_length_le' (fun x => negb (p x)) locks).
    unfold eraseIf in *. lia.
Qed.

Lemma releaseLocksForSession_registry sid fl locks :
  WString.isEmpty sid = false ->
  loadAllLocks fl = Some locks -> nextWriteSucceeds fl ->
  loadAllLocks (snd (releaseLocksForSession sid fl)) =
  Some (eraseIf (fun l => String.eqb (FileLock.sessionId l) sid) locks).
Proof.
  intros Hsid Hload Hw. unfold releaseLocksForSession. rewrite Hsid, Hload.
  rewrite <- (erase_then_rewrite _ fl locks Hload Hw).
  destruct (0 <? _)%nat; reflexivity.
Qed.

(** Whatever the file and the disk do, a session's locks are never left in a
    registry that was rewritten successfully; and an unreadable file stays
    as it is. *)
Lemma releaseLocksForSession_none_left sid fl l :
  WString.isEmpty sid = false -> nextWriteSucceeds fl ->
  In l (registry (snd (releaseLocksForSession sid fl))) ->
  FileLock.sessionId l <> sid.
Proof.
  intros Hsid Hw. destruct (loadAllLocks fl) as [locks|] eqn:Hload.
  - unfold registry.
    rewrite (releaseLocksForSession_registry sid fl locks Hsid Hload Hw).
    intros Hin. apply filter_In in Hin. destruct Hin as [_ Hp].
    apply negb_true_iff in Hp. apply String.eqb_neq. exact Hp.
  - unfold releaseLocksForSession, registry. rewrite Hsid, Hload. simpl.
    rewrite Hload. intros [].
Qed.

Lemma cleanupExpiredLocks_registry now m locks :
  LOCK_CLEANUP_INTERVAL_MS <= age now (lastCleanupTime m) ->
  loadAllLocks (flash m) = Some locks -> nextWriteSucceeds (flash m) ->
  loadAllLocks (flash (cleanupExpiredLocks now m)) =
    Some (eraseIf (expired now) locks)
  /\ lastCleanupTime (cleanupExpiredLocks now m) = now.
Proof.
  intros Hint Hload Hw. unfold cleanupExpiredLocks, age in *.
  apply Z.leb_le in Hint. rewrite Hint, Hload.
  rewrite <- (erase_then_rewrite _ (flash m) locks Hload Hw).
  destruct (0 <? _)%nat; split; reflexivity.
Qed.

(** *** The invariant is kept *)

Lemma NoDup_map_filter {A B} (f : A -> B) (p : A -> bool) (l : list A) :
  List.NoDup (List.map f l) -> List.NoDup (List.map f (List.filter p l)).
Proof.
  induction l as [|x l IH]; simpl; intros H; [constructor|].
  inversion H as [|? ? Hnotin Hnd]; subst.
  destruct (p x); simpl; [|auto]. constructor; [|auto].
  intros Hin. apply Hnotin. apply in_map_iff in Hin.
  destruct Hin as (y & Hy & Hin). apply filter_In in Hin.
  apply in_map_iff. exists y. tauto.
Qed.

Lemma NoDup_snoc {A} (l : list A) (x : A) :
  List.NoDup l -> ~ In x l -> List.NoDup (l ++ [x]).
Proof.
  induction l as [|y l IH]; simpl; intros Hnd Hx.
  - constructor; [intros []|constructor].
  - inversion Hnd as [|? ? Hy Hnd']; subst. constructor.
    + rewrite in_app_iff. simpl. intros [H|[H|[]]]; [auto|].
      apply Hx. left. congruence.
    + apply IH; auto.
Qed.

Lemma scan_result R sid locks res :
  scanForHolder R sid locks locks = Some res ->
  (firstFor R locks = None /\ res = locks)
  \/ (exists held, firstFor R locks = Some held
                   /\ FileLock.sessionId held = sid
                   /\ res = eraseIf (heldBy R sid) locks).
Proof.
  destruct (firstFor R locks) as [held|] eqn:F.
  - destruct (String.eqb (FileLock.sessionId held) sid) eqn:E.
    + apply String.eqb_eq in E. rewrite (scan_same _ _ _ _ _ F E).
      intros H. inversion H. right. eauto.
    + apply String.eqb_neq in E. rewrite (scan_conflict _ _ _ _ _ F E).
      discriminate.
  - rewrite (scan_free _ _ _ _ F). intros H. inversion H. auto.
Qed.

Lemma registry_after_save locks fl :
  registry (snd (saveAllLocks locks fl)) = List.filter FileLock.isValid locks
  \/ registry (snd (saveAllLocks locks fl)) = registry fl
  \/ registry (snd (saveAllLocks locks fl)) = [].
Proof.
  unfold saveAllLocks, registry, loadAllLocks.
  destruct (writes fl) as [|[] ws]; simpl; rewrite ?filter_idem; auto.
Qed.

Lemma scan_leaves_no_entry R sid locks res :
  List.NoDup (List.map FileLock.resourceId locks) ->
  scanForHolder R sid locks locks = Some res ->
  List.NoDup (List.map FileLock.resourceId res)
  /\ ~ In R (List.map FileLock.resourceId res)
  /\ (forall x, In x res -> In x locks).
Proof.
  intros Hinv Hscan.
  destruct (scan_result _ _ _ _ Hscan) as [[F ->]|(held & F & Hs & ->)].
  - split; [exact Hinv|]. split; [|auto]. intros Hin. apply in_map_iff in Hin.
    destruct Hin as (x & Hx & Hin).
    exact (proj1 (firstFor_None R locks) F x Hin Hx).
  - split; [apply NoDup_map_filter; exact Hinv|]. split.
    + intros Hin. apply in_map_iff in Hin. destruct Hin as (x & Hx & Hin).
      apply filter_In in Hin. destruct Hin as [Hin Hp].
      destruct (firstFor_In _ _ _ F) as [Hheld HR].
      assert (x = held)
        by (apply (NoDup_map_inj FileLock.resourceId locks); auto; congruence).
      subst x. apply negb_true_iff in Hp. unfold heldBy in Hp.
      rewrite HR, Hs, !String.eqb_refl in Hp. discriminate.
    + intros x Hx. apply filter_In in Hx. tauto.
Qed.

Lemma acquireLock_keeps_invariant R kind A now fl :
  oneLockPerResource fl ->
  oneLockPerResource (snd (acquireLock R kind A now fl)).
Proof.
  intros Hinv. unfold acquireLock.
  destruct (WString.isEmpty R || negb (SessionData.isValid A)); [exact Hinv|].
  destruct (loadAllLocks fl) as [locks|] eqn:Hload; [|exact Hinv].
  destruct (scanForHolder R (SessionData.sessionId A) locks locks)
    as [res|] eqn:Hscan; [|exact Hinv].
  destruct (negb (FileLock.isValid _)); [exact Hinv|].
  unfold oneLockPerResource in *.
  destruct (registry_after_save
              (res ++ [FileLock.mk R kind (SessionData.sessionId A)
                         (SessionData.username A) now]) fl) as [E|[E|E]];
    rewrite E; [|exact Hinv|constructor].
  rewrite (registry_loaded _ _ Hload) in Hinv.
  apply NoDup_map_filter. rewrite map_app. simpl.
  destruct (scan_leaves_no_entry _ _ _ _ Hinv Hscan) as (Hnd & Hnotin & _).
  apply NoDup_snoc; assumption.
Qed.

(** The other mutators only ever drop entries. *)
Lemma erase_keeps_invariant (p : FileLock.t -> bool) fl locks :
  loadAllLocks fl = Some locks -> oneLockPerResource fl ->
  oneLockPerResource (snd (saveAllLocks (eraseIf p locks) fl)).
Proof.
  intros Hload Hinv. unfold oneLockPerResource in *.
  destruct (registry_after_save (eraseIf p locks) fl) as [E|[E|E]];
    rewrite E; [|exact Hinv|constructor].
  rewrite (registry_loaded _ _ Hload) in Hinv.
  unfold eraseIf. apply NoDup_map_filter, NoDup_map_filter. exact Hinv.
Qed.

Lemma releaseLock_keeps_invariant R sid fl :
  oneLockPerResource fl -> oneLockPerResource (snd (releaseLock R sid fl)).
Proof.
  intros Hinv. unfold releaseLock.
  destruct (WString.isEmpty R || WString.isEmpty sid); [exact Hinv|].
  destruct (loadAllLocks fl) as [locks|] eqn:Hload; [|exact Hinv].
  destruct (_ <? _)%nat; [|exact Hinv].
  apply erase_keeps_invariant; assumption.
Qed.

Lemma releaseLocksForSession_keeps_invariant sid fl :
  oneLockPerResource fl ->
  oneLockPerResource (snd (releaseLocksForSession sid fl)).
Proof.
  intros Hinv. unfold releaseLocksForSession.
  destruct (WString.isEmpty sid); [exact Hinv|].
  destruct (loadAllLocks fl) as [locks|] eqn:Hload; [|exact Hinv].
  destruct (_ <? _)%nat; [|exact Hinv].
  apply erase_keeps_invariant; assumption.
Qed.

Lemma cleanupExpiredLocks_keeps_invariant now m :
  oneLockPerResource (flash m) ->
  oneLockPerResource (flash (cleanupExpiredLocks now m)).
Proof.
  intros Hinv. unfold cleanupExpiredLocks.
  destruct (_ <=? _); [|exact Hinv].
  destruct (loadAllLocks (flash m)) as [locks|] eqn:Hload; [|exact Hinv].
  destruct (_ <? _)%nat; [|exact Hinv].
  apply erase_keeps_invariant; assumption.
Qed.

(** *** Acquiring, then acquiring again *)

(** A successful [acquireLock] leaves the caller as the holder, with the
    kind it asked for and the clock's stamp. *)
Lemma acquireLock_success_holder R kind A now fl :
  oneLockPerResource fl ->
  fst (acquireLock R kind A now fl) = true ->
  SessionData.isValid A = true
  /\ holder R (snd (acquireLock R kind A now fl))
     = Some (FileLock.mk R kind (SessionData.sessionId A)
               (SessionData.username A) now).
Proof.
  intros Hinv. unfold acquireLock.
  destruct (SessionData.isValid A) eqn:HA;
    [|rewrite orb_true_r; discriminate].
  destruct (WString.isEmpty R); [discriminate|]. cbn [orb negb].
  destruct (loadAllLocks fl) as [locks|] eqn:Hload; [|discriminate].
  destruct (scanForHolder R (SessionData.sessionId A) locks locks)
    as [res|] eqn:Hscan; [|discriminate].
  set (newLock := FileLock.mk R kind _ _ now).
  destruct (FileLock.isValid newLock) eqn:Hnv; [|discriminate]. cbn [negb].
  intros Hok. split; [reflexivity|].
  unfold oneLockPerResource in Hinv. rewrite (registry_loaded _ _ Hload) in Hinv.
  destruct (scan_leaves_no_entry _ _ _ _ Hinv Hscan) as (_ & Hnotin & Hsub).
  assert (Hall : List.filter FileLock.isValid (res ++ [newLock]) = res ++ [newLock]).
  { apply filter_all. intros x Hx. apply in_app_or in Hx.
    destruct Hx as [Hx|[<-|[]]]; [|exact Hnv].
    apply (loaded_valid _ _ _ Hload). auto. }
  apply holder_spec. exists (res ++ [newLock]). split.
  - unfold saveAllLocks in *.
    destruct (writes fl) as [|[] ws]; simpl in *; try discriminate;
      unfold loadAllLocks; simpl; rewrite filter_idem, Hall; reflexivity.
  - rewrite firstFor_app.
    assert (F : firstFor R res = None).
    { apply firstFor_None. intros x Hx Hr. apply Hnotin.
      rewrite <- Hr. apply in_map. exact Hx. }
    rewrite F. simpl. rewrite String.eqb_refl. reflexivity.
Qed.

(** [acquireLock] twice in a row by the same session: the second call
    succeeds too and only the stamp of the lock differs. *)
Lemma acquireLock_twice R kind A t1 t2 fl :
  oneLockPerResource fl ->
  fst (acquireLock R kind A t1 fl) = true ->
  nextWriteSucceeds (snd (acquireLock R kind A t1 fl)) ->
  0 < t2 ->
  fst (acquireLock R kind A t2 (snd (acquireLock R kind A t1 fl))) = true
  /\ holder R (snd (acquireLock R kind A t2 (snd (acquireLock R kind A t1 fl))))
     = Some (refreshed (FileLock.mk R kind (SessionData.sessionId A)
                          (SessionData.username A) t1) t2).
Proof.
  intros Hinv Hok1 Hw Ht2.
  destruct (acquireLock_success_holder R kind A t1 fl Hinv Hok1) as [HA Hh1].
  pose proof (acquireLock_keeps_invariant R kind A t1 fl Hinv) as Hinv1.
  set (fl1 := snd (acquireLock R kind A t1 fl)) in *.
  apply holder_spec in Hh1. destruct Hh1 as (locks1 & Hload1 & Hfirst1).
  destruct (firstFor_In _ _ _ Hfirst1) as [Hin1 _].
  destruct (valid_lock_fields _ (loaded_valid _ _ _ Hload1 Hin1))
    as (_ & Hk & _ & _). simpl in Hk.
  destruct (acquireLock_same_session R kind A t2 fl1 locks1 _
              Hload1 Hfirst1 eq_refl HA Ht2 Hw Hk) as [Hok2 _].
  split; [exact Hok2|].
  exact (proj2 (acquireLock_success_holder R kind A t2 fl1 Hinv1 Hok2)).
Qed.

Lemma empty_registry_invariant ws : oneLockPerResource (mkFlash EmptyFile ws).
Proof. unfold oneLockPerResource, registry. simpl. constructor. Qed.

End LockTheory.

(** * Session registry *)

Section SessionTheory.

Import SessionManager.

Lemma removeSessionInternal_lookup sid st fl k :
  activeSessions (fst (removeSessionInternal sid st fl)) !! k =
  if decide (k = sid) then None else activeSessions st !! k.
Proof.
  unfold removeSessionInternal.
  destruct (activeSessions st !! sid) eqn:E; simpl.
  - destruct (decide (k = sid)) as [->|Hne].
    + apply lookup_delete_eq.
    + apply lookup_delete_ne. congruence.
  - destruct (decide (k = sid)) as [->|Hne]; [exact E|reflexivity].
Qed.

Lemma removeSessionInternal_locks sid st fl s :
  activeSessions st !! sid = Some s ->
  snd (removeSessionInternal sid st fl) =
  snd (LockManager.releaseLocksForSession sid fl).
Proof. unfold removeSessionInternal. intros ->. reflexivity. Qed.

Lemma removeAll_lookup ids st fl k :
  activeSessions (fst (removeAll ids st fl)) !! k =
  if in_dec String.string_dec k ids then None else activeSessions st !! k.
Proof.
  unfold removeAll. revert st fl.
  induction ids as [|id ids IH]; intros st fl.
  - simpl. reflexivity.
  - cbn [List.fold_left fst snd].
    destruct (removeSessionInternal id st fl) as [st1 fl1] eqn:E.
    rewrite IH.
    assert (Hl : activeSessions st1 !! k =
                 if decide (k = id) then None else activeSessions st !! k).
    { rewrite <- (removeSessionInternal_lookup id st fl k), E. reflexivity. }
    destruct (in_dec String.string_dec k ids) as [Hin|Hnin];
      destruct (in_dec String.string_dec k (id :: ids)) as [Hin'|Hnin'];
      simpl in *; try tauto.
    + rewrite Hl. destruct (decide (k = id)) as [->|Hne]; [reflexivity|].
      destruct Hin' as [->|]; [congruence|tauto].
    + rewrite Hl. destruct (decide (k = id)) as [->|Hne]; [tauto|reflexivity].
Qed.

Lemma inKeyOrder_In m k s :
  In (k, s) (inKeyOrder m) <-> m !! k = Some s.
Proof.
  unfold inKeyOrder. rewrite <- list_elem_of_In.
  rewrite (merge_sort_Permutation keyLe (map_to_list m)).
  apply elem_of_map_to_list.
Qed.

Lemma idsToRemove_In now m k :
  In k (idsToRemove now m) <->
  exists s, m !! k = Some s /\ expired now s = true.
Proof.
  unfold idsToRemove. rewrite in_map_iff. split.
  - intros ([k' s] & Hk & Hin). simpl in Hk. subst k'.
    apply filter_In in Hin. destruct Hin as [Hin Hexp].
    exists s. split; [apply inKeyOrder_In; exact Hin|exact Hexp].
  - intros (s & Hm & Hexp). exists (k, s). split; [reflexivity|].
    apply filter_In. split; [apply inKeyOrder_In; exact Hm|exact Hexp].
Qed.

(** The sweep removes exactly the sessions its test marks. *)
Lemma cleanupExpiredSessions_lookup now st fl k :
  SESSION_CLEANUP_INTERVAL_MS <= age now (lastCleanupTime st) ->
  activeSessions (fst (cleanupExpiredSessions now st fl)) !! k =
  match activeSessions st !! k with
  | Some s => if expired now s then None else Some s
  | None => None
  end.
Proof.
  intros Hint. unfold cleanupExpiredSessions, age in *.
  apply Z.leb_le in Hint. rewrite Hint.
  pose proof (removeAll_lookup (idsToRemove now (activeSessions st)) st fl k) as H.
  destruct (removeAll _ st fl) as [st' fl']. simpl in *. rewrite H.
  destruct (in_dec String.string_dec k (idsToRemove now (activeSessions st)))
    as [Hin|Hnin].
  - apply idsToRemove_In in Hin. destruct Hin as (s & -> & ->). reflexivity.
  - destruct (activeSessions st !! k) as [s|] eqn:E; [|reflexivity].
    destruct (expired now s) eqn:Hexp; [|reflexivity].
    exfalso. apply Hnin. apply idsToRemove_In. eauto.
Qed.

Variable sha256hex : string -> string.

(** C3. A request whose cookie names a stored session and that fails
    validation, by time-out or by a fingerprint that differs from the stored
    one, gets no session back, and the session is gone from the registry
    (the others are untouched); once the lock file has been rewritten, no
    lock of that token is left in it. *)
Theorem validateSession_failure_tears_down
    (req : Request) (now : Z) (st : t) (fl : LockManager.Flash)
    (sid : string) (s : SessionData.t) :
  sessionIdOfCookie (cookieHeader req) = sid ->
  sid <> EmptyString ->
  activeSessions st !! sid = Some s ->
  SESSION_TIMEOUT_MS < age now (SessionData.lastHeartbeat s)
    \/ generateFingerprint sha256hex (Some req) <> SessionData.fingerprint s ->
  let out := validateSession sha256hex (Some req) now st fl in
  fst out = None
  /\ activeSessions (fst (snd out)) !! sid = None
  /\ (forall k, k <> sid ->
        activeSessions (fst (snd out)) !! k = activeSessions st !! k)
  /\ (nextWriteSucceeds fl ->
      forall l, In l (registry (snd (snd out))) -> FileLock.sessionId l <> sid).
Proof.
  intros Hcookie Hne Hlook Hfail out.
  assert (Hout : out = (None, removeSessionInternal sid st fl)).
  { unfold out, validateSession. rewrite Hcookie.
    rewrite (proj2 (isEmpty_false sid) Hne), Hlook.
    destruct (expired now s) eqn:Hexp; [reflexivity|].
    destruct Hfail as [Hage|Hfp].
    - unfold expired, age in *. apply Z.ltb_ge in Hexp. lia.
    - assert (E : String.eqb (SessionData.fingerprint s)
                    (generateFingerprint sha256hex (Some req)) = false)
        by (apply String.eqb_neq; congruence).
      rewrite E. reflexivity. }
  rewrite Hout. simpl. split; [reflexivity|]. split; [|split].
  - rewrite removeSessionInternal_lookup.
    destruct (decide (sid = sid)); [reflexivity|congruence].
  - intros k Hk. rewrite removeSessionInternal_lookup.
    destruct (decide (k = sid)); [congruence|reflexivity].
  - intros Hw l. rewrite (removeSessionInternal_locks sid st fl s Hlook).
    apply releaseLocksForSession_none_left; [|exact Hw].
    apply isEmpty_false. exact Hne.
Qed.

End SessionTheory.

(** C6. After a sweep has run: a lock, or a session, older than its time-out
    is gone, and one younger than the time-out is still there, unchanged.
    The lock sweep acts on the file, so its half holds when the rewrite goes
    through. *)
Theorem sweeps_remove_the_expired_only
    (now : Z) (m : LockManager.t) (st : SessionManager.t)
    (fl : LockManager.Flash) :
  (LockManager.LOCK_CLEANUP_INTERVAL_MS
     <= age now (LockManager.lastCleanupTime m) ->
   nextWriteSucceeds (LockManager.flash m) ->
   forall l, In l (registry (LockManager.flash m)) ->
     (LockManager.LOCK_TIMEOUT_MS < age now (FileLock.timestamp l) ->
      ~ In l (registry (LockManager.flash (LockManager.cleanupExpiredLocks now m))))
     /\ (age now (FileLock.timestamp l) < LockManager.LOCK_TIMEOUT_MS ->
         In l (registry (LockManager.flash (LockManager.cleanupExpiredLocks now m)))))
  /\
  (SessionManager.SESSION_CLEANUP_INTERVAL_MS
     <= age now (SessionManager.lastCleanupTime st) ->
   forall sid s, SessionManager.activeSessions st !! sid = Some s ->
     (SessionManager.SESSION_TIMEOUT_MS < age now (SessionData.lastHeartbeat s) ->
      SessionManager.activeSessions
        (fst (SessionManager.cleanupExpiredSessions now st fl)) !! sid = None)
     /\ (age now (SessionData.lastHeartbeat s) < SessionManager.SESSION_TIMEOUT_MS ->
         SessionManager.activeSessions
           (fst (SessionManager.cleanupExpiredSessions now st fl)) !! sid = Some s)).
Proof.
  split.
  - intros Hint Hw l Hin.
    destruct (LockManager.loadAllLocks (LockManager.flash m)) as [locks|] eqn:Hload.
    + destruct (cleanupExpiredLocks_registry now m locks Hint Hload Hw) as [Hreg _].
      rewrite (registry_loaded _ _ Hload) in Hin.
      rewrite (registry_loaded _ _ Hreg).
      unfold LockManager.eraseIf. rewrite filter_In.
      unfold LockManager.expired, age in *. split.
      * intros Hage [_ Hp]. apply negb_true_iff, Z.ltb_ge in Hp. lia.
      * intros Hage. split; [exact Hin|]. apply negb_true_iff, Z.ltb_ge. lia.
    + unfold registry in Hin. rewrite Hload in Hin. destruct Hin.
  - intros Hint sid s Hlook.
    rewrite (cleanupExpiredSessions_lookup now st fl sid Hint), Hlook.
    unfold SessionManager.expired, age in *. split; intros Hage.
    + apply Z.ltb_lt in Hage. rewrite Hage. reflexivity.
    + assert (E : (SessionManager.SESSION_TIMEOUT_MS
                   <? u32 (now - SessionData.lastHeartbeat s)) = false)
        by (apply Z.ltb_ge; lia).
      rewrite E. reflexivity.
Qed.

(** * Output dispatcher *)

Section OutputTheory.

Import OutputPointManager.

Lemma setDirectRelayStatePhysical_timers idx on st :
  activeTimerTasks (setDirectRelayStatePhysical idx on st) = activeTimerTasks st.
Proof.
  unfold setDirectRelayStatePhysical.
  destruct (controlMethod (ioConfig st)); reflexivity.
Qed.

(** [TURN_ON] and [TURN_OFF] never touch the timer slots: whatever task is
    armed stays armed. *)
Lemma processCommand_plain_keeps_timers cmd st :
  commandType cmd <> TURN_ON_TIMED ->
  activeTimerTasks (processCommand cmd st) = activeTimerTasks st.
Proof.
  intros H. unfold processCommand.
  destruct (directRelayPointIdToIndexMap st !! pointId cmd); [|reflexivity].
  destruct (commandType cmd); try congruence;
    apply setDirectRelayStatePhysical_timers.
Qed.

(** [TURN_ON_TIMED] replaces whatever task was armed for the relay. *)
Lemma processCommand_timed_rearms cmd st idx :
  commandType cmd = TURN_ON_TIMED ->
  directRelayPointIdToIndexMap st !! pointId cmd = Some idx ->
  (Z.to_nat idx < List.length (activeTimerTasks st))%nat ->
  activeTimerTasks (processCommand cmd st) !! Z.to_nat idx
  = Some (Some (mkTimer idx (durationMs cmd))).
Proof.
  intros Hty Hmap Hlt. unfold processCommand. rewrite Hmap, Hty.
  rewrite setDirectRelayStatePhysical_timers.
  set (st1 := setDirectRelayStatePhysical idx true st).
  assert (Hlen : List.length (activeTimerTasks st1) = List.length (activeTimerTasks st))
    by (unfold st1; rewrite setDirectRelayStatePhysical_timers; reflexivity).
  destruct (activeTimerTasks st !! Z.to_nat idx) as [[tp|]|]; simpl;
    apply list_lookup_insert_eq; rewrite ?length_insert; lia.
Qed.

(** *** The point-id map *)

Lemma to_int_not_nil z :
  Z.to_int z <> Decimal.Pos Decimal.Nil /\ Z.to_int z <> Decimal.Neg Decimal.Nil.
Proof.
  destruct z; simpl; split; try discriminate; intros H; inversion H as [H1];
    revert H1; apply Unsigned.to_uint_nonnil.
Qed.

(** Distinct numbers print differently. *)
Lemma ofInt_inj a b : WString.ofInt a = WString.ofInt b -> a = b.
Proof.
  unfold WString.ofInt. intros H. apply DecimalZ.to_int_inj.
  destruct (to_int_not_nil a) as [Ha1 Ha2], (to_int_not_nil b) as [Hb1 Hb2].
  pose proof (NilZero.isi _ Ha1 Ha2) as Ea.
  pose proof (NilZero.isi _ Hb1 Hb2) as Eb.
  rewrite H in Ea. congruence.
Qed.

Lemma append_inj (p a b : string) : (p ++ a)%string = (p ++ b)%string -> a = b.
Proof. induction p as [|c p IH]; simpl; intros H; [exact H|]. inversion H. auto. Qed.

Lemma pointId_inj prefix a b :
  (prefix ++ WString.ofInt a)%string = (prefix ++ WString.ofInt b)%string -> a = b.
Proof. intros H. apply ofInt_inj, (append_inj prefix). exact H. Qed.

(** *** [int] sums *)

Lemma isInt_range z : isInt z = true <-> - 2 ^ 31 <= z < 2 ^ 31.
Proof. unfold isInt. rewrite andb_true_iff, Z.leb_le, Z.ltb_lt. tauto. Qed.

(** A sum that stays in range is not changed. *)
Lemma i32_in_range z : - 2 ^ 31 <= z < 2 ^ 31 -> i32 z = z.
Proof. intros H. unfold i32. rewrite Z.mod_small; lia. Qed.

(** Wrapped sums agree only for numbers a multiple of 2^32 apart. *)
Lemma i32_eq_close a b : i32 a = i32 b -> - 2 ^ 32 < a - b < 2 ^ 32 -> a = b.
Proof.
  unfold i32. intros E H.
  assert (E' : (a + 2 ^ 31) mod 2 ^ 32 = (b + 2 ^ 31) mod 2 ^ 32) by lia.
  pose proof (Z.div_mod (a + 2 ^ 31) (2 ^ 32) ltac:(lia)) as Ha.
  pose proof (Z.div_mod (b + 2 ^ 31) (2 ^ 32) ltac:(lia)) as Hb.
  rewrite E' in Ha.
  assert (Hq : (a + 2 ^ 31) / 2 ^ 32 = (b + 2 ^ 31) / 2 ^ 32) by lia.
  lia.
Qed.

Lemma relay_name_inj prefix startIdx a b :
  (prefix ++ WString.ofInt (i32 (startIdx + a)))%string
  = (prefix ++ WString.ofInt (i32 (startIdx + b)))%string ->
  - 2 ^ 32 < a - b < 2 ^ 32 -> a = b.
Proof.
  intros E H. apply pointId_inj in E. apply i32_eq_close in E; lia.
Qed.

(** A key maps to [v] after the loop exactly when it did before and is not
    overwritten, or when it is the name the loop gives [v]. *)
Lemma mapRelays_lookup prefix startIdx n : forall i0 m k v,
  Z.of_nat n <= 2 ^ 32 ->
  mapRelays prefix startIdx i0 n m !! k = Some v <->
  (exists j, i0 <= j < i0 + Z.of_nat n
             /\ k = (prefix ++ WString.ofInt (i32 (startIdx + j)))%string /\ v = j)
  \/ ((forall j, i0 <= j < i0 + Z.of_nat n ->
         k <> (prefix ++ WString.ofInt (i32 (startIdx + j)))%string)
      /\ m !! k = Some v).
Proof.
  induction n as [|n IH]; intros i0 m k v Hn.
  - simpl. split.
    + intros H. right. split; [intros j Hj; lia|exact H].
    + intros [(j & Hj & _)|[_ H]]; [lia|exact H].
  - cbn [mapRelays]. rewrite IH by lia. rewrite Nat2Z.inj_succ in *. split.
    + intros [(j & Hj & Hk & Hv)|[Hfresh Hm]].
      * left. exists j. repeat split; auto; lia.
      * destruct (decide (k = (prefix ++ WString.ofInt (i32 (startIdx + i0)))%string))
          as [Hk|Hk].
        -- subst k. rewrite lookup_insert_eq in Hm. inversion Hm. subst v.
           left. exists i0. repeat split; auto; lia.
        -- rewrite lookup_insert_ne in Hm by congruence.
           right. split; [|exact Hm]. intros j Hj.
           destruct (Z.eq_dec j i0) as [->|Hne]; [exact Hk|].
           apply Hfresh. lia.
    + intros [(j & Hj & Hk & Hv)|[Hfresh Hm]].
      * destruct (Z.eq_dec j i0) as [->|Hne].
        -- right. split.
           ++ intros j' Hj' E. subst k. apply relay_name_inj in E; lia.
           ++ subst k v. apply lookup_insert_eq.
        -- left. exists j. repeat split; auto; lia.
      * right. split.
        -- intros j Hj. apply Hfresh. lia.
        -- rewrite lookup_insert_ne; [exact Hm|].
           intros E. apply (Hfresh i0); [lia|congruence].
Qed.

(** [buildDirectRelayMap] names relay [i] by prefix and [startIdx + i], and
    nothing else. *)
Lemma buildDirectRelayMap_lookup cfg k v :
  buildDirectRelayMap cfg !! k = Some v <->
  0 <= v < count cfg
  /\ k = (pointIdPrefix cfg ++ WString.ofInt (i32 (pointIdStartIndex cfg + v)))%string.
Proof.
  pose proof (proj1 (isInt_range _) (count_int cfg)) as Hc.
  unfold buildDirectRelayMap. rewrite mapRelays_lookup by lia. split.
  - intros [(j & Hj & Hk & ->)|[_ H]].
    + split; [lia|exact Hk].
    + rewrite lookup_empty in H. discriminate.
  - intros [Hv Hk]. left. exists v. repeat split; auto; lia.
Qed.

(** The map of a started manager is the one [buildDirectRelayMap] builds. *)
Lemma started_map cfg :
  directRelayPointIdToIndexMap (started cfg) = buildDirectRelayMap cfg.
Proof.
  unfold started, begin.
  destruct (Z.ltb_spec (count cfg) 0) as [Hneg|Hpos].
  - unfold buildDirectRelayMap. rewrite Z2Nat.nonpos by lia. reflexivity.
  - cbn [negb]. unfold initializeDirectRelayHardware. cbn [ioConfig].
    destruct (controlMethod cfg); [reflexivity| |reflexivity].
    destruct (0 <? count cfg); reflexivity.
Qed.

(** The command of relay [i]'s timer is addressed to relay [i] exactly when
    the configured prefix followed by [startIdx + i] reads
    ["DirectRelay_" ++ i]; with the default prefix, when the relays are
    numbered from 0. *)
Lemma timer_command_target cfg tp :
  0 <= relayIndex tp < count cfg ->
  (directRelayPointIdToIndexMap (started cfg) !! pointId (timerOffCommand tp)
   = Some (relayIndex tp)
   <-> ("DirectRelay_" ++ WString.ofInt (relayIndex tp))%string
       = (pointIdPrefix cfg
          ++ WString.ofInt (i32 (pointIdStartIndex cfg + relayIndex tp)))%string).
Proof.
  intros Hi. rewrite started_map. cbn [timerOffCommand pointId].
  rewrite buildDirectRelayMap_lookup. tauto.
Qed.

Lemma timer_command_target_default_prefix cfg tp :
  pointIdPrefix cfg = "DirectRelay_"%string ->
  0 <= relayIndex tp < count cfg ->
  (directRelayPointIdToIndexMap (started cfg) !! pointId (timerOffCommand tp)
   = Some (relayIndex tp)
   <-> pointIdStartIndex cfg = 0).
Proof.
  intros Hp Hi. rewrite (timer_command_target cfg tp Hi), Hp.
  pose proof (proj1 (isInt_range _) (count_int cfg)) as Hc.
  pose proof (proj1 (isInt_range _) (pointIdStartIndex_int cfg)) as Hs.
  split.
  - intros E. apply pointId_inj in E.
    rewrite <- (i32_in_range (relayIndex tp)) in E at 1 by lia.
    apply i32_eq_close in E; lia.
  - intros ->. rewrite Z.add_0_l, i32_in_range by lia. reflexivity.
Qed.

(** C2 on the code: [OnTimed] then [Off] for the same relay.  After both are
    processed the relay is off but its timer task is still armed; when that
    task wakes it submits a second [TURN_OFF]; and if the relay has been
    switched on again in the meantime, that stale command switches it off. *)
Theorem off_leaves_the_timer_armed :
  let timed := mkCommand "DirectRelay_0" TURN_ON_TIMED 2000 in
  let off := mkCommand "DirectRelay_0" TURN_OFF 0 in
  let on := mkCommand "DirectRelay_0" TURN_ON 0 in
  let afterOff := drain 2 (Scenario.submitAll [timed; off] (started Scenario.oneRelay)) in
  let switchedOnAgain := drain 1 (Scenario.submitAll [on] afterOff) in
  relayOn 0 afterOff = false
  /\ commandQueue afterOff = []
  /\ activeTimerTasks afterOff = [Some (mkTimer 0 2000)]
  /\ option_map commandQueue (timerExpires 0 afterOff) = Some [off]
  /\ relayOn 0 switchedOnAgain = true
  /\ option_map (fun st => relayOn 0 (drain 1 st)) (timerExpires 0 switchedOnAgain)
     = Some false.
Proof. vm_compute. repeat split; reflexivity. Qed.

(** C5 on the code: the command a timer task submits is always named
    ["DirectRelay_" ++ index], whatever prefix and start index the map was
    built with.  With relays numbered from 1, the [Off] for relay 0
    ([DirectRelay_1]) is addressed to the unknown [DirectRelay_0] and relay 0
    stays on; the [Off] for relay 1 ([DirectRelay_2]) is addressed to
    [DirectRelay_1] and switches relay 0 off instead, relay 1 staying on.
    With another prefix no timer ever switches its relay off. *)
Theorem timer_off_command_ignores_the_point_id_mapping :
  let run cfg cmds :=
    drain 1 (Scenario.submitAll cmds (started cfg)) in
  let fire slot st := option_map (drain 1) (timerExpires slot st) in
  let first := run Scenario.relaysFromOne [mkCommand "DirectRelay_1" TURN_ON_TIMED 2000] in
  let both :=
    drain 2 (Scenario.submitAll
               [mkCommand "DirectRelay_1" TURN_ON 0;
                mkCommand "DirectRelay_2" TURN_ON_TIMED 2000]
               (started Scenario.relaysFromOne)) in
  let valve := run Scenario.valves [mkCommand "Valve_0" TURN_ON_TIMED 2000] in
  (relayOn 0 first = true
   /\ option_map commandQueue (timerExpires 0 first)
      = Some [mkCommand "DirectRelay_0" TURN_OFF 0]
   /\ option_map (relayOn 0) (fire 0%nat first) = Some true
   /\ option_map activeTimerTasks (fire 0%nat first) = Some [None; None])
  /\ (relayOn 0 both = true /\ relayOn 1 both = true
      /\ option_map (relayOn 1) (fire 1%nat both) = Some true
      /\ option_map (relayOn 0) (fire 1%nat both) = Some false)
  /\ (relayOn 0 valve = true
      /\ option_map (relayOn 0) (fire 0%nat valve) = Some true).
Proof. vm_compute. repeat split; reflexivity. Qed.

(** With the default prefix and numbering from 0 the name does match: each
    of eight relays is switched off by its own timer. *)
Example timer_off_reaches_its_relay_by_default :
  List.forallb
    (fun i =>
       let cfg := mkConfig 8 ShiftRegister "DirectRelay_" 0 eq_refl eq_refl in
       let id := ("DirectRelay_" ++ WString.ofInt (Z.of_nat i))%string in
       let armed :=
         drain 1 (Scenario.submitAll [mkCommand id TURN_ON_TIMED 500] (started cfg)) in
       relayOn (Z.of_nat i) armed
       && match timerExpires i armed with
          | Some st => negb (relayOn (Z.of_nat i) (drain 1 st))
          | None => false
          end)
    (List.seq 0 8) = true.
Proof. vm_compute. reflexivity. Qed.

End OutputTheory.

(** * Schedule validation *)

Section ScheduleTheory.

Import ScheduleManager.

Lemma insertBy_length {A} (lt : A -> A -> bool) x l :
  List.length (insertBy lt x l) = S (List.length l).
Proof.
  induction l as [|y l IH]; simpl; [reflexivity|].
  destruct (lt y x); simpl; [rewrite IH|]; reflexivity.
Qed.

Lemma sortBy_length {A} (lt : A -> A -> bool) l :
  List.length (sortBy lt l) = List.length l.
Proof.
  induction l as [|x l IH]; simpl; [reflexivity|].
  rewrite insertBy_length, IH. reflexivity.
Qed.

Lemma insertBy_In {A} (lt : A -> A -> bool) x l y :
  In y (insertBy lt x l) <-> y = x \/ In y l.
Proof.
  induction l as [|z l IH]; simpl.
  - intuition.
  - destruct (lt z x); simpl; [rewrite IH|]; intuition.
Qed.

Lemma sortBy_In {A} (lt : A -> A -> bool) l y :
  In y (sortBy lt l) <-> In y l.
Proof.
  induction l as [|x l IH]; simpl; [tauto|].
  rewrite insertBy_In, IH. intuition.
Qed.

Lemma autopilotClash_spec newW existing :
  autopilotClash newW existing = true <-> windowsOverlap newW existing.
Proof.
  unfold autopilotClash, windowsOverlap.
  rewrite !orb_true_iff, !andb_true_iff, !Z.eqb_eq, !Z.ltb_lt. tauto.
Qed.

Lemma checkAutopilotOverlap_spec s newW :
  checkAutopilotOverlap s newW = true <->
  exists existing, In existing (Schedule.autopilotWindows s)
                   /\ windowsOverlap newW existing.
Proof.
  unfold checkAutopilotOverlap. rewrite existsb_exists.
  split; intros (e & He & Hc); exists e; split; auto;
    apply autopilotClash_spec; exact Hc.
Qed.

Lemma valid_window_times w :
  AutopilotWindow.isValid w = true ->
  0 <= AutopilotWindow.startTime w < AutopilotWindow.endTime w
  /\ AutopilotWindow.endTime w <= 1439.
Proof.
  unfold AutopilotWindow.isValid.
  destruct (AutopilotWindow.startTime w <? 0) eqn:E1;
  destruct (1439 <? AutopilotWindow.startTime w) eqn:E2;
  destruct (AutopilotWindow.endTime w <? 0) eqn:E3;
  destruct (1439 <? AutopilotWindow.endTime w) eqn:E4; simpl; try discriminate.
  destruct (AutopilotWindow.endTime w <=? AutopilotWindow.startTime w) eqn:E5;
    [discriminate|].
  intros _. apply Z.ltb_ge in E1, E4. apply Z.leb_gt in E5. lia.
Qed.

Lemma valid_window_in_bounds w :
  AutopilotWindow.isValid w = true ->
  checkTimeBounds (AutopilotWindow.startTime w) = true
  /\ checkTimeBounds (AutopilotWindow.endTime w) = true.
Proof.
  intros H. apply valid_window_times in H. unfold checkTimeBounds.
  rewrite !andb_true_iff, !Z.leb_le. lia.
Qed.

Lemma validateAndAddEvent_result s w :
  AutopilotWindow.isValid w = true ->
  fst (validateAndAddEvent s w) = negb (checkAutopilotOverlap s w).
Proof.
  intros H. unfold validateAndAddEvent. rewrite H.
  destruct (valid_window_in_bounds w H) as [-> ->]. simpl.
  destruct (checkAutopilotOverlap s w); reflexivity.
Qed.

Lemma validateAndAddEvent_windows s w :
  fst (validateAndAddEvent s w) = true ->
  Schedule.autopilotWindows (snd (validateAndAddEvent s w))
  = sortBy compareAutopilotWindows (Schedule.autopilotWindows s ++ [w]).
Proof.
  unfold validateAndAddEvent.
  destruct (negb (AutopilotWindow.isValid w)); [discriminate|].
  destruct (negb _ || negb _); [discriminate|].
  destruct (checkAutopilotOverlap s w); [discriminate|]. reflexivity.
Qed.

(** C8. A valid autopilot window is rejected exactly when some window of the
    schedule has the same start, the same end, lies inside the new one, or
    contains the new one's start or end strictly inside its span; and two
    valid windows that only touch (the end of one is the start of the other)
    are both accepted into a schedule without windows, in either order. *)
Theorem autopilot_window_rejected_iff_overlap :
  (forall (s : Schedule.t) (w : AutopilotWindow.t),
     AutopilotWindow.isValid w = true ->
     (fst (validateAndAddEvent s w) = false <->
      exists existing, In existing (Schedule.autopilotWindows s)
                       /\ windowsOverlap w existing))
  /\
  (forall (s : Schedule.t) (a b : AutopilotWindow.t),
     Schedule.autopilotWindows s = [] ->
     AutopilotWindow.isValid a = true ->
     AutopilotWindow.isValid b = true ->
     AutopilotWindow.endTime a = AutopilotWindow.startTime b ->
     (fst (validateAndAddEvent s a) = true
      /\ fst (validateAndAddEvent (snd (validateAndAddEvent s a)) b) = true)
     /\ (fst (validateAndAddEvent s b) = true
         /\ fst (validateAndAddEvent (snd (validateAndAddEvent s b)) a) = true)).
Proof.
  split.
  - intros s w Hv. rewrite (validateAndAddEvent_result s w Hv).
    rewrite negb_false_iff. apply checkAutopilotOverlap_spec.
  - intros s a b Hs Ha Hb Htouch.
    pose proof (valid_window_times a Ha) as Ta.
    pose proof (valid_window_times b Hb) as Tb.
    assert (Hfree : forall w, AutopilotWindow.isValid w = true ->
                      fst (validateAndAddEvent s w) = true).
    { intros w Hw. rewrite (validateAndAddEvent_result s w Hw).
      unfold checkAutopilotOverlap. rewrite Hs. reflexivity. }
    assert (Hsecond : forall x y,
              AutopilotWindow.isValid x = true ->
              AutopilotWindow.isValid y = true ->
              ~ windowsOverlap y x ->
              fst (validateAndAddEvent (snd (validateAndAddEvent s x)) y) = true).
    { intros x y Hx Hy Hno. rewrite (validateAndAddEvent_result _ y Hy).
      apply negb_true_iff. apply not_true_is_false. intros Hc.
      apply checkAutopilotOverlap_spec in Hc. destruct Hc as (e & He & Hc).
      rewrite (validateAndAddEvent_windows s x (Hfree x Hx)), Hs in He.
      simpl in He. destruct He as [<-|[]]. exact (Hno Hc). }
    split; (split; [apply Hfree; assumption|]).
    + apply Hsecond; auto. unfold windowsOverlap. lia.
    + apply Hsecond; auto. unfold windowsOverlap. lia.
Qed.

Lemma limit_spec s n :
  Z.of_nat (eventCount s + n) < 2 ^ 32 ->
  checkDurationVolumeLimit s n = true <-> (eventCount s + n <= 100)%nat.
Proof.
  intros Hfit. unfold checkDurationVolumeLimit, eventCount, u32 in *.
  rewrite Z.mod_small by lia. rewrite Z.leb_le. lia.
Qed.

Lemma validateAndAddDurationEvents_result s evs :
  fst (validateAndAddDurationEvents s evs)
  = checkDurationVolumeLimit s (List.length evs)
    && List.forallb (durationEventPasses s) evs.
Proof.
  unfold validateAndAddDurationEvents.
  destruct (checkDurationVolumeLimit s (List.length evs)); simpl; [|reflexivity].
  destruct (List.forallb (durationEventPasses s) evs); reflexivity.
Qed.

Lemma validateAndAddVolumeEvents_result s evs :
  fst (validateAndAddVolumeEvents s evs)
  = checkDurationVolumeLimit s (List.length evs)
    && List.forallb (volumeEventPasses s) evs.
Proof.
  unfold validateAndAddVolumeEvents.
  destruct (checkDurationVolumeLimit s (List.length evs)); simpl; [|reflexivity].
  destruct (List.forallb (volumeEventPasses s) evs); reflexivity.
Qed.

Lemma validateAndAddDurationEvents_count s evs :
  fst (validateAndAddDurationEvents s evs) = true ->
  eventCount (snd (validateAndAddDurationEvents s evs))
  = (eventCount s + List.length evs)%nat.
Proof.
  unfold validateAndAddDurationEvents.
  destruct (negb (checkDurationVolumeLimit _ _)); [discriminate|].
  destruct (negb (List.forallb _ _)); [discriminate|]. intros _.
  unfold eventCount. simpl. rewrite sortBy_length, length_app. lia.
Qed.

Lemma validateAndAddVolumeEvents_count s evs :
  fst (validateAndAddVolumeEvents s evs) = true ->
  eventCount (snd (validateAndAddVolumeEvents s evs))
  = (eventCount s + List.length evs)%nat.
Proof.
  unfold validateAndAddVolumeEvents.
  destruct (negb (checkDurationVolumeLimit _ _)); [discriminate|].
  destruct (negb (List.forallb _ _)); [discriminate|]. intros _.
  unfold eventCount. simpl. rewrite sortBy_length, length_app. lia.
Qed.

(** C9. Adding duration or volume events succeeds only if the combined count
    after the insertion is at most 100 (the counts being what a 32-bit
    [size_t] can hold); a schedule holding 100 rejects one more event, and a
    schedule holding 99 accepts a 100th event that passes the per-event
    checks. *)
Theorem combined_event_limit :
  (forall s (durs : list DurationEvent.t) (vols : list VolumeEvent.t),
     Z.of_nat (eventCount s + List.length durs) < 2 ^ 32 ->
     Z.of_nat (eventCount s + List.length vols) < 2 ^ 32 ->
     (fst (validateAndAddDurationEvents s durs) = true ->
      (eventCount (snd (validateAndAddDurationEvents s durs)) <= 100)%nat
      /\ eventCount (snd (validateAndAddDurationEvents s durs))
         = (eventCount s + List.length durs)%nat)
     /\ (fst (validateAndAddVolumeEvents s vols) = true ->
         (eventCount (snd (validateAndAddVolumeEvents s vols)) <= 100)%nat
         /\ eventCount (snd (validateAndAddVolumeEvents s vols))
            = (eventCount s + List.length vols)%nat))
  /\
  (forall s d v,
     eventCount s = 100%nat ->
     validateAndAddDurationEvents s [d] = (false, s)
     /\ validateAndAddVolumeEvents s [v] = (false, s))
  /\
  (forall s d v,
     eventCount s = 99%nat ->
     (durationEventPasses s d = true ->
      fst (validateAndAddDurationEvents s [d]) = true
      /\ eventCount (snd (validateAndAddDurationEvents s [d])) = 100%nat)
     /\ (volumeEventPasses s v = true ->
         fst (validateAndAddVolumeEvents s [v]) = true
         /\ eventCount (snd (validateAndAddVolumeEvents s [v])) = 100%nat)).
Proof.
  split; [|split].
  - intros s durs vols Hd Hv. split; intros Hok.
    + pose proof (validateAndAddDurationEvents_count s durs Hok) as Hc.
      rewrite validateAndAddDurationEvents_result in Hok.
      apply andb_true_iff in Hok. destruct Hok as [Hlim _].
      apply (limit_spec s _ Hd) in Hlim. lia.
    + pose proof (validateAndAddVolumeEvents_count s vols Hok) as Hc.
      rewrite validateAndAddVolumeEvents_result in Hok.
      apply andb_true_iff in Hok. destruct Hok as [Hlim _].
      apply (limit_spec s _ Hv) in Hlim. lia.
  - intros s d v Hc.
    assert (Hlim : checkDurationVolumeLimit s 1 = false).
    { apply not_true_is_false. intros H. apply limit_spec in H; lia. }
    unfold validateAndAddDurationEvents, validateAndAddVolumeEvents. simpl.
    rewrite Hlim. split; reflexivity.
  - intros s d v Hc.
    assert (Hlim : checkDurationVolumeLimit s 1 = true)
      by (apply limit_spec; lia).
    split; intros Hp.
    + assert (Hok : fst (validateAndAddDurationEvents s [d]) = true).
      { rewrite validateAndAddDurationEvents_result. simpl.
        rewrite Hlim, Hp. reflexivity. }
      split; [exact Hok|].
      rewrite (validateAndAddDurationEvents_count s [d] Hok). simpl. lia.
    + assert (Hok : fst (validateAndAddVolumeEvents s [v]) = true).
      { rewrite validateAndAddVolumeEvents_result. simpl.
        rewrite Hlim, Hp. reflexivity. }
      split; [exact Hok|].
      rewrite (validateAndAddVolumeEvents_count s [v] Hok). simpl. lia.
Qed.

(** C7 on the code: the events of one batch are checked against the events
    already in the schedule, never against each other.  On an empty
    schedule a batch of two duration events with the same start, or with
    spans that overlap, is accepted and stored whole; so is a batch of two
    volume events with the same start. *)
Theorem batch_members_are_not_compared :
  let s := Scenario.emptySchedule in
  let twice := [Scenario.pulse 60 70; Scenario.pulse 60 70] in
  let crossing := [Scenario.pulse 60 70; Scenario.pulse 65 75] in
  let doses := [Scenario.dose 90; Scenario.dose 90] in
  (fst (validateAndAddDurationEvents s twice) = true
   /\ Schedule.durationEvents (snd (validateAndAddDurationEvents s twice)) = twice
   /\ durationClash (Scenario.pulse 60 70) (Scenario.pulse 60 70) = true)
  /\ (fst (validateAndAddDurationEvents s crossing) = true
      /\ Schedule.durationEvents (snd (validateAndAddDurationEvents s crossing))
         = crossing
      /\ durationClash (Scenario.pulse 65 75) (Scenario.pulse 60 70) = true)
  /\ (fst (validateAndAddVolumeEvents s doses) = true
      /\ Schedule.volumeEvents (snd (validateAndAddVolumeEvents s doses)) = doses
      /\ checkVolumeOverlap
           (snd (validateAndAddVolumeEvents s [Scenario.dose 90]))
           (Scenario.dose 90) = true).
Proof. vm_compute. repeat split; reflexivity. Qed.

(** One event at a time, the same events are refused: the second of each
    pair fails against the first once the first is in the schedule. *)
Example one_by_one_the_second_is_refused :
  let s := Scenario.emptySchedule in
  fst (validateAndAddDurationEvents
         (snd (validateAndAddDurationEvents s [Scenario.pulse 60 70]))
         [Scenario.pulse 60 70]) = false
  /\ fst (validateAndAddDurationEvents
            (snd (validateAndAddDurationEvents s [Scenario.pulse 60 70]))
            [Scenario.pulse 65 75]) = false
  /\ fst (validateAndAddVolumeEvents
            (snd (validateAndAddVolumeEvents s [Scenario.dose 90]))
            [Scenario.dose 90]) = false.
Proof. vm_compute. repeat split; reflexivity. Qed.

(** The cross check between the two kinds is one-sided as well: a duration
    event is tested with its start only, so it may be laid over a dose that
    is already scheduled, although that dose could not be added afterwards. *)
Example duration_event_may_cover_an_existing_dose :
  let dosed := Schedule.mk "Morning" 0 0 "Morning_1700000000" [] []
                 [Scenario.dose 65] in
  fst (validateAndAddDurationEvents dosed [Scenario.pulse 60 70]) = true
  /\ fst (validateAndAddVolumeEvents
            (snd (validateAndAddDurationEvents Scenario.emptySchedule
                    [Scenario.pulse 60 70]))
            [Scenario.dose 65]) = false.
Proof. vm_compute. split; reflexivity. Qed.

End ScheduleTheory.

(** * The statements at concrete inputs *)

Section Instances.

Import Scenario.

Lemma disk_has_one_lock_per_resource : oneLockPerResource disk.
Proof.
  unfold oneLockPerResource. vm_compute.
  repeat constructor; simpl; intuition discriminate.
Qed.

(** bob asks for the schedule alice is editing. *)
Lemma acquireLock_other_session_rejected_witness :
  holder "schedule_x" disk = Some aliceLock
  /\ FileLock.sessionId aliceLock <> SessionData.sessionId bob
  /\ LockManager.acquireLock "schedule_x" EDITING_SCHEDULE bob 7000 disk
     = (false, disk)
  /\ holder "schedule_x"
       (snd (LockManager.acquireLock "schedule_x" EDITING_SCHEDULE bob 7000 disk))
     = Some aliceLock.
Proof.
  split; [reflexivity|]. split; [discriminate|].
  apply (acquireLock_other_session_rejected
           "schedule_x" EDITING_SCHEDULE bob 7000 disk aliceLock);
    [reflexivity|discriminate].
Defined.

(** alice renews her lock at time 7000. *)
Lemma acquireLock_same_session_refreshes_witness :
  fst (LockManager.acquireLock "schedule_x" EDITING_SCHEDULE alice 7000 disk) = true
  /\ holder "schedule_x"
       (snd (LockManager.acquireLock "schedule_x" EDITING_SCHEDULE alice 7000 disk))
     = Some (FileLock.mk "schedule_x" EDITING_SCHEDULE "a1" "alice" 7000)
  /\ holder "schedule_y"
       (snd (LockManager.acquireLock "schedule_x" EDITING_SCHEDULE alice 7000 disk))
     = Some bobLock.
Proof.
  destruct (acquireLock_same_session_refreshes
              "schedule_x" EDITING_SCHEDULE alice 7000 disk aliceLock
              disk_has_one_lock_per_resource eq_refl eq_refl eq_refl eq_refl
              eq_refl eq_refl eq_refl)
    as (Hok & Hheld & Hothers & _).
  split; [exact Hok|]. split; [exact Hheld|].
  rewrite (Hothers "schedule_y"); [reflexivity|discriminate].
Defined.

(** C4 as it is worded, without a condition on the clock, fails while
    [millis()] reads 0: alice holds [schedule_x] and asks for it again, with
    the same kind; the call is refused and the lock file is as before. *)
Lemma acquireLock_same_session_refused_at_clock_zero :
  holder "schedule_x" disk = Some aliceLock
  /\ FileLock.sessionId aliceLock = SessionData.sessionId alice
  /\ FileLock.username aliceLock = SessionData.username alice
  /\ FileLock.lockType aliceLock = EDITING_SCHEDULE
  /\ SessionData.isValid alice = true
  /\ LockManager.acquireLock "schedule_x" EDITING_SCHEDULE alice 0 disk
     = (false, disk).
Proof. vm_compute. repeat split; reflexivity. Qed.

(** alice's cookie, presented from another address, two seconds in. *)
Lemma validateSession_failure_tears_down_witness :
  SessionManager.sessionIdOfCookie
    (SessionManager.cookieHeader strangerRequest) = "a1"%string
  /\ SessionManager.activeSessions sessionManager !! "a1"%string = Some alice
  /\ SessionManager.generateFingerprint plainDigest (Some strangerRequest)
     <> SessionData.fingerprint alice
  /\ fst (SessionManager.validateSession plainDigest (Some strangerRequest)
            2000 sessionManager disk) = None
  /\ SessionManager.activeSessions
       (fst (snd (SessionManager.validateSession plainDigest
                    (Some strangerRequest) 2000 sessionManager disk)))
     !! "a1"%string = None
  /\ SessionManager.activeSessions
       (fst (snd (SessionManager.validateSession plainDigest
                    (Some strangerRequest) 2000 sessionManager disk)))
     !! "b2"%string = Some bob
  /\ registry
       (snd (snd (SessionManager.validateSession plainDigest
                    (Some strangerRequest) 2000 sessionManager disk)))
     = [bobLock].
Proof.
  assert (Hcookie : SessionManager.sessionIdOfCookie
                      (SessionManager.cookieHeader strangerRequest) = "a1"%string)
    by (vm_compute; reflexivity).
  assert (Hstored : SessionManager.activeSessions sessionManager !! "a1"%string
                    = Some alice)
    by (vm_compute; reflexivity).
  assert (Hfp : SessionManager.generateFingerprint plainDigest (Some strangerRequest)
                <> SessionData.fingerprint alice)
    by (vm_compute; discriminate).
  split; [exact Hcookie|]. split; [exact Hstored|]. split; [exact Hfp|].
  destruct (validateSession_failure_tears_down plainDigest strangerRequest 2000
              sessionManager disk "a1" alice Hcookie
              ltac:(discriminate) Hstored (or_intror Hfp))
    as (Hnone & Hgone & Hrest & _).
  split; [exact Hnone|]. split; [exact Hgone|].
  split; [rewrite Hrest; [vm_compute; reflexivity|discriminate]|].
  vm_compute. reflexivity.
Defined.

(** A sweep at 2 000 000 ms: alice's lock (stamp 5 000) and session (last
    seen at 1 000) are past their time-outs, bob's (300 000 and 1 500 000)
    are not. *)
Lemma sweeps_remove_the_expired_only_witness :
  ~ In aliceLock
      (registry (LockManager.flash
                   (LockManager.cleanupExpiredLocks 2000000 lockManager)))
  /\ In bobLock
       (registry (LockManager.flash
                    (LockManager.cleanupExpiredLocks 2000000 lockManager)))
  /\ SessionManager.activeSessions
       (fst (SessionManager.cleanupExpiredSessions 2000000 sessionManager disk))
     !! "a1"%string = None
  /\ SessionManager.activeSessions
       (fst (SessionManager.cleanupExpiredSessions 2000000 sessionManager disk))
     !! "b2"%string = Some bob.
Proof.
  destruct (sweeps_remove_the_expired_only 2000000 lockManager sessionManager disk)
    as [Hlocks Hsessions].
  assert (Hint : LockManager.LOCK_CLEANUP_INTERVAL_MS
                 <= age 2000000 (LockManager.lastCleanupTime lockManager))
    by (vm_compute; discriminate).
  assert (Hint' : SessionManager.SESSION_CLEANUP_INTERVAL_MS
                  <= age 2000000 (SessionManager.lastCleanupTime sessionManager))
    by (vm_compute; discriminate).
  split; [|split; [|split]].
  - apply (Hlocks Hint eq_refl aliceLock); [vm_compute; auto|vm_compute; reflexivity].
  - apply (Hlocks Hint eq_refl bobLock); [vm_compute; auto|vm_compute; reflexivity].
  - apply (Hsessions Hint' "a1"%string alice); vm_compute; reflexivity.
  - apply (Hsessions Hint' "b2"%string bob); vm_compute; reflexivity.
Defined.

(** The session sweep tears a session down together with its locks: at
    1 600 000 ms alice's session is over its time-out and her lock, though
    younger than the lock time-out, leaves the file with it. *)
Example session_sweep_releases_the_locks_of_expired_sessions :
  age 1600000 (FileLock.timestamp aliceLock) < LockManager.LOCK_TIMEOUT_MS
  /\ registry (LockManager.flash
                 (LockManager.cleanupExpiredLocks 1600000 lockManager))
     = [aliceLock; bobLock]
  /\ registry (snd (SessionManager.cleanupExpiredSessions 1600000
                      sessionManager disk))
     = [bobLock].
Proof. vm_compute. repeat split; reflexivity. Qed.

(** [60,120) then [100,160) is refused; [60,120) and [120,180) are both
    accepted. *)
Lemma autopilot_window_rejected_iff_overlap_witness :
  fst (ScheduleManager.validateAndAddEvent
         (snd (ScheduleManager.validateAndAddEvent emptySchedule (window 60 120)))
         (window 100 160)) = false
  /\ fst (ScheduleManager.validateAndAddEvent emptySchedule (window 60 120)) = true
  /\ fst (ScheduleManager.validateAndAddEvent
            (snd (ScheduleManager.validateAndAddEvent emptySchedule (window 60 120)))
            (window 120 180)) = true.
Proof.
  destruct autopilot_window_rejected_iff_overlap as [Hiff Htouch].
  split.
  - apply (Hiff _ (window 100 160) eq_refl). exists (window 60 120).
    split; [simpl; auto|]. unfold windowsOverlap. simpl. lia.
  - destruct (Htouch emptySchedule (window 60 120) (window 120 180)
                eq_refl eq_refl eq_refl eq_refl) as [[H1 H2] _].
    split; assumption.
Defined.

(** 98 events take two more; 100 take none; 99 take one. *)
Lemma combined_event_limit_witness :
  (eventCount
     (snd (ScheduleManager.validateAndAddDurationEvents (scheduleWith 98)
             [pulse 300 301; pulse 310 311])) <= 100)%nat
  /\ ScheduleManager.validateAndAddDurationEvents (scheduleWith 100) [pulse 300 301]
     = (false, scheduleWith 100)
  /\ ScheduleManager.validateAndAddVolumeEvents (scheduleWith 100) [dose 400]
     = (false, scheduleWith 100)
  /\ fst (ScheduleManager.validateAndAddDurationEvents (scheduleWith 99)
            [pulse 300 301]) = true
  /\ fst (ScheduleManager.validateAndAddVolumeEvents (scheduleWith 99)
            [dose 400]) = true.
Proof.
  destruct combined_event_limit as (Honly & Hfull & Hlast).
  split; [|split; [|split; [|split]]].
  - apply (Honly (scheduleWith 98) [pulse 300 301; pulse 310 311] []);
      [vm_compute; reflexivity|vm_compute; reflexivity|vm_compute; reflexivity].
  - apply (Hfull (scheduleWith 100) (pulse 300 301) (dose 400)).
    vm_compute; reflexivity.
  - apply (Hfull (scheduleWith 100) (pulse 300 301) (dose 400)).
    vm_compute; reflexivity.
  - apply (Hlast (scheduleWith 99) (pulse 300 301) (dose 400));
      vm_compute; reflexivity.
  - apply (Hlast (scheduleWith 99) (pulse 300 301) (dose 400));
      vm_compute; reflexivity.
Defined.

(** A lock file holding text that is not JSON. *)
Lemma isLocked_false_when_file_unusable_witness :
  LockManager.isLocked "schedule_x"
    (LockManager.mkFlash LockManager.Malformed []) = (false, None)
  /\ LockManager.getLockInfo "schedule_x"
       (LockManager.mkFlash LockManager.Malformed []) = (false, None).
Proof.
  apply (isLocked_false_when_file_unusable "schedule_x"
           (LockManager.mkFlash LockManager.Malformed [])).
  right. left. reflexivity.
Defined.

End Instances.

(** * Lock registry: the other operations *)

Section LockOperations.

Import LockManager.

Lemma filter_partition_length {A} (p : A -> bool) (l : list A) :
  (List.length (List.filter p l)
   + List.length (List.filter (fun x => negb (p x)) l))%nat = List.length l.
Proof.
  induction l as [|x l IH]; simpl; [reflexivity|].
  destruct (p x); simpl; lia.
Qed.

Lemma holder_loaded R fl locks :
  loadAllLocks fl = Some locks -> holder R fl = firstFor R locks.
Proof.
  intros H. unfold holder, getLockInfo, isLocked. rewrite H.
  destruct (firstFor R locks); reflexivity.
Qed.

Lemma save_returns_true locks fl :
  fst (saveAllLocks locks fl) = true -> nextWriteSucceeds fl.
Proof.
  unfold saveAllLocks, nextWriteSucceeds.
  destruct (writes fl) as [|[] ws]; simpl; congruence.
Qed.

(** X1. Every operation that rewrites the lock file keeps the registry at
    one lock per resource at most, whatever the disk does. *)
Theorem lock_mutators_keep_one_lock_per_resource (fl : Flash) :
  oneLockPerResource fl ->
  (forall R kind A now, oneLockPerResource (snd (acquireLock R kind A now fl)))
  /\ (forall R sid, oneLockPerResource (snd (releaseLock R sid fl)))
  /\ (forall sid, oneLockPerResource (snd (releaseLocksForSession sid fl)))
  /\ (forall now last,
        oneLockPerResource (flash (cleanupExpiredLocks now (mk fl last)))).
Proof.
  intros Hinv. repeat split; intros.
  - apply acquireLock_keeps_invariant; exact Hinv.
  - apply releaseLock_keeps_invariant; exact Hinv.
  - apply releaseLocksForSession_keeps_invariant; exact Hinv.
  - apply cleanupExpiredLocks_keeps_invariant; exact Hinv.
Qed.

(** X2. With a readable file, a named resource, a valid session, a proper
    kind, a non-zero clock and a working disk, [acquireLock] succeeds exactly
    when the lock reported for the resource, if there is one, carries the
    caller's token. *)
Theorem acquireLock_succeeds_iff_not_held_by_another
    (R : string) (kind : LockType) (A : SessionData.t) (now : Z) (fl : Flash) :
  loadAllLocks fl <> None ->
  R <> EmptyString ->
  SessionData.isValid A = true ->
  kind <> LOCKTYPE_INVALID ->
  0 < now ->
  nextWriteSucceeds fl ->
  (fst (acquireLock R kind A now fl) = true <->
   forall l, holder R fl = Some l ->
             FileLock.sessionId l = SessionData.sessionId A).
Proof.
  intros Hread HR HA Hkind Hnow Hw.
  destruct (loadAllLocks fl) as [locks|] eqn:Hload; [clear Hread|congruence].
  rewrite (holder_loaded R fl locks Hload).
  assert (HAf : SessionData.isValid A = true) by exact HA.
  unfold SessionData.isValid in HA.
  rewrite !andb_true_iff, !negb_true_iff in HA.
  destruct HA as [[[[Hsid _] _] _] _].
  unfold acquireLock. rewrite (proj2 (isEmpty_false R) HR), HAf. cbn [orb negb].
  rewrite Hload.
  assert (Hnv : FileLock.isValid
                  (FileLock.mk R kind (SessionData.sessionId A)
                     (SessionData.username A) now) = true).
  { unfold FileLock.isValid. simpl.
    rewrite (proj2 (isEmpty_false R) HR), Hsid. apply Z.ltb_lt in Hnow.
    rewrite Hnow. destruct kind; simpl; congruence. }
  destruct (firstFor R locks) as [held|] eqn:F.
  - destruct (String.eqb (FileLock.sessionId held) (SessionData.sessionId A)) eqn:E.
    + apply String.eqb_eq in E. rewrite (scan_same _ _ _ _ _ F E), Hnv.
      cbn [negb]. split.
      * intros _ l Hl. inversion Hl. subst. exact E.
      * intros _. apply save_then_load. exact Hw.
    + apply String.eqb_neq in E. rewrite (scan_conflict _ _ _ _ _ F E).
      split; [discriminate|]. intros H. exfalso. apply E. apply H. reflexivity.
  - rewrite (scan_free _ _ _ _ F), Hnv. cbn [negb]. split.
    + intros _ l Hl. discriminate.
    + intros _. apply save_then_load. exact Hw.
Qed.

(** X3. What a successful [acquireLock] leaves, in a registry with one lock
    per resource: the caller holds the resource with the kind asked for and
    the clock's stamp; every other resource reports the lock it reported
    before; and the lock set is the old one without the resource's previous
    entry, plus the new lock. *)
Theorem acquireLock_success_effect
    (R : string) (kind : LockType) (A : SessionData.t) (now : Z) (fl : Flash) :
  oneLockPerResource fl ->
  fst (acquireLock R kind A now fl) = true ->
  let granted := FileLock.mk R kind (SessionData.sessionId A)
                   (SessionData.username A) now in
  holder R (snd (acquireLock R kind A now fl)) = Some granted
  /\ (forall R', R' <> R ->
        holder R' (snd (acquireLock R kind A now fl)) = holder R' fl)
  /\ (forall l, In l (registry (snd (acquireLock R kind A now fl))) <->
        (In l (registry fl) /\ FileLock.resourceId l <> R) \/ l = granted).
Proof.
  intros Hinv Hok granted.
  split; [exact (proj2 (acquireLock_success_holder R kind A now fl Hinv Hok))|].
  revert Hok. unfold acquireLock.
  destruct (WString.isEmpty R || negb (SessionData.isValid A)); [discriminate|].
  destruct (loadAllLocks fl) as [locks|] eqn:Hload; [|discriminate].
  destruct (scanForHolder R (SessionData.sessionId A) locks locks)
    as [res|] eqn:Hscan; [|discriminate].
  fold granted.
  destruct (FileLock.isValid granted) eqn:Hnv; [|discriminate]. cbn [negb].
  intros Hok. pose proof (save_returns_true _ _ Hok) as Hw.
  destruct (save_then_load (res ++ [granted]) fl Hw) as [_ Hload'].
  unfold oneLockPerResource in Hinv. rewrite (registry_loaded _ _ Hload) in Hinv.
  destruct (scan_leaves_no_entry _ _ _ _ Hinv Hscan) as (_ & Hnotin & Hsub).
  assert (Hall : List.filter FileLock.isValid (res ++ [granted]) = res ++ [granted]).
  { apply filter_all. intros x Hx. apply in_app_or in Hx.
    destruct Hx as [Hx|[<-|[]]]; [|exact Hnv].
    apply (loaded_valid _ _ _ Hload). auto. }
  rewrite Hall in Hload'.
  (* [res] is the old set without the entries for [R] *)
  assert (Hres : forall x, In x res <-> In x locks /\ FileLock.resourceId x <> R).
  { intros x. split.
    - intros Hx. split; [auto|]. intros E. apply Hnotin. rewrite <- E.
      apply in_map. exact Hx.
    - intros [Hx Hne].
      destruct (scan_result _ _ _ _ Hscan) as [[_ ->]|(held & _ & _ & ->)];
        [exact Hx|].
      apply filter_In. split; [exact Hx|]. apply negb_true_iff. unfold heldBy.
      apply andb_false_iff. left. apply String.eqb_neq. exact Hne. }
  split.
  - intros R' HR'. rewrite (holder_loaded R' _ _ Hload'), (holder_loaded R' _ _ Hload).
    rewrite firstFor_app.
    assert (Hsame : firstFor R' res = firstFor R' locks).
    { destruct (scan_result _ _ _ _ Hscan) as [[_ ->]|(held & _ & _ & ->)];
        [reflexivity|].
      apply firstFor_filter. intros l _ Hr. apply negb_true_iff. unfold heldBy.
      apply andb_false_iff. left. apply String.eqb_neq. congruence. }
    rewrite Hsame. destruct (firstFor R' locks); [reflexivity|]. simpl.
    apply String.eqb_neq in HR'. rewrite String.eqb_sym, HR'. reflexivity.
  - intros l. rewrite (registry_loaded _ _ Hload'), (registry_loaded _ _ Hload).
    rewrite in_app_iff, Hres. simpl. intuition.
Qed.

(** A lock stamped 0 (or less) does not count as valid, so nothing is
    acquired while the clock reads 0. *)
Lemma acquireLock_needs_a_stamp R kind A now fl :
  now <= 0 -> acquireLock R kind A now fl = (false, fl).
Proof.
  intros Hnow. unfold acquireLock.
  destruct (WString.isEmpty R || negb (SessionData.isValid A)); [reflexivity|].
  destruct (loadAllLocks fl) as [locks|]; [|reflexivity].
  destruct (scanForHolder _ _ _ _) as [res|]; [|reflexivity].
  assert (E : FileLock.isValid
                (FileLock.mk R kind (SessionData.sessionId A)
                   (SessionData.username A) now) = false).
  { unfold FileLock.isValid. cbn [FileLock.timestamp].
    rewrite (proj2 (Z.ltb_ge 0 now) Hnow). apply andb_false_r. }
  rewrite E. reflexivity.
Qed.

(** X4. [acquireLock] twice in a row by the same session, for the same
    resource and kind, the first call succeeding and the disk working
    afterwards.  The second call succeeds exactly when the clock does not
    read 0 at that moment; the lock then differs from the first by its stamp
    only.  When the clock reads 0 the second call is refused and the first
    lock stays as it is. *)
Theorem acquireLock_is_idempotent_up_to_the_stamp
    (R : string) (kind : LockType) (A : SessionData.t) (t1 t2 : Z) (fl : Flash) :
  oneLockPerResource fl ->
  fst (acquireLock R kind A t1 fl) = true ->
  nextWriteSucceeds (snd (acquireLock R kind A t1 fl)) ->
  let first := snd (acquireLock R kind A t1 fl) in
  let lock stamp :=
    FileLock.mk R kind (SessionData.sessionId A) (SessionData.username A) stamp in
  fst (acquireLock R kind A t2 first) = (0 <? t2)
  /\ holder R first = Some (lock t1)
  /\ holder R (snd (acquireLock R kind A t2 first))
     = Some (lock (if 0 <? t2 then t2 else t1)).
Proof.
  intros Hinv Hok1 Hw first lock.
  assert (H1 : holder R first = Some (lock t1))
    by exact (proj2 (acquireLock_success_holder R kind A t1 fl Hinv Hok1)).
  destruct (Z.ltb_spec 0 t2) as [Ht2|Ht2].
  - destruct (acquireLock_twice R kind A t1 t2 fl Hinv Hok1 Hw Ht2) as [Hok2 Hh2].
    split; [exact Hok2|]. split; [exact H1|exact Hh2].
  - unfold first. rewrite (acquireLock_needs_a_stamp R kind A t2 _ Ht2).
    split; [reflexivity|]. split; exact H1.
Qed.

(** X5. A refused [acquireLock] leaves the lock file as it was (the disk
    working); and while the clock reads 0 every [acquireLock] is refused,
    because a lock stamped 0 does not count as valid. *)
Theorem acquireLock_refusal_changes_nothing :
  (forall R kind A now fl,
     nextWriteSucceeds fl ->
     fst (acquireLock R kind A now fl) = false ->
     snd (acquireLock R kind A now fl) = fl)
  /\ (forall R kind A fl, acquireLock R kind A 0 fl = (false, fl)).
Proof.
  split.
  - intros R kind A now fl Hw. unfold acquireLock.
    destruct (WString.isEmpty R || negb (SessionData.isValid A)); [reflexivity|].
    destruct (loadAllLocks fl) as [locks|]; [|reflexivity].
    destruct (scanForHolder _ _ _ _) as [res|]; [|reflexivity].
    destruct (negb (FileLock.isValid _)); [reflexivity|].
    intros Hno. exfalso.
    destruct (save_then_load
                (res ++ [FileLock.mk R kind (SessionData.sessionId A)
                           (SessionData.username A) now]) fl Hw) as [Hyes _].
    congruence.
  - intros R kind A fl. unfold acquireLock.
    destruct (WString.isEmpty R || negb (SessionData.isValid A)); [reflexivity|].
    destruct (loadAllLocks fl) as [locks|]; [|reflexivity].
    destruct (scanForHolder _ _ _ _) as [res|]; [|reflexivity].
    assert (E : FileLock.isValid
                  (FileLock.mk R kind (SessionData.sessionId A)
                     (SessionData.username A) 0) = false).
    { unfold FileLock.isValid. simpl. apply andb_false_r. }
    rewrite E. reflexivity.
Qed.

(** X6. [releaseLock] on a readable file with a working disk returns [true]
    exactly when the registry holds a lock for that resource and that token;
    afterwards the registry is the old one without such locks, so a lock
    held under another token stays; and when it returns [false] the file is
    untouched. *)
Theorem releaseLock_removes_the_callers_lock_only
    (R sid : string) (fl : Flash) (locks : list FileLock.t) :
  loadAllLocks fl = Some locks ->
  R <> EmptyString -> sid <> EmptyString ->
  nextWriteSucceeds fl ->
  (fst (releaseLock R sid fl) = true <->
   exists l, In l locks /\ FileLock.resourceId l = R /\ FileLock.sessionId l = sid)
  /\ registry (snd (releaseLock R sid fl)) = eraseIf (heldBy R sid) locks
  /\ (forall l, In l locks -> FileLock.sessionId l <> sid ->
        In l (registry (snd (releaseLock R sid fl))))
  /\ (fst (releaseLock R sid fl) = false -> snd (releaseLock R sid fl) = fl).
Proof.
  intros Hload HR Hsid Hw. unfold releaseLock.
  rewrite (proj2 (isEmpty_false R) HR), (proj2 (isEmpty_false sid) Hsid).
  cbn [orb]. rewrite Hload.
  pose proof (filter_partition_length (heldBy R sid) locks) as Hlen.
  assert (Hvalid : List.filter FileLock.isValid (eraseIf (heldBy R sid) locks)
                   = eraseIf (heldBy R sid) locks).
  { apply filter_all. intros x Hx. apply filter_In in Hx.
    apply (loaded_valid _ _ _ Hload). tauto. }
  destruct (save_then_load (eraseIf (heldBy R sid) locks) fl Hw) as [Hok Hload'].
  rewrite Hvalid in Hload'. unfold eraseIf in *.
  assert (Hex : (exists l, In l locks /\ FileLock.resourceId l = R
                           /\ FileLock.sessionId l = sid)
                <-> List.filter (heldBy R sid) locks <> []).
  { split.
    - intros (l & Hin & Hr & Hs) E.
      assert (Hl : In l (List.filter (heldBy R sid) locks)).
      { apply filter_In. split; [exact Hin|]. unfold heldBy.
        rewrite Hr, Hs, !String.eqb_refl. reflexivity. }
      rewrite E in Hl. destruct Hl.
    - destruct (List.filter (heldBy R sid) locks) as [|l rest] eqn:E;
        [congruence|]. intros _.
      assert (Hl : In l (List.filter (heldBy R sid) locks))
        by (rewrite E; left; reflexivity).
      apply filter_In in Hl. destruct Hl as [Hin Hp]. unfold heldBy in Hp.
      apply andb_true_iff in Hp. rewrite !String.eqb_eq in Hp.
      exists l. tauto. }
  destruct (_ <? _)%nat eqn:Hlt.
  - apply Nat.ltb_lt in Hlt. split; [|split; [|split]].
    + split; [intros _|intros _; exact Hok]. apply Hex. intros E.
      rewrite E in Hlen. simpl in Hlen. lia.
    + apply registry_loaded. exact Hload'.
    + intros l Hin Hne. rewrite (registry_loaded _ _ Hload').
      apply filter_In. split; [exact Hin|]. apply negb_true_iff. unfold heldBy.
      apply andb_false_iff. right. apply String.eqb_neq. exact Hne.
    + rewrite Hok. discriminate.
  - apply Nat.ltb_ge in Hlt. cbn [fst snd].
    assert (Hnone : List.filter (heldBy R sid) locks = []).
    { destruct (List.filter (heldBy R sid) locks); [reflexivity|].
      simpl in Hlen. lia. }
    assert (Hsame : List.filter (fun x => negb (heldBy R sid x)) locks = locks).
    { apply filter_same_length. rewrite Hnone in Hlen. simpl in Hlen. lia. }
    split; [|split; [|split]].
    + split; [discriminate|]. intros H. apply Hex in H. congruence.
    + rewrite Hsame. apply registry_loaded. exact Hload.
    + intros l Hin _. rewrite (registry_loaded _ _ Hload). exact Hin.
    + reflexivity.
Qed.

(** X7. [releaseLocksForSession] on a readable file with a working disk
    returns the number of locks the token holds and leaves exactly the locks
    of the other tokens, in their order. *)
Theorem releaseLocksForSession_removes_exactly_the_tokens_locks
    (sid : string) (fl : Flash) (locks : list FileLock.t) :
  loadAllLocks fl = Some locks ->
  sid <> EmptyString ->
  nextWriteSucceeds fl ->
  fst (releaseLocksForSession sid fl)
  = List.length
      (List.filter (fun l => String.eqb (FileLock.sessionId l) sid) locks)
  /\ registry (snd (releaseLocksForSession sid fl))
     = List.filter (fun l => negb (String.eqb (FileLock.sessionId l) sid)) locks.
Proof.
  intros Hload Hsid Hw. split.
  - unfold releaseLocksForSession.
    rewrite (proj2 (isEmpty_false sid) Hsid), Hload.
    pose proof (filter_partition_length
                  (fun l => String.eqb (FileLock.sessionId l) sid) locks) as Hlen.
    unfold eraseIf. destruct (0 <? _)%nat; cbn [fst]; lia.
  - apply registry_loaded.
    apply (releaseLocksForSession_registry sid fl locks); auto.
    apply isEmpty_false. exact Hsid.
Qed.

(** X8. The expiry tests are safe against the 32-bit clock wrapping: for a
    stamp taken [d] ms ago ([d] below 2^32), whatever the clock now shows,
    a lock or session is expired exactly when [d] exceeds its time-out. *)
Theorem expiry_survives_clock_wrap (stamp d : Z) :
  0 <= stamp < 2 ^ 32 ->
  0 <= d < 2 ^ 32 ->
  age (u32 (stamp + d)) stamp = d
  /\ (forall l, FileLock.timestamp l = stamp ->
        expired (u32 (stamp + d)) l = (LOCK_TIMEOUT_MS <? d))
  /\ (forall s, SessionData.lastHeartbeat s = stamp ->
        SessionManager.expired (u32 (stamp + d)) s
        = (SessionManager.SESSION_TIMEOUT_MS <? d)).
Proof.
  intros Hs Hd.
  assert (Hage : age (u32 (stamp + d)) stamp = d).
  { unfold age, u32. rewrite Zminus_mod_idemp_l.
    replace (stamp + d - stamp) with d by lia. apply Z.mod_small. lia. }
  split; [exact Hage|]. unfold age in Hage. split.
  - intros l Hl. unfold expired. rewrite Hl, Hage. reflexivity.
  - intros s Hl. unfold SessionManager.expired. rewrite Hl, Hage. reflexivity.
Qed.

End LockOperations.

(** * Session registry: the other operations *)

Section SessionOperations.

Import SessionManager.

Lemma string_length_app (a b : string) :
  String.length (a ++ b) = (String.length a + String.length b)%nat.
Proof. induction a as [|c a IH]; simpl; [reflexivity|]. rewrite IH. reflexivity. Qed.

Lemma plain_app a b : plain (a ++ b) = plain a && plain b.
Proof.
  induction a as [|c a IH]; simpl; [reflexivity|].
  rewrite IH. apply andb_assoc.
Qed.

Lemma byteToHex_plain b : plain (AuthUtils.byteToHex b) = true.
Proof. destruct b; vm_compute; reflexivity. Qed.

Lemma bytesToHex_plain bs : plain (AuthUtils.bytesToHex bs) = true.
Proof.
  induction bs as [|b bs IH]; cbn [AuthUtils.bytesToHex]; [reflexivity|].
  rewrite plain_app, byteToHex_plain, IH. reflexivity.
Qed.

Lemma bytesToHex_length bs :
  String.length (AuthUtils.bytesToHex bs) = (2 * List.length bs)%nat.
Proof.
  induction bs as [|b bs IH]; cbn [AuthUtils.bytesToHex]; [reflexivity|].
  rewrite string_length_app, IH. simpl. lia.
Qed.

Lemma trimLeft_plain v : plain v = true -> WString.trimLeft v = v.
Proof.
  destruct v as [|c v]; simpl; [reflexivity|]. unfold plainChar.
  destruct (WString.isspace c); simpl; [discriminate|reflexivity].
Qed.

Lemma trimRight_plain v : plain v = true -> WString.trimRight v = v.
Proof.
  induction v as [|c v IH]; simpl; [reflexivity|].
  intros H. apply andb_true_iff in H. destruct H as [Hc Hv].
  rewrite (IH Hv). unfold plainChar in Hc.
  destruct (WString.isspace c); simpl in Hc; [discriminate|].
  destruct v; reflexivity.
Qed.

Lemma findChar_plain v rest pos :
  plain v = true ->
  WString.findChar ";" (v ++ rest) pos
  = WString.findChar ";" rest (pos + String.length v).
Proof.
  revert pos. induction v as [|c v IH]; intros pos H.
  - change (EmptyString ++ rest)%string with rest. simpl. f_equal. lia.
  - change (String c v ++ rest)%string with (String c (v ++ rest)).
    cbn [WString.findChar plain String.length] in *.
    apply andb_true_iff in H. destruct H as [Hc Hv]. unfold plainChar in Hc.
    destruct (Ascii.eqb ";" c); [rewrite andb_false_r in Hc; discriminate|].
    rewrite (IH (S pos) Hv). f_equal. lia.
Qed.

Lemma substring_prefix_of_app v rest :
  String.substring 0 (String.length v) (v ++ rest) = v.
Proof. induction v as [|c v IH]; simpl; [destruct rest|rewrite IH]; reflexivity. Qed.

(** A value without white space or semicolon, sent as the first cookie, is
    read back as it is, whether or not other cookies follow. *)
Lemma sessionIdOfCookie_first v rest :
  plain v = true -> v <> EmptyString ->
  rest = EmptyString \/ (exists r, rest = String ";" r) ->
  sessionIdOfCookie (Some ("session_id=" ++ v ++ rest)%string) = v.
Proof.
  intros Hv Hne Hrest. unfold sessionIdOfCookie.
  assert (Hidx : WString.indexOf ("session_id=" ++ v ++ rest) "session_id=" = 0).
  { unfold WString.indexOf. destruct v; [congruence|]. reflexivity. }
  rewrite Hidx.
  change (0 =? -1) with false.
  change (0 + Z.of_nat (String.length "session_id=")) with 11.
  cbv iota.
  assert (Hlen : String.length ("session_id=" ++ v ++ rest)
                 = (11 + String.length v + String.length rest)%nat).
  { rewrite !string_length_app. simpl. lia. }
  assert (Hv0 : (0 < String.length v)%nat) by (destruct v; simpl; [congruence|lia]).
  assert (Hsub : forall k, String.substring 11 k ("session_id=" ++ v ++ rest)
                           = String.substring 0 k (v ++ rest)) by reflexivity.
  assert (Hfind : WString.indexOfFrom ("session_id=" ++ v ++ rest) ";" 11
                  = match WString.findChar ";" rest (11 + String.length v) with
                    | Some i => Z.of_nat i
                    | None => -1
                    end).
  { unfold WString.indexOfFrom. rewrite Hlen.
    destruct (Z.leb_spec (Z.of_nat (11 + String.length v + String.length rest)) 11);
      [lia|].
    change (Z.to_nat 11) with 11%nat.
    change (WString.drop 11 ("session_id=" ++ v ++ rest)) with (v ++ rest)%string.
    rewrite (findChar_plain v rest 11 Hv). reflexivity. }
  rewrite Hfind. clear Hfind.
  assert (Htrim : WString.trim v = v).
  { unfold WString.trim. rewrite (trimLeft_plain v Hv). apply trimRight_plain, Hv. }
  destruct Hrest as [->|[r ->]].
  - cbn [WString.findChar]. change (-1 =? -1) with true. cbv iota.
    unfold WString.substringFrom, WString.substring. rewrite Hlen.
    cbn [String.length]. rewrite Nat.add_0_r.
    destruct (Z.ltb_spec (Z.of_nat (11 + String.length v)) 11); [lia|].
    destruct (Z.leb_spec (Z.of_nat (11 + String.length v)) 11); [lia|].
    rewrite Z.ltb_irrefl.
    replace (Z.to_nat (Z.of_nat (11 + String.length v) - 11))
      with (String.length v) by lia.
    change (Z.to_nat 11) with 11%nat. rewrite Hsub, substring_prefix_of_app.
    exact Htrim.
  - cbn [WString.findChar]. rewrite Ascii.eqb_refl.
    assert (E : (Z.of_nat (11 + String.length v) =? -1) = false)
      by (apply Z.eqb_neq; lia).
    rewrite E. unfold WString.substring. rewrite Hlen.
    destruct (Z.ltb_spec (Z.of_nat (11 + String.length v)) 11); [lia|].
    destruct (Z.leb_spec
                (Z.of_nat (11 + String.length v + String.length (String ";" r))) 11);
      [lia|].
    destruct (Z.ltb_spec
                (Z.of_nat (11 + String.length v + String.length (String ";" r)))
                (Z.of_nat (11 + String.length v))); [lia|].
    replace (Z.to_nat (Z.of_nat (11 + String.length v) - 11))
      with (String.length v) by lia.
    change (Z.to_nat 11) with 11%nat. rewrite Hsub, substring_prefix_of_app.
    exact Htrim.
Qed.

(** Lock release through a disk that keeps working: it only drops entries,
    and the disk keeps working. *)
Lemma release_on_working_disk sid fl :
  LockManager.writes fl = [] ->
  LockManager.writes (snd (LockManager.releaseLocksForSession sid fl)) = []
  /\ forall l, In l (registry (snd (LockManager.releaseLocksForSession sid fl))) ->
               In l (registry fl).
Proof.
  intros Hw. unfold LockManager.releaseLocksForSession.
  destruct (WString.isEmpty sid); [auto|].
  destruct (LockManager.loadAllLocks fl) as [locks|] eqn:Hload; [|auto].
  destruct (0 <? _)%nat; [|auto]. unfold LockManager.saveAllLocks. rewrite Hw.
  cbn [snd LockManager.writes]. split; [reflexivity|].
  intros l. unfold registry at 1. unfold LockManager.loadAllLocks.
  cbn [LockManager.lockFile]. rewrite filter_idem.
  rewrite (registry_loaded _ _ Hload). intros Hin.
  apply filter_In in Hin. destruct Hin as [Hin _].
  apply filter_In in Hin. tauto.
Qed.

Lemma removeSessionInternal_on_working_disk id st fl :
  LockManager.writes fl = [] ->
  LockManager.writes (snd (removeSessionInternal id st fl)) = []
  /\ forall l, In l (registry (snd (removeSessionInternal id st fl))) ->
               In l (registry fl).
Proof.
  intros Hw. unfold removeSessionInternal.
  destruct (activeSessions st !! id); cbn [snd]; [|auto].
  apply release_on_working_disk. exact Hw.
Qed.

Lemma removeAll_on_working_disk ids : forall st fl,
  LockManager.writes fl = [] ->
  LockManager.writes (snd (removeAll ids st fl)) = []
  /\ forall l, In l (registry (snd (removeAll ids st fl))) -> In l (registry fl).
Proof.
  unfold removeAll. induction ids as [|id ids IH]; intros st fl Hw.
  - cbn. auto.
  - cbn [List.fold_left fst snd].
    destruct (removeSessionInternal_on_working_disk id st fl Hw) as [Hw1 Hsub1].
    destruct (removeSessionInternal id st fl) as [st1 fl1]. cbn [snd] in *.
    destruct (IH st1 fl1 Hw1) as [Hw2 Hsub2]. split; [exact Hw2|].
    intros l Hl. auto.
Qed.

Lemma removeAll_releases ids : forall st fl sid s,
  LockManager.writes fl = [] ->
  sid <> EmptyString ->
  In sid ids ->
  activeSessions st !! sid = Some s ->
  forall l, In l (registry (snd (removeAll ids st fl))) ->
            FileLock.sessionId l <> sid.
Proof.
  induction ids as [|id ids IH]; intros st fl sid s Hw Hne Hin Hlook l;
    [destruct Hin|].
  unfold removeAll. cbn [List.fold_left fst snd].
  destruct (removeSessionInternal_on_working_disk id st fl Hw) as [Hw1 _].
  pose proof (removeSessionInternal_lookup id st fl sid) as Hl1.
  destruct (String.string_dec id sid) as [->|Hdiff].
  - pose proof (removeSessionInternal_locks sid st fl s Hlook) as Hfl.
    destruct (removeSessionInternal sid st fl) as [st1 fl1]. cbn [fst snd] in *.
    intros Hl. apply (removeAll_on_working_disk ids st1 fl1 Hw1) in Hl.
    subst fl1. revert Hl. apply releaseLocksForSession_none_left.
    + apply isEmpty_false. exact Hne.
    + unfold nextWriteSucceeds. rewrite Hw. reflexivity.
  - destruct Hin as [E|Hin]; [congruence|].
    destruct (removeSessionInternal id st fl) as [st1 fl1]. cbn [fst snd] in *.
    apply (IH st1 fl1 sid s); auto.
    rewrite Hl1. destruct (decide (sid = id)); [congruence|exact Hlook].
Qed.

Variable sha256hex : string -> string.

(** X9. [validateSession] hands out a session exactly when the cookie names
    a stored session whose age is at most the time-out (an age equal to the
    time-out still passes) and whose fingerprint is the request's; the
    session it hands out is the stored one with its heartbeat set to the
    clock, stored back under the same key, and neither the lock file nor any
    other session is touched.  A request without a stored session gets none
    and changes nothing. *)
Theorem validateSession_accepts_exactly_the_live_session
    (req : Request) (now : Z) (st : t) (fl : LockManager.Flash) :
  let sid := sessionIdOfCookie (cookieHeader req) in
  let out := validateSession sha256hex (Some req) now st fl in
  (forall s', fst out = Some s' <->
     exists s, sid <> EmptyString
               /\ activeSessions st !! sid = Some s
               /\ age now (SessionData.lastHeartbeat s) <= SESSION_TIMEOUT_MS
               /\ SessionData.fingerprint s
                  = generateFingerprint sha256hex (Some req)
               /\ s' = SessionData.mk (SessionData.sessionId s)
                         (SessionData.username s) (SessionData.userRole s)
                         (SessionData.creationTime s) now
                         (SessionData.fingerprint s))
  /\ (forall s', fst out = Some s' ->
        snd out = (mk (<[sid := s']> (activeSessions st)) (lastCleanupTime st), fl))
  /\ (sid = EmptyString \/ activeSessions st !! sid = None ->
      out = (None, (st, fl)))
  /\ validateSession sha256hex None now st fl = (None, (st, fl)).
Proof.
  intros sid out. unfold out, validateSession. fold sid.
  destruct (WString.isEmpty sid) eqn:Hempty.
  { assert (sid = EmptyString) by (destruct sid; [reflexivity|discriminate]).
    repeat split; try discriminate; auto.
    intros (s & Hne & _). congruence. }
  assert (Hne : sid <> EmptyString) by (apply isEmpty_false; exact Hempty).
  destruct (activeSessions st !! sid) as [s|] eqn:Hlook.
  2:{ repeat split; try discriminate; auto.
      intros (s & _ & Hs & _). discriminate. }
  unfold expired, age.
  destruct (Z.ltb_spec SESSION_TIMEOUT_MS (u32 (now - SessionData.lastHeartbeat s)))
    as [Hold|Hyoung].
  { repeat split; try discriminate.
    - intros (s0 & _ & Hs & Hage & _). inversion Hs. subst s0. lia.
    - intros [H|H]; congruence. }
  destruct (String.eqb (SessionData.fingerprint s)
              (generateFingerprint sha256hex (Some req))) eqn:Hfp; cbn [negb].
  - apply String.eqb_eq in Hfp. cbn [fst snd]. split; [|split; [|split]].
    + intros s'. split.
      * intros H. inversion H. exists s. repeat split; auto.
      * intros (s0 & _ & Hs & _ & _ & ->). inversion Hs. reflexivity.
    + intros s' H. inversion H. reflexivity.
    + intros [H|H]; congruence.
    + reflexivity.
  - apply String.eqb_neq in Hfp. cbn [fst snd]. split; [|split; [|split]].
    + intros s'. split; [discriminate|].
      intros (s0 & _ & Hs & _ & Hf & _). inversion Hs. subst s0. congruence.
    + discriminate.
    + intros [H|H]; congruence.
    + reflexivity.
Qed.

(** X10. [invalidateSession] returns [true] exactly for a non-empty id that
    is stored; the session is then gone, the others stay, and once the lock
    file is rewritten none of its locks is left; repeating the call returns
    [false] and changes nothing. *)
Theorem invalidateSession_once_and_again
    (sid : string) (st : t) (fl : LockManager.Flash) :
  let out := invalidateSession sid st fl in
  (fst out = true <->
   sid <> EmptyString /\ exists s, activeSessions st !! sid = Some s)
  /\ (sid <> EmptyString -> activeSessions (fst (snd out)) !! sid = None)
  /\ (forall k, k <> sid ->
        activeSessions (fst (snd out)) !! k = activeSessions st !! k)
  /\ (fst out = true -> nextWriteSucceeds fl ->
      forall l, In l (registry (snd (snd out))) -> FileLock.sessionId l <> sid)
  /\ (fst out = false -> snd out = (st, fl))
  /\ (sid <> EmptyString ->
      invalidateSession sid (fst (snd out)) (snd (snd out)) = (false, snd out)).
Proof.
  intros out. unfold out, invalidateSession.
  destruct (WString.isEmpty sid) eqn:Hempty.
  { assert (sid = EmptyString) by (destruct sid; [reflexivity|discriminate]).
    cbn [fst snd]. repeat split; try discriminate; try congruence.
    intros [H' _]. congruence. }
  assert (Hne : sid <> EmptyString) by (apply isEmpty_false; exact Hempty).
  destruct (activeSessions st !! sid) as [s|] eqn:Hlook; cbn [fst snd].
  - assert (Hgone : activeSessions (fst (removeSessionInternal sid st fl)) !! sid
                    = None).
    { rewrite removeSessionInternal_lookup.
      destruct (decide (sid = sid)); [reflexivity|congruence]. }
    repeat split; auto; try discriminate.
    + eauto.
    + intros k Hk. rewrite removeSessionInternal_lookup.
      destruct (decide (k = sid)); [congruence|reflexivity].
    + intros _ Hw l. rewrite (removeSessionInternal_locks sid st fl s Hlook).
      apply releaseLocksForSession_none_left; assumption.
    + intros _. rewrite Hgone. destruct (removeSessionInternal sid st fl).
      reflexivity.
  - repeat split; auto; try discriminate.
    + intros [_ [s Hs]]. discriminate.
    + intros _. rewrite Hlook. reflexivity.
Qed.

(** X11. [createSession] stores a session exactly when the generated id and
    the user name are non-empty, the role is known and the clock is not 0;
    the stored session carries the fingerprint of the request and the clock
    as creation time and heartbeat.  Otherwise it returns the invalid
    session and the registry is as before. *)
Theorem createSession_stores_iff_the_data_is_valid
    (newId username : string) (role : UserRole) (request : option Request)
    (now : Z) (st : t) :
  let out := createSession sha256hex newId username role request now st in
  let session := SessionData.mk newId username role now now
                   (generateFingerprint sha256hex request) in
  (SessionData.isValid (fst out) = true <->
   newId <> EmptyString /\ username <> EmptyString /\ role <> UNKNOWN /\ 0 < now)
  /\ (SessionData.isValid (fst out) = true ->
      fst out = session
      /\ activeSessions (snd out) = <[newId := session]> (activeSessions st)
      /\ lastCleanupTime (snd out) = lastCleanupTime st)
  /\ (SessionData.isValid (fst out) = false ->
      out = (SessionData.empty, st)).
Proof.
  intros out session. unfold out, createSession. fold session.
  assert (Hv : SessionData.isValid session = true <->
               newId <> EmptyString /\ username <> EmptyString
               /\ role <> UNKNOWN /\ 0 < now).
  { unfold SessionData.isValid, session. cbn [SessionData.sessionId
      SessionData.username SessionData.userRole SessionData.creationTime
      SessionData.lastHeartbeat].
    rewrite !andb_true_iff, !negb_true_iff, !isEmpty_false, Z.ltb_lt.
    assert (UserRole_eqb role UNKNOWN = false <-> role <> UNKNOWN)
      by (destruct role; simpl; split; congruence).
    tauto. }
  destruct (WString.isEmpty newId) eqn:Hid.
  { assert (newId = EmptyString) by (destruct newId; [reflexivity|discriminate]).
    cbn [fst snd]. repeat split; try discriminate; tauto. }
  destruct (SessionData.isValid session) eqn:Hs; cbn [negb fst snd].
  - rewrite Hs. repeat split; try tauto; discriminate.
  - repeat split; try discriminate.
    intros H. apply Hv in H. discriminate.
Qed.

(** X12. Logging in and coming back: a session created for an id drawn by
    [generateSessionId] is found again by a request from the same address
    and user agent that sends the id back as its first cookie, as long as
    the session's age is within the time-out; the session comes back with
    its heartbeat moved to the clock. *)
Theorem session_cookie_round_trip
    (randomBytes : list byte) (username : string) (role : UserRole)
    (ip ua rest : string) (loginCookies : option string) (t0 t1 : Z)
    (st : t) (fl : LockManager.Flash) :
  randomBytes <> [] ->
  username <> EmptyString -> role <> UNKNOWN -> 0 < t0 ->
  age t1 t0 <= SESSION_TIMEOUT_MS ->
  rest = EmptyString \/ (exists r, rest = String ";" r) ->
  let id := generateSessionId randomBytes in
  let created :=
    createSession sha256hex id username role
      (Some (mkRequest ip ua loginCookies)) t0 st in
  let back := mkRequest ip ua (Some ("session_id=" ++ id ++ rest)%string) in
  SessionData.isValid (fst created) = true
  /\ fst (validateSession sha256hex (Some back) t1 (snd created) fl)
     = Some (SessionData.mk id username role t0 t1
               (sha256hex (ip ++ ua)%string)).
Proof.
  intros Hbytes Huser Hrole Ht0 Hage Hrest id created back.
  assert (Hid : id <> EmptyString).
  { unfold id, generateSessionId. intros E.
    pose proof (bytesToHex_length randomBytes) as Hl. rewrite E in Hl.
    destruct randomBytes; [congruence|]. simpl in Hl. lia. }
  assert (Hplain : plain id = true) by apply bytesToHex_plain.
  assert (Hcookie : sessionIdOfCookie (cookieHeader back) = id)
    by (apply sessionIdOfCookie_first; assumption).
  set (session := SessionData.mk id username role t0 t0 (sha256hex (ip ++ ua)%string)).
  assert (Hvalid : SessionData.isValid session = true).
  { unfold SessionData.isValid, session. cbn [SessionData.sessionId
      SessionData.username SessionData.userRole SessionData.creationTime
      SessionData.lastHeartbeat].
    rewrite (proj2 (isEmpty_false id) Hid), (proj2 (isEmpty_false username) Huser).
    apply Z.ltb_lt in Ht0. rewrite Ht0. destruct role; simpl; congruence. }
  assert (Hcreated : created
                     = (session, mk (<[id := session]> (activeSessions st))
                                    (lastCleanupTime st))).
  { unfold created, createSession.
    rewrite (proj2 (isEmpty_false id) Hid).
    change (generateFingerprint sha256hex (Some (mkRequest ip ua loginCookies)))
      with (sha256hex (ip ++ ua)%string).
    fold session. rewrite Hvalid. reflexivity. }
  rewrite Hcreated. cbn [fst snd]. split; [exact Hvalid|].
  unfold validateSession. rewrite Hcookie, (proj2 (isEmpty_false id) Hid).
  cbn [activeSessions]. rewrite lookup_insert_eq.
  unfold expired, session. cbn [SessionData.lastHeartbeat].
  unfold age in Hage.
  destruct (Z.ltb_spec SESSION_TIMEOUT_MS (u32 (t1 - t0))); [lia|].
  change (generateFingerprint sha256hex (Some back)) with (sha256hex (ip ++ ua)%string).
  cbn [SessionData.fingerprint]. rewrite String.eqb_refl. reflexivity.
Qed.

(** X13. With a disk that keeps working, a session sweep leaves no lock in
    the file under the token of a session it removed. *)
Theorem session_sweep_releases_the_locks_of_what_it_removes
    (now : Z) (st : t) (fl : LockManager.Flash) (sid : string) (s : SessionData.t) :
  LockManager.writes fl = [] ->
  SESSION_CLEANUP_INTERVAL_MS <= age now (lastCleanupTime st) ->
  activeSessions st !! sid = Some s ->
  sid <> EmptyString ->
  SESSION_TIMEOUT_MS < age now (SessionData.lastHeartbeat s) ->
  activeSessions (fst (cleanupExpiredSessions now st fl)) !! sid = None
  /\ forall l, In l (registry (snd (cleanupExpiredSessions now st fl))) ->
               FileLock.sessionId l <> sid.
Proof.
  intros Hw Hint Hlook Hne Hold.
  split.
  { rewrite (cleanupExpiredSessions_lookup now st fl sid Hint), Hlook.
    unfold expired, age in *. apply Z.ltb_lt in Hold. rewrite Hold. reflexivity. }
  assert (Hin : In sid (idsToRemove now (activeSessions st))).
  { apply idsToRemove_In. exists s. split; [exact Hlook|].
    unfold expired, age in *. apply Z.ltb_lt. exact Hold. }
  unfold cleanupExpiredSessions, age in *.
  apply Z.leb_le in Hint. rewrite Hint.
  destruct (removeAll (idsToRemove now (activeSessions st)) st fl)
    as [st' fl'] eqn:Hall. cbn [snd].
  assert (Hgoal : forall l, In l (registry (snd (removeAll
                     (idsToRemove now (activeSessions st)) st fl))) ->
                   FileLock.sessionId l <> sid).
  { apply (removeAll_releases _ st fl sid s); auto. }
  rewrite Hall in Hgoal. exact Hgoal.
Qed.

End SessionOperations.

(** * Output dispatcher: the other properties *)

Section OutputOperations.

Import OutputPointManager.

Lemma processCommand_queue cmd st :
  commandQueue (processCommand cmd st) = commandQueue st.
Proof.
  unfold processCommand.
  destruct (directRelayPointIdToIndexMap st !! pointId cmd) as [idx|];
    [|reflexivity].
  assert (Hset : forall on s, commandQueue (setDirectRelayStatePhysical idx on s)
                              = commandQueue s).
  { intros on s. unfold setDirectRelayStatePhysical.
    destruct (controlMethod (ioConfig s)); reflexivity. }
  destruct (commandType cmd); try apply Hset.
  cbn [setTimer commandQueue].
  destruct (activeTimerTasks _ !! _) as [[?|]|]; cbn [setTimer commandQueue];
    apply Hset.
Qed.





Lemma u8_range z : 0 <= u8 z < 256.
Proof. unfold u8. apply Z.mod_pos_bound. lia. Qed.

Lemma u8_testbit z j : 0 <= j ->
  Z.testbit (u8 z) j = if j <? 8 then Z.testbit z j else false.
Proof.
  intros Hj. unfold u8. destruct (Z.ltb_spec j 8).
  - apply Z.mod_pow2_bits_low. lia.
  - apply Z.mod_pow2_bits_high. lia.
Qed.

Lemma small_high_bits z j : 0 <= z < 256 -> 8 <= j -> Z.testbit z j = false.
Proof.
  intros Hz Hj. rewrite <- (Z.mod_small z (2 ^ 8)) by lia.
  apply Z.mod_pow2_bits_high. lia.
Qed.

Lemma bit_of_one idx j : 0 <= idx -> 0 <= j ->
  Z.testbit (Z.shiftl 1 idx) j = (j =? idx).
Proof.
  intros Hi Hj. rewrite Z.shiftl_spec by lia.
  destruct (Z.eqb_spec j idx) as [->|Hne].
  - rewrite Z.sub_diag. reflexivity.
  - destruct (Z.ltb_spec j idx).
    + apply Z.testbit_neg_r. lia.
    + replace (j - idx) with (Z.succ (j - idx - 1)) by lia.
      change 1 with (2 * 0 + 1) at 1. rewrite Z.testbit_odd_succ by lia.
      apply Z.testbit_0_l.
Qed.

(** X17. Shift-register outputs, the image being a byte, and a relay index
    for which the shift is defined (0 to 31).  Switching one of the first
    eight relays changes that relay's bit and no other; a relay with index 8
    to 31 has no bit in the image, so switching it leaves the image as it is
    and the relay is never on. *)
Theorem shift_register_image_has_eight_bits (idx : Z) (on : bool) (st : t) :
  controlMethod (ioConfig st) = ShiftRegister ->
  0 <= relayState st < 256 ->
  0 <= idx < 32 ->
  0 <= relayState (setDirectRelayStatePhysical idx on st) < 256
  /\ (idx < 8 ->
      forall j, 0 <= j ->
        relayOn j (setDirectRelayStatePhysical idx on st)
        = if j =? idx then on else relayOn j st)
  /\ (8 <= idx ->
      relayState (setDirectRelayStatePhysical idx on st) = relayState st
      /\ relayOn idx (setDirectRelayStatePhysical idx on st) = false).
Proof.
  intros Hm Hrange Hdef. unfold relayOn, setDirectRelayStatePhysical, shiftOne.
  rewrite Hm. cbn [ioConfig relayState]. rewrite Hm.
  rewrite (Z.mod_small idx 32) by lia.
  split; [destruct on; apply u8_range|]. split.
  - intros Hidx j Hj. destruct on.
    + rewrite u8_testbit, Z.lor_spec, bit_of_one by lia.
      destruct (Z.ltb_spec j 8), (Z.eqb_spec j idx); try lia;
        rewrite ?orb_true_r, ?orb_false_r; auto.
      symmetry. apply small_high_bits; lia.
    + rewrite u8_testbit, Z.land_spec, Z.lnot_spec, bit_of_one by lia.
      destruct (Z.ltb_spec j 8), (Z.eqb_spec j idx); try lia;
        cbn [negb]; rewrite ?andb_true_r, ?andb_false_r; auto.
      symmetry. apply small_high_bits; lia.
  - intros Hidx.
    assert (Hsame : (if on then u8 (Z.lor (relayState st) (Z.shiftl 1 idx))
                     else u8 (Z.land (relayState st) (Z.lnot (Z.shiftl 1 idx))))
                    = relayState st).
    { apply Z.bits_inj'. intros j Hj. destruct on.
      - rewrite u8_testbit, Z.lor_spec, bit_of_one by lia.
        destruct (Z.ltb_spec j 8), (Z.eqb_spec j idx); try lia;
          rewrite ?orb_false_r; auto.
        + symmetry. apply small_high_bits; lia.
        + symmetry. apply small_high_bits; lia.
      - rewrite u8_testbit, Z.land_spec, Z.lnot_spec, bit_of_one by lia.
        destruct (Z.ltb_spec j 8), (Z.eqb_spec j idx); try lia;
          cbn [negb]; rewrite ?andb_true_r; auto.
        + symmetry. apply small_high_bits; lia.
        + symmetry. apply small_high_bits; lia. }
    rewrite Hsame. split; [reflexivity|]. apply small_high_bits; lia.
Qed.

(** X18. When a timer expires while ten commands are waiting, its [Off] is
    refused by the queue and nobody looks at the refusal: the timer's slot
    is cleared, the queue and the outputs are as before, and nothing is left
    that would switch the relay off. *)
Theorem timer_off_is_lost_when_the_queue_is_full
    (slot : nat) (tp : TimerParams) (st : t) :
  activeTimerTasks st !! slot = Some (Some tp) ->
  List.length (commandQueue st) = 10%nat ->
  exists st',
    timerExpires slot st = Some st'
    /\ commandQueue st' = commandQueue st
    /\ relayState st' = relayState st /\ pin0 st' = pin0 st
    /\ activeTimerTasks st'
       = <[Z.to_nat (relayIndex tp) := None]> (activeTimerTasks st).
Proof.
  intros Hslot Hfull. unfold timerExpires. rewrite Hslot.
  eexists. split; [reflexivity|]. unfold sendCommand, QUEUE_LENGTH.
  rewrite Hfull. destruct (hasQueue st); cbn; repeat split; reflexivity.
Qed.

(** X19. [TURN_ON_TIMED] for a known relay leaves exactly one timer armed in
    that relay's slot, the new one, whatever was armed there before; the
    other slots and the queue are untouched. *)
Theorem timed_on_replaces_the_relays_timer
    (cmd : OutputCommand) (idx : Z) (st : t) :
  commandType cmd = TURN_ON_TIMED ->
  directRelayPointIdToIndexMap st !! pointId cmd = Some idx ->
  (Z.to_nat idx < List.length (activeTimerTasks st))%nat ->
  activeTimerTasks (processCommand cmd st) !! Z.to_nat idx
  = Some (Some (mkTimer idx (durationMs cmd)))
  /\ (forall slot, slot <> Z.to_nat idx ->
        activeTimerTasks (processCommand cmd st) !! slot
        = activeTimerTasks st !! slot)
  /\ List.length (activeTimerTasks (processCommand cmd st))
     = List.length (activeTimerTasks st)
  /\ commandQueue (processCommand cmd st) = commandQueue st.
Proof.
  intros Hty Hmap Hlt.
  split; [apply processCommand_timed_rearms; assumption|].
  split; [|split; [|apply processCommand_queue]].
  - intros slot Hslot. unfold processCommand. rewrite Hmap, Hty.
    rewrite setDirectRelayStatePhysical_timers.
    destruct (activeTimerTasks st !! Z.to_nat idx) as [[?|]|];
      cbn [setTimer activeTimerTasks];
      rewrite ?list_lookup_insert_ne by congruence;
      rewrite ?setDirectRelayStatePhysical_timers; reflexivity.
  - unfold processCommand. rewrite Hmap, Hty.
    rewrite setDirectRelayStatePhysical_timers.
    destruct (activeTimerTasks st !! Z.to_nat idx) as [[?|]|];
      cbn [setTimer activeTimerTasks]; rewrite ?length_insert;
      rewrite ?setDirectRelayStatePhysical_timers; reflexivity.
Qed.

(** X20. With the default prefix ["DirectRelay_"], the [Off] that a relay's
    timer submits is addressed to that relay exactly when the relays are
    numbered from 0. *)
Theorem timer_off_reaches_its_relay_iff_numbered_from_zero
    (cfg : DirectRelayConfig) (tp : TimerParams) :
  pointIdPrefix cfg = "DirectRelay_"%string ->
  0 <= relayIndex tp < count cfg ->
  (directRelayPointIdToIndexMap (started cfg) !! pointId (timerOffCommand tp)
   = Some (relayIndex tp)
   <-> pointIdStartIndex cfg = 0).
Proof. apply timer_command_target_default_prefix. Qed.

End OutputOperations.

(** * Schedules: order, creation and the index *)

Section ScheduleOperations.

Import ScheduleManager.

Lemma insertBy_perm {A} (lt : A -> A -> bool) x l :
  Permutation (insertBy lt x l) (x :: l).
Proof.
  induction l as [|y l IH]; simpl; [reflexivity|].
  destruct (lt y x); [|reflexivity].
  rewrite IH. apply perm_swap.
Qed.

Lemma sortBy_perm {A} (lt : A -> A -> bool) l : Permutation (sortBy lt l) l.
Proof.
  induction l as [|x l IH]; simpl; [reflexivity|].
  rewrite insertBy_perm, IH. reflexivity.
Qed.

(** Sorting by a key with the strict comparison of the code. *)
Lemma insertBy_sorted {A} (key : A -> Z) x l :
  StronglySorted (fun a b => key a <= key b) l ->
  StronglySorted (fun a b => key a <= key b)
    (insertBy (fun a b => key a <? key b) x l).
Proof.
  induction l as [|y l IH]; simpl; intros Hs.
  - repeat constructor.
  - inversion Hs as [|? ? Hl Hy]; subst.
    destruct (Z.ltb_spec (key y) (key x)) as [Hlt|Hge].
    + constructor; [apply IH; exact Hl|].
      apply Forall_forall. intros z Hz. apply list_elem_of_In in Hz.
      apply insertBy_In in Hz.
      destruct Hz as [->|Hz]; [lia|].
      rewrite Forall_forall in Hy. apply Hy. apply list_elem_of_In. exact Hz.
    + constructor; [exact Hs|]. constructor; [exact Hge|].
      rewrite Forall_forall in Hy |- *. intros z Hz. specialize (Hy z Hz). lia.
Qed.

Lemma sortBy_sorted {A} (key : A -> Z) l :
  StronglySorted (fun a b => key a <= key b)
    (sortBy (fun a b => key a <? key b) l).
Proof.
  induction l as [|x l IH]; simpl; [constructor|].
  apply insertBy_sorted. exact IH.
Qed.

(** X21. After a successful addition the events of the kind added are in
    non-decreasing order of start time and are the old events together with
    the new ones, nothing lost and nothing duplicated. *)
Theorem added_events_are_kept_in_start_order (s : Schedule.t) :
  (forall w, fst (validateAndAddEvent s w) = true ->
     StronglySorted
       (fun a b => AutopilotWindow.startTime a <= AutopilotWindow.startTime b)
       (Schedule.autopilotWindows (snd (validateAndAddEvent s w)))
     /\ Permutation (Schedule.autopilotWindows (snd (validateAndAddEvent s w)))
          (Schedule.autopilotWindows s ++ [w]))
  /\ (forall evs, fst (validateAndAddDurationEvents s evs) = true ->
        StronglySorted
          (fun a b => DurationEvent.startTime a <= DurationEvent.startTime b)
          (Schedule.durationEvents (snd (validateAndAddDurationEvents s evs)))
        /\ Permutation
             (Schedule.durationEvents (snd (validateAndAddDurationEvents s evs)))
             (Schedule.durationEvents s ++ evs))
  /\ (forall evs, fst (validateAndAddVolumeEvents s evs) = true ->
        StronglySorted
          (fun a b => VolumeEvent.startTime a <= VolumeEvent.startTime b)
          (Schedule.volumeEvents (snd (validateAndAddVolumeEvents s evs)))
        /\ Permutation
             (Schedule.volumeEvents (snd (validateAndAddVolumeEvents s evs)))
             (Schedule.volumeEvents s ++ evs)).
Proof.
  split; [|split].
  - intros w Hok. rewrite (validateAndAddEvent_windows s w Hok).
    split; [apply (sortBy_sorted AutopilotWindow.startTime)|apply sortBy_perm].
  - intros evs. unfold validateAndAddDurationEvents.
    destruct (negb (checkDurationVolumeLimit _ _)); [discriminate|].
    destruct (negb (List.forallb _ _)); [discriminate|]. intros _.
    cbn [snd Schedule.durationEvents].
    split; [apply (sortBy_sorted DurationEvent.startTime)|apply sortBy_perm].
  - intros evs. unfold validateAndAddVolumeEvents.
    destruct (negb (checkDurationVolumeLimit _ _)); [discriminate|].
    destruct (negb (List.forallb _ _)); [discriminate|]. intros _.
    cbn [snd Schedule.volumeEvents].
    split; [apply (sortBy_sorted VolumeEvent.startTime)|apply sortBy_perm].
Qed.

Lemma insert_window_ordered x l :
  AutopilotWindow.isValid x = true ->
  orderedWindows l ->
  (forall y, In y l -> before x y \/ before y x) ->
  orderedWindows (insertBy compareAutopilotWindows x l).
Proof.
  intros Hx [Hvalid Hsorted] Hsep. split.
  - apply List.Forall_forall. intros y Hy. apply insertBy_In in Hy.
    destruct Hy as [->|Hy]; [exact Hx|].
    rewrite List.Forall_forall in Hvalid. auto.
  - induction l as [|y l IH]; simpl; [repeat constructor|].
    inversion Hsorted as [|? ? Hl Hy]; subst.
    inversion Hvalid as [|? ? Hyv Hlv]; subst.
    pose proof (valid_window_times x Hx) as Tx.
    pose proof (valid_window_times y Hyv) as Ty.
    unfold compareAutopilotWindows.
    destruct (Z.ltb_spec (AutopilotWindow.startTime y) (AutopilotWindow.startTime x))
      as [Hlt|Hge].
    + assert (Hyx : before y x).
      { destruct (Hsep y (or_introl eq_refl)) as [H|H]; [|exact H].
        unfold before in *. lia. }
      constructor.
      * apply IH; auto. intros z Hz. apply Hsep. right. exact Hz.
      * apply Forall_forall. intros z Hz. apply list_elem_of_In in Hz.
        apply insertBy_In in Hz. destruct Hz as [->|Hz]; [exact Hyx|].
        rewrite Forall_forall in Hy. apply Hy. apply list_elem_of_In. exact Hz.
    + assert (Hxy : before x y).
      { destruct (Hsep y (or_introl eq_refl)) as [H|H]; [exact H|].
        unfold before in *. lia. }
      constructor; [exact Hsorted|]. constructor; [exact Hxy|].
      rewrite Forall_forall in Hy |- *. intros z Hz. specialize (Hy z Hz).
      unfold before in *. lia.
Qed.

Lemma sort_with_new_window_ordered w : forall l,
  AutopilotWindow.isValid w = true ->
  orderedWindows l ->
  (forall y, In y l -> before w y \/ before y w) ->
  orderedWindows (sortBy compareAutopilotWindows (l ++ [w])).
Proof.
  induction l as [|x l IH]; intros Hw Hord Hsep.
  - simpl. split; repeat constructor. exact Hw.
  - destruct Hord as [Hvalid Hsorted].
    inversion Hsorted as [|? ? Hl Hx]; subst.
    inversion Hvalid as [|? ? Hxv Hlv]; subst.
    cbn [app sortBy]. apply insert_window_ordered; [exact Hxv| |].
    + apply IH; [exact Hw|split; assumption|].
      intros y Hy. apply Hsep. right. exact Hy.
    + intros y Hy. apply sortBy_In in Hy. apply in_app_or in Hy.
      destruct Hy as [Hy|[<-|[]]].
      * left. rewrite Forall_forall in Hx. apply Hx. apply list_elem_of_In. exact Hy.
      * destruct (Hsep x (or_introl eq_refl)); auto.
Qed.

(** X22. Autopilot windows added one by one stay apart: if the windows of a
    schedule are valid, in order, and each is over when the next begins, the
    same holds after a successful [validateAndAddEvent], and the windows are
    the old ones plus the new one; the rest of the schedule is unchanged. *)
Theorem autopilot_windows_stay_apart (s : Schedule.t) (w : AutopilotWindow.t) :
  orderedWindows (Schedule.autopilotWindows s) ->
  fst (validateAndAddEvent s w) = true ->
  orderedWindows (Schedule.autopilotWindows (snd (validateAndAddEvent s w)))
  /\ (forall x, In x (Schedule.autopilotWindows (snd (validateAndAddEvent s w)))
                <-> In x (Schedule.autopilotWindows s) \/ x = w)
  /\ Schedule.durationEvents (snd (validateAndAddEvent s w))
     = Schedule.durationEvents s
  /\ Schedule.volumeEvents (snd (validateAndAddEvent s w))
     = Schedule.volumeEvents s.
Proof.
  intros Hord Hok.
  pose proof (validateAndAddEvent_windows s w Hok) as Hwin.
  assert (Hparts : AutopilotWindow.isValid w = true
                   /\ checkAutopilotOverlap s w = false
                   /\ Schedule.durationEvents (snd (validateAndAddEvent s w))
                      = Schedule.durationEvents s
                   /\ Schedule.volumeEvents (snd (validateAndAddEvent s w))
                      = Schedule.volumeEvents s).
  { revert Hok. unfold validateAndAddEvent.
    destruct (AutopilotWindow.isValid w); [|discriminate]. cbn [negb].
    destruct (negb _ || negb _); [discriminate|].
    destruct (checkAutopilotOverlap s w); [discriminate|]. auto. }
  destruct Hparts as (Hw & Hfree & Hdur & Hvol).
  rewrite Hwin. split; [|split; [|split; assumption]].
  - apply sort_with_new_window_ordered; [exact Hw|exact Hord|].
    intros y Hy.
    assert (Hno : ~ windowsOverlap w y).
    { intros Hc. assert (checkAutopilotOverlap s w = true)
        by (apply checkAutopilotOverlap_spec; eauto). congruence. }
    destruct Hord as [Hvalid _]. rewrite List.Forall_forall in Hvalid.
    pose proof (valid_window_times y (Hvalid y Hy)) as Ty.
    pose proof (valid_window_times w Hw) as Tw.
    unfold windowsOverlap in Hno. unfold before. lia.
  - intros x. rewrite sortBy_In, in_app_iff. simpl. intuition.
Qed.

(** *** File names and identifiers *)

Lemma allChars_app p a b : allChars p (a ++ b) = allChars p a && allChars p b.
Proof.
  induction a as [|c a IH]; [reflexivity|].
  change (String c a ++ b)%string with (String c (a ++ b)).
  cbn [allChars]. rewrite IH. apply andb_assoc.
Qed.

Lemma keepChars_all p s : allChars p (WString.keepChars p s) = true.
Proof.
  induction s as [|c s IH]; simpl; [reflexivity|].
  destruct (p c) eqn:E; simpl; [rewrite E|]; exact IH.
Qed.

Lemma keepChars_id p s : allChars p s = true -> WString.keepChars p s = s.
Proof.
  induction s as [|c s IH]; simpl; [reflexivity|].
  intros H. apply andb_true_iff in H. destruct H as [-> Hs].
  rewrite (IH Hs). reflexivity.
Qed.

Lemma allChars_substring p s : forall n m,
  allChars p s = true -> allChars p (String.substring n m s) = true.
Proof.
  induction s as [|c s IH]; intros n m H.
  - destruct n, m; reflexivity.
  - cbn [allChars] in H. apply andb_true_iff in H. destruct H as [Hc Hs].
    destruct n as [|n]; destruct m as [|m]; cbn [String.substring allChars].
    + reflexivity.
    + rewrite Hc. apply IH, Hs.
    + apply IH, Hs.
    + apply IH, Hs.
Qed.

Lemma allChars_wsubstring p s left right :
  allChars p s = true -> allChars p (WString.substring s left right) = true.
Proof.
  intros H. unfold WString.substring.
  destruct (right <? left); destruct (_ <=? _); try reflexivity;
    apply allChars_substring; exact H.
Qed.

(** Replacing a character that does not occur changes nothing. *)
Lemma replace_absent_char f repl s :
  allChars (fun c => negb (Ascii.eqb f c)) s = true ->
  WString.replace s (String f EmptyString) repl = s.
Proof.
  unfold WString.replace. cbn [WString.isEmpty].
  induction s as [|c s IH]; [reflexivity|].
  cbn [allChars WString.replaceFrom String.prefix]. intros H.
  apply andb_true_iff in H. destruct H as [Hc Hs].
  apply negb_true_iff, Ascii.eqb_neq in Hc.
  destruct (Ascii.ascii_dec f c); [contradiction|].
  rewrite (IH Hs). reflexivity.
Qed.

Lemma allChars_weaken (p q : ascii -> bool) s :
  (forall c, p c = true -> q c = true) ->
  allChars p s = true -> allChars q s = true.
Proof.
  intros Hpq. induction s as [|c s IH]; simpl; [reflexivity|].
  intros H. apply andb_true_iff in H. destruct H as [Hc Hs].
  rewrite (Hpq c Hc), (IH Hs). reflexivity.
Qed.

Lemma allowed_not_space c : allowed c = true -> negb (Ascii.eqb " " c) = true.
Proof.
  intros H. apply negb_true_iff, Ascii.eqb_neq. intros <-. vm_compute in H.
  discriminate.
Qed.

Lemma digits_allowed d : allChars allowed (NilEmpty.string_of_uint d) = true.
Proof. induction d; simpl; auto. Qed.

Lemma ofInt_allowed z : allChars allowed (WString.ofInt z) = true.
Proof.
  unfold WString.ofInt, NilZero.string_of_int, NilZero.string_of_uint.
  destruct (Z.to_int z) as [d|d]; destruct d; try reflexivity;
    cbn [allChars]; rewrite ?digits_allowed; try reflexivity;
    apply (digits_allowed (Decimal.D0 d)) || idtac.
  all: try (rewrite andb_true_r; reflexivity).
  all: try (match goal with
            | |- context [NilEmpty.string_of_uint ?u] =>
                pose proof (digits_allowed u) as Hd
            end; cbn [allChars] in *; rewrite Hd; reflexivity).
Qed.

Lemma sanitizeFilename_all_allowed name :
  allChars allowed (sanitizeFilename name) = true.
Proof.
  unfold sanitizeFilename.
  destruct (WString.isEmpty _) eqn:E; [reflexivity|apply keepChars_all].
Qed.

(** X23. [sanitizeFilename] always returns a non-empty name made of letters,
    digits, [_] and [-] only; a name that is already of that form is
    returned as it is, so sanitizing twice is sanitizing once. *)
Theorem sanitizeFilename_gives_a_safe_name (name : string) :
  sanitizeFilename name <> EmptyString
  /\ allChars allowed (sanitizeFilename name) = true
  /\ (name <> EmptyString -> allChars allowed name = true ->
      sanitizeFilename name = name)
  /\ sanitizeFilename (sanitizeFilename name) = sanitizeFilename name.
Proof.
  assert (Hne : sanitizeFilename name <> EmptyString).
  { unfold sanitizeFilename.
    destruct (WString.keepChars allowed (WString.replace name " " "_"));
      simpl; discriminate. }
  assert (Hall : allChars allowed (sanitizeFilename name) = true).
  { unfold sanitizeFilename.
    destruct (WString.isEmpty _) eqn:E; [reflexivity|apply keepChars_all]. }
  assert (Hid : forall n, n <> EmptyString -> allChars allowed n = true ->
                          sanitizeFilename n = n).
  { intros n Hn Ha. unfold sanitizeFilename.
    rewrite replace_absent_char
      by (apply (allChars_weaken allowed); [apply allowed_not_space|exact Ha]).
    rewrite (keepChars_id allowed n Ha).
    rewrite (proj2 (isEmpty_false n) Hn). reflexivity. }
  repeat split; auto.
Qed.

(** X24. [createSchedule] fails, leaving its out-parameter alone, exactly for
    an empty name.  Otherwise the schedule it hands back is valid, has that
    name, lights times of [-1] and no events, and a UID made of at most the
    first 20 characters of the sanitized name, an underscore and the time in
    decimal: a non-empty string of letters, digits, [_] and [-] only. *)
Theorem createSchedule_gives_a_valid_empty_schedule
    (name : string) (now : Z) (old : Schedule.t) :
  (name = EmptyString -> createSchedule name now old = (false, old))
  /\ (name <> EmptyString ->
      createSchedule name now old
      = (true, Schedule.mk name (-1) (-1) (generateUID name now) [] [] [])
      /\ Schedule.isValid (snd (createSchedule name now old)) = true)
  /\ generateUID name now
     = (WString.substring (sanitizeFilename name) 0 20 ++ "_"
        ++ WString.ofInt now)%string
  /\ (String.length (WString.substring (sanitizeFilename name) 0 20) <= 20)%nat
  /\ generateUID name now <> EmptyString
  /\ allChars allowed (generateUID name now) = true.
Proof.
  assert (Hlen : (String.length (WString.substring (sanitizeFilename name) 0 20)
                  <= 20)%nat).
  { unfold WString.substring. cbn [Z.ltb Z.compare].
    destruct (_ <=? 0); [simpl; lia|].
    assert (Hsub : forall s n m, (String.length (String.substring n m s) <= m)%nat).
    { induction s as [|c s IH]; intros n m.
      - destruct n, m; simpl; lia.
      - destruct n, m; simpl; try lia; try apply IH.
        specialize (IH 0%nat m). lia. }
    etransitivity; [apply Hsub|].
    destruct (Z.ltb_spec (Z.of_nat (String.length (sanitizeFilename name))) 20);
      lia. }
  assert (Huid : generateUID name now <> EmptyString).
  { unfold generateUID.
    destruct (WString.substring (sanitizeFilename name) 0 20); discriminate. }
  assert (Hall : allChars allowed (generateUID name now) = true).
  { unfold generateUID. rewrite !allChars_app, ofInt_allowed.
    rewrite allChars_wsubstring
      by apply (sanitizeFilename_all_allowed name).
    reflexivity. }
  split; [|split; [|repeat split; auto]].
  - intros ->. reflexivity.
  - intros Hn. unfold createSchedule. rewrite (proj2 (isEmpty_false name) Hn).
    assert (Hv : Schedule.isValid
                   (Schedule.mk name (-1) (-1) (generateUID name now) [] [] [])
                 = true).
    { unfold Schedule.isValid. cbn [Schedule.scheduleName Schedule.scheduleUID].
      rewrite (proj2 (isEmpty_false name) Hn),
        (proj2 (isEmpty_false _) Huid). reflexivity. }
    rewrite Hv. split; [reflexivity|exact Hv].
Qed.

End ScheduleOperations.

(** ** The schedule index *)

Section IndexOperations.

Import ScheduleIndex.

Lemma refreshLockedBy_fields fl sf :
  ScheduleFile.scheduleUID (refreshLockedBy fl sf) = ScheduleFile.scheduleUID sf
  /\ ScheduleFile.persistentLockLevel (refreshLockedBy fl sf)
     = ScheduleFile.persistentLockLevel sf
  /\ ScheduleFile.lockedBy (refreshLockedBy fl sf)
     = match holder ("schedule_" ++ ScheduleFile.scheduleUID sf) fl with
       | Some l => FileLock.username l
       | None => EmptyString
       end.
Proof.
  unfold refreshLockedBy, holder, LockManager.getLockInfo, LockManager.isLocked.
  destruct (LockManager.loadAllLocks fl) as [locks|]; [|auto].
  destruct (LockManager.firstFor _ locks); auto.
Qed.

Lemma level_refreshed fl index uid :
  getPersistentLockLevel (List.map (refreshLockedBy fl) index) uid
  = getPersistentLockLevel index uid.
Proof.
  induction index as [|sf index IH]; [reflexivity|].
  cbn [List.map getPersistentLockLevel].
  destruct (refreshLockedBy_fields fl sf) as (-> & -> & _).
  rewrite IH. reflexivity.
Qed.


Lemma level_not_indexed index uid :
  inIndex index uid = false -> getPersistentLockLevel index uid = -1.
Proof.
  unfold inIndex. induction index as [|sf index IH]; [reflexivity|].
  cbn [List.existsb getPersistentLockLevel]. intros H.
  apply orb_false_iff in H. destruct H as [-> H]. auto.
Qed.

Lemma inIndex_app i1 i2 uid :
  inIndex (i1 ++ i2) uid = inIndex i1 uid || inIndex i2 uid.
Proof. unfold inIndex. apply List.existsb_app. Qed.

Lemma level_app i1 i2 uid :
  getPersistentLockLevel (i1 ++ i2) uid
  = if inIndex i1 uid then getPersistentLockLevel i1 uid
    else getPersistentLockLevel i2 uid.
Proof.
  unfold inIndex. induction i1 as [|sf i1 IH]; [reflexivity|].
  cbn [List.app List.existsb getPersistentLockLevel].
  destruct (String.eqb (ScheduleFile.scheduleUID sf) uid); [reflexivity|exact IH].
Qed.





Lemma addMissing_level uid : forall actualFiles index changed,
  getPersistentLockLevel (fst (addMissing actualFiles index changed)) uid
  = if inIndex index uid then getPersistentLockLevel index uid
    else if List.existsb (String.eqb uid) actualFiles then 0 else -1.
Proof.
  induction actualFiles as [|a rest IH]; intros index changed.
  - simpl. destruct (inIndex index uid) eqn:E; [reflexivity|].
    apply level_not_indexed, E.
  - cbn [addMissing List.existsb].
    destruct (inIndex index a) eqn:Ha.
    + rewrite IH. destruct (String.eqb_spec uid a) as [->|N].
      * rewrite Ha. reflexivity.
      * reflexivity.
    + rewrite IH, inIndex_app, level_app. unfold inIndex at 2.
      cbn [List.existsb ScheduleFile.scheduleUID getPersistentLockLevel
           ScheduleFile.persistentLockLevel].
      rewrite orb_false_r, (String.eqb_sym a uid).
      destruct (inIndex index uid) eqn:E; [reflexivity|].
      destruct (String.eqb uid a); reflexivity.
Qed.




Lemma maintained_index entries fl index d :
  fst (maintainScheduleIndex (Some entries) fl index d)
  = List.map (refreshLockedBy fl)
      (fst (addMissing (actualFilesOf entries)
              (List.filter (hasFile (actualFilesOf entries)) index)
              (List.length (List.filter (hasFile (actualFilesOf entries)) index)
               <? List.length index)%nat)).
Proof.
  unfold maintainScheduleIndex.
  destruct (addMissing _ _ _) as [grown changed]. destruct changed; reflexivity.
Qed.

Lemma loadScheduleIndex_empty d : snd (loadScheduleIndex d) = [].
Proof.
  unfold loadScheduleIndex. destruct (indexFile d) as [| | | |entries];
    try reflexivity.
  cbn [snd]. induction entries as [|e entries IH]; [reflexivity|].
  cbn [List.map List.filter]. unfold ScheduleFile.isValid at 1.
  cbn [ScheduleFile.name WString.isEmpty]. rewrite andb_false_r. exact IH.
Qed.


(** X26. The index file keeps the UID and the lock level of each entry but
    not its name, and [loadScheduleIndex] drops every entry without a name:
    whatever the file holds, the loaded index is empty.  So after [begin]
    the persistent lock level of a schedule is 0 when the directory lists
    its file and -1 otherwise; a level of 1 or 2 does not survive a
    restart. *)
Theorem begin_forgets_the_persistent_lock_levels
    (dirExists mkdirOk : bool) (dir : option (list DirEntry))
    (fl : LockManager.Flash) (d : Disk) (uid : string) :
  let out := begin dirExists mkdirOk dir fl d in
  snd (loadScheduleIndex d) = []
  /\ (forall index d0,
        snd (loadScheduleIndex (snd (saveScheduleIndex index d0))) = [])
  /\ getPersistentLockLevel (fst (snd out)) uid
     = (if fst out
        then match dir with
             | Some entries =>
                 if List.existsb (String.eqb uid) (actualFilesOf entries)
                 then 0 else -1
             | None => -1
             end
        else -1).
Proof.
  intros out. split; [apply loadScheduleIndex_empty|].
  split; [intros; apply loadScheduleIndex_empty|].
  unfold out, begin.
  destruct (negb dirExists && negb mkdirOk); [reflexivity|].
  pose proof (loadScheduleIndex_empty d) as Hload.
  destruct (loadScheduleIndex d) as [loaded index]. cbn [snd] in Hload.
  subst index.
  assert (Hm : forall d1,
    getPersistentLockLevel (fst (maintainScheduleIndex dir fl [] d1)) uid
    = match dir with
      | Some entries =>
          if List.existsb (String.eqb uid) (actualFilesOf entries) then 0 else -1
      | None => -1
      end).
  { intros d1. destruct dir as [entries|]; [|reflexivity].
    rewrite maintained_index, level_refreshed, addMissing_level.
    reflexivity. }
  destruct loaded; cbn [fst snd]; [apply Hm|].
  destruct (saveScheduleIndex [] d) as [saved d'].
  destruct saved; cbn [fst snd]; [apply Hm|reflexivity].
Qed.

End IndexOperations.

(** ** Salts and password hashes *)

Section AuthOperations.

Import AuthUtils.

Lemma byteToHex_read_back b : toByte (strtol16 (byteToHex b)) = b.
Proof. destruct b; vm_compute; reflexivity. Qed.

Lemma hexPairs_bytesToHex bs : hexPairs (bytesToHex bs) = bs.
Proof.
  induction bs as [|b bs IH]; [reflexivity|].
  cbn [bytesToHex]. pose proof (byteToHex_read_back b) as Hb.
  unfold byteToHex in *.
  change (String ?h (String ?l EmptyString) ++ ?rest)%string
    with (String h (String l rest)).
  cbn [hexPairs]. rewrite Hb, IH. reflexivity.
Qed.

Lemma bytesToHex_twice_as_long bs :
  String.length (bytesToHex bs) = (2 * List.length bs)%nat.
Proof.
  induction bs as [|b bs IH]; [reflexivity|].
  cbn [bytesToHex]. unfold byteToHex.
  change (String ?h (String ?l EmptyString) ++ ?rest)%string
    with (String h (String l rest)).
  cbn [String.length List.length]. rewrite IH. lia.
Qed.

Lemma hexToBytes_bytesToHex bs maxLen :
  hexToBytes (bytesToHex bs) maxLen
  = if (maxLen <? List.length bs)%nat then [] else bs.
Proof.
  unfold hexToBytes. rewrite bytesToHex_twice_as_long, hexPairs_bytesToHex.
  replace ((2 * List.length bs) mod 2)%nat with 0%nat
    by (symmetry; rewrite Nat.mul_comm; apply Nat.Div0.mod_mul).
  replace ((2 * List.length bs) / 2)%nat with (List.length bs)
    by (symmetry; rewrite Nat.mul_comm; apply Nat.div_mul; lia).
  reflexivity.
Qed.

Lemma bytesToHex_inj a b : bytesToHex a = bytesToHex b -> a = b.
Proof.
  intros H. rewrite <- (hexPairs_bytesToHex a), <- (hexPairs_bytesToHex b), H.
  reflexivity.
Qed.

(** X27. [hexToBytes] undoes [bytesToHex]: the text of [n] bytes has [2 n]
    characters and reads back as the same bytes in any buffer of at least
    [n] bytes (nothing is written to a smaller one); so two byte strings with
    the same text are equal. *)
Theorem hexToBytes_inverts_bytesToHex (bytes : list byte) (maxLen : nat) :
  String.length (bytesToHex bytes) = (2 * List.length bytes)%nat
  /\ hexToBytes (bytesToHex bytes) maxLen
     = (if (maxLen <? List.length bytes)%nat then [] else bytes)
  /\ (forall other, bytesToHex other = bytesToHex bytes -> other = bytes).
Proof.
  split; [apply bytesToHex_twice_as_long|].
  split; [apply hexToBytes_bytesToHex|].
  intros other. apply bytesToHex_inj.
Qed.

Variable sha256 : list byte -> list byte.

Lemma hashPassword_with_generated_salt password saltBytes :
  saltBytes <> [] ->
  hashPassword sha256 password (generateSalt saltBytes)
  = bytesToHex (sha256 (saltBytes ++ list_byte_of_string password)).
Proof.
  intros Hne. unfold hashPassword, generateSalt.
  destruct saltBytes as [|b bs]; [contradiction|].
  rewrite hexToBytes_bytesToHex, bytesToHex_twice_as_long.
  replace ((2 * List.length (b :: bs)) / 2)%nat with (List.length (b :: bs))
    by (symmetry; rewrite Nat.mul_comm; apply Nat.div_mul; lia).
  rewrite Nat.ltb_irrefl. reflexivity.
Qed.

Lemma bytesToHex_empty bs : WString.isEmpty (bytesToHex bs) = true -> bs = [].
Proof. destruct bs; [reflexivity|discriminate]. Qed.

(** X28. With a salt from [generateSalt] and a digest that is never empty,
    [hashPassword] is the text of the digest of salt bytes followed by the
    password, and [verifyPassword] accepts a password against the hash
    stored for another exactly when the two digests agree: the password
    itself always, a different one only by a collision.  With an empty salt
    or one of odd length [hashPassword] gives the empty string and
    [verifyPassword] refuses everything. *)
Theorem verifyPassword_accepts_equal_digests_only
    (saltBytes : list byte) (password : string) :
  saltBytes <> [] ->
  (forall input, sha256 input <> []) ->
  let salt := generateSalt saltBytes in
  let stored := hashPassword sha256 password salt in
  stored = bytesToHex (sha256 (saltBytes ++ list_byte_of_string password))
  /\ verifyPassword sha256 password stored salt = true
  /\ (forall attempt,
        verifyPassword sha256 attempt stored salt = true <->
        sha256 (saltBytes ++ list_byte_of_string attempt)
        = sha256 (saltBytes ++ list_byte_of_string password))
  /\ (forall attempt anyHash badSalt,
        badSalt = EmptyString \/ Nat.odd (String.length badSalt) = true ->
        hashPassword sha256 attempt badSalt = EmptyString
        /\ verifyPassword sha256 attempt anyHash badSalt = false).
Proof.
  intros Hsalt Hdigest salt stored. unfold stored, salt.
  assert (Hverify : forall attempt,
    verifyPassword sha256 attempt
      (hashPassword sha256 password (generateSalt saltBytes))
      (generateSalt saltBytes) = true <->
    sha256 (saltBytes ++ list_byte_of_string attempt)
    = sha256 (saltBytes ++ list_byte_of_string password)).
  { intros attempt. unfold verifyPassword.
    rewrite !hashPassword_with_generated_salt by exact Hsalt.
    destruct (WString.isEmpty _) eqn:E.
    { apply bytesToHex_empty in E. destruct (Hdigest _ E). }
    rewrite String.eqb_eq. split; [apply bytesToHex_inj|intros ->; reflexivity]. }
  split; [apply hashPassword_with_generated_salt, Hsalt|].
  split; [apply Hverify; reflexivity|].
  split; [exact Hverify|].
  intros attempt anyHash badSalt Hbad.
  assert (Hh : hashPassword sha256 attempt badSalt = EmptyString).
  { unfold hashPassword, hexToBytes. destruct Hbad as [->|Hodd]; [reflexivity|].
    rewrite <- Nat.negb_even in Hodd. apply negb_true_iff in Hodd.
    assert (Hmod : Nat.eqb (String.length badSalt mod 2) 0 = false).
    { apply Nat.eqb_neq. intros Hm.
      apply Nat.Div0.mod_divides in Hm. destruct Hm as [k Hk].
      rewrite Hk, Nat.even_mul in Hodd. discriminate. }
    rewrite Hmod. reflexivity. }
  split; [exact Hh|]. unfold verifyPassword. rewrite Hh. reflexivity.
Qed.

End AuthOperations.

(** ** The schedule lock end points *)

Section ApiOperations.

Import LockManager ApiRoutes.

Variable sha256hex : string -> string.

Lemma validateSession_some_keeps_locks req t st fl s st' fl' :
  SessionManager.validateSession sha256hex (Some req) t st fl
  = (Some s, (st', fl')) ->
  fl' = fl.
Proof.
  unfold SessionManager.validateSession. cbv zeta.
  destruct (WString.isEmpty _); [discriminate|].
  destruct (_ !! _); [|discriminate].
  destruct (SessionManager.expired _ _); [discriminate|].
  destruct (negb _); [discriminate|].
  intros H. inversion H. reflexivity.
Qed.

Lemma releaseLock_success R sid fl :
  oneLockPerResource fl ->
  fst (releaseLock R sid fl) = true ->
  (exists held, holder R fl = Some held /\ FileLock.sessionId held = sid)
  /\ holder R (snd (releaseLock R sid fl)) = None
  /\ (forall R', R' <> R ->
        holder R' (snd (releaseLock R sid fl)) = holder R' fl).
Proof.
  intros Hinv. unfold releaseLock.
  destruct (WString.isEmpty R || WString.isEmpty sid); [discriminate|].
  destruct (loadAllLocks fl) as [locks|] eqn:Hload; [|discriminate].
  destruct (_ <? _)%nat eqn:Hlt; [|discriminate].
  intros Hok. pose proof (save_returns_true _ _ Hok) as Hw.
  destruct (save_then_load (eraseIf (heldBy R sid) locks) fl Hw) as [_ Hload'].
  assert (Hvalid : List.filter FileLock.isValid (eraseIf (heldBy R sid) locks)
                   = eraseIf (heldBy R sid) locks).
  { apply filter_all. intros x Hx. apply filter_In in Hx.
    apply (loaded_valid _ _ _ Hload). tauto. }
  rewrite Hvalid in Hload'.
  unfold oneLockPerResource in Hinv. rewrite (registry_loaded _ _ Hload) in Hinv.
  apply Nat.ltb_lt in Hlt.
  pose proof (filter_partition_length (heldBy R sid) locks) as Hlen.
  unfold eraseIf in *.
  destruct (List.filter (heldBy R sid) locks) as [|l rest] eqn:E;
    [simpl in Hlen; lia|].
  assert (Hl : In l (List.filter (heldBy R sid) locks))
    by (rewrite E; left; reflexivity).
  apply filter_In in Hl. destruct Hl as [Hin Hp]. unfold heldBy in Hp.
  apply andb_true_iff in Hp. rewrite !String.eqb_eq in Hp.
  destruct Hp as [Hr Hs].
  assert (Hfirst : firstFor R locks = Some l).
  { destruct (firstFor R locks) as [l'|] eqn:F.
    - destruct (firstFor_In _ _ _ F) as [Hin' Hr']. f_equal.
      apply (NoDup_map_inj FileLock.resourceId locks); auto. congruence.
    - exfalso. apply (proj1 (firstFor_None R locks) F l Hin Hr). }
  split; [|split].
  - exists l. split; [|exact Hs]. apply holder_spec. exists locks. auto.
  - unfold holder, getLockInfo, isLocked. rewrite Hload'.
    assert (F : firstFor R
                  (List.filter (fun x => negb (heldBy R sid x)) locks) = None).
    { apply firstFor_None. intros x Hx Hrx. apply filter_In in Hx.
      destruct Hx as [Hx Hp].
      assert (x = l)
        by (apply (NoDup_map_inj FileLock.resourceId locks); auto; congruence).
      subst x. unfold heldBy in Hp. rewrite Hr, Hs, !String.eqb_refl in Hp.
      discriminate. }
    rewrite F. reflexivity.
  - intros R' Hne. unfold holder, getLockInfo, isLocked. rewrite Hload', Hload.
    rewrite firstFor_filter; [reflexivity|]. intros x _ Hrx.
    apply negb_true_iff. unfold heldBy. apply andb_false_iff. left.
    apply String.eqb_neq. congruence.
Qed.

(** X29. The lock end point answers 200 only to a request whose cookie
    validates to a MANAGER or OWNER session, that names a schedule of the
    index which carries no template or cycle lock; the lock manager then
    reports that schedule as locked by that session under its user name,
    stamped with the clock.  (The lock set is taken with one lock per
    resource at most.) *)
Theorem lock_post_200_means_the_caller_holds_the_lock
    (request : Request) (t1 t2 : Z) (sv : Server) :
  oneLockPerResource (locks sv) ->
  fst (handleScheduleLockPost sha256hex request t1 t2 sv) = 200 ->
  exists session uid,
    fst (SessionManager.validateSession sha256hex (Some (client request)) t1
           (sessions sv) (locks sv)) = Some session
    /\ (SessionData.userRole session = MANAGER
        \/ SessionData.userRole session = OWNER)
    /\ uidParam request = Some uid
    /\ (let level :=
          ScheduleIndex.getPersistentLockLevel (scheduleIndex sv) uid in
        0 <= level /\ level <> 1 /\ level <> 2)
    /\ holder ("schedule_" ++ uid)
         (locks (snd (handleScheduleLockPost sha256hex request t1 t2 sv)))
       = Some (FileLock.mk ("schedule_" ++ uid) EDITING_SCHEDULE
                 (SessionData.sessionId session) (SessionData.username session)
                 t2)
    /\ scheduleIndex (snd (handleScheduleLockPost sha256hex request t1 t2 sv))
       = scheduleIndex sv.
Proof.
  intros Hinv. unfold handleScheduleLockPost.
  destruct (SessionManager.validateSession sha256hex (Some (client request)) t1
              (sessions sv) (locks sv)) as [session [st fl]] eqn:Hv.
  destruct session as [s|]; [|cbn; discriminate].
  pose proof (validateSession_some_keeps_locks _ _ _ _ _ _ _ Hv) as ->.
  destruct (roleValue (SessionData.userRole s) <? roleValue MANAGER) eqn:Hrole;
    [cbn; discriminate|].
  destruct (uidParam request) as [uid|]; [|cbn; discriminate].
  cbn [scheduleIndex locks sessions].
  destruct (ScheduleIndex.getPersistentLockLevel (scheduleIndex sv) uid =? 1)
    eqn:H1; [cbn; discriminate|].
  destruct (ScheduleIndex.getPersistentLockLevel (scheduleIndex sv) uid =? 2)
    eqn:H2; [cbn; discriminate|].
  cbn [orb].
  destruct (ScheduleIndex.getPersistentLockLevel (scheduleIndex sv) uid <? 0)
    eqn:H0; [cbn; discriminate|].
  pose proof (acquireLock_success_holder ("schedule_" ++ uid) EDITING_SCHEDULE s
                t2 (locks sv) Hinv) as Hacq.
  destruct (acquireLock ("schedule_" ++ uid) EDITING_SCHEDULE s t2 (locks sv))
    as [acquired fl'].
  destruct acquired; [|destruct (fst (getLockInfo _ fl')); cbn; discriminate].
  intros _. destruct (Hacq eq_refl) as [Hvalid Hholder].
  exists s, uid. cbn [fst snd locks scheduleIndex] in *.
  split; [reflexivity|]. split.
  { unfold SessionData.isValid in Hvalid.
    destruct (SessionData.userRole s); cbn in Hrole; try discriminate; auto.
    rewrite andb_false_r in Hvalid. discriminate. }
  split; [reflexivity|]. split; [|split; [exact Hholder|reflexivity]].
  cbv zeta. apply Z.eqb_neq in H1. apply Z.eqb_neq in H2. apply Z.ltb_ge in H0.
  auto.
Qed.

(** X30. The unlock end point answers 200 only to a request whose cookie
    validates to a session that is no VIEWER and that held the lock on the
    named schedule; afterwards that schedule is unlocked and the lock
    reported for every other resource is the one reported before.  (The
    lock set is taken with one lock per resource at most.) *)
Theorem lock_delete_200_means_the_callers_lock_is_gone
    (request : Request) (t1 : Z) (sv : Server) :
  oneLockPerResource (locks sv) ->
  fst (handleScheduleLockDelete sha256hex request t1 sv) = 200 ->
  exists session uid held,
    fst (SessionManager.validateSession sha256hex (Some (client request)) t1
           (sessions sv) (locks sv)) = Some session
    /\ SessionData.userRole session <> VIEWER
    /\ uidParam request = Some uid
    /\ holder ("schedule_" ++ uid) (locks sv) = Some held
    /\ FileLock.sessionId held = SessionData.sessionId session
    /\ holder ("schedule_" ++ uid)
         (locks (snd (handleScheduleLockDelete sha256hex request t1 sv))) = None
    /\ (forall R', R' <> ("schedule_" ++ uid)%string ->
          holder R'
            (locks (snd (handleScheduleLockDelete sha256hex request t1 sv)))
          = holder R' (locks sv)).
Proof.
  intros Hinv. unfold handleScheduleLockDelete.
  destruct (SessionManager.validateSession sha256hex (Some (client request)) t1
              (sessions sv) (locks sv)) as [session [st fl]] eqn:Hv.
  destruct session as [s|]; [|cbn; discriminate].
  pose proof (validateSession_some_keeps_locks _ _ _ _ _ _ _ Hv) as ->.
  destruct (roleValue (SessionData.userRole s) <? roleValue MANAGER) eqn:Hrole;
    [cbn; discriminate|].
  destruct (uidParam request) as [uid|]; [|cbn; discriminate].
  cbn [scheduleIndex locks sessions].
  pose proof (releaseLock_success ("schedule_" ++ uid)
                (SessionData.sessionId s) (locks sv) Hinv) as Hrel.
  destruct (releaseLock ("schedule_" ++ uid) (SessionData.sessionId s) (locks sv))
    as [released fl'].
  destruct released; [|destruct (fst (getLockInfo _ fl')); cbn; discriminate].
  intros _. destruct (Hrel eq_refl) as ((held & Hheld & Hsid) & Hgone & Hothers).
  exists s, uid, held. cbn [fst snd locks] in *.
  split; [reflexivity|]. split.
  { intros E. rewrite E in Hrole. discriminate. }
  auto.
Qed.

End ApiOperations.

(** ** The operations on the concrete configurations *)

Section OperationInstances.

Import Scenario.

(** On the disk of the scenario: alice takes the free schedule [z], gives
    back [x]. *)
Lemma lock_mutators_keep_one_lock_per_resource_witness :
  oneLockPerResource disk
  /\ oneLockPerResource
       (snd (LockManager.acquireLock "schedule_z" EDITING_SCHEDULE alice 7000 disk))
  /\ oneLockPerResource (snd (LockManager.releaseLock "schedule_x" "a1" disk))
  /\ oneLockPerResource (snd (LockManager.releaseLocksForSession "b2" disk)).
Proof.
  split; [exact disk_has_one_lock_per_resource|].
  destruct (lock_mutators_keep_one_lock_per_resource disk
              disk_has_one_lock_per_resource) as (Ha & Hr & Hs & _).
  split; [apply Ha|]. split; [apply Hr|apply Hs].
Defined.

(** alice asks again for the schedule she is editing. *)
Lemma acquireLock_succeeds_iff_not_held_by_another_witness :
  SessionData.isValid alice = true
  /\ nextWriteSucceeds disk
  /\ holder "schedule_x" disk = Some aliceLock
  /\ fst (LockManager.acquireLock "schedule_x" EDITING_SCHEDULE alice 7000 disk)
     = true.
Proof.
  assert (Hvalid : SessionData.isValid alice = true) by (vm_compute; reflexivity).
  assert (Hw : nextWriteSucceeds disk) by (vm_compute; reflexivity).
  assert (Hheld : holder "schedule_x" disk = Some aliceLock)
    by (vm_compute; reflexivity).
  split; [exact Hvalid|]. split; [exact Hw|]. split; [exact Hheld|].
  apply (acquireLock_succeeds_iff_not_held_by_another "schedule_x"
           EDITING_SCHEDULE alice 7000 disk);
    [vm_compute; discriminate|discriminate|exact Hvalid|discriminate|lia
    |exact Hw|].
  intros l Hl. rewrite Hheld in Hl. inversion Hl. reflexivity.
Defined.

(** alice takes the free schedule [z]; bob's lock on [y] is as before. *)
Lemma acquireLock_success_effect_witness :
  fst (LockManager.acquireLock "schedule_z" EDITING_SCHEDULE alice 7000 disk)
  = true
  /\ holder "schedule_z"
       (snd (LockManager.acquireLock "schedule_z" EDITING_SCHEDULE alice 7000 disk))
     = Some (FileLock.mk "schedule_z" EDITING_SCHEDULE "a1" "alice" 7000)
  /\ holder "schedule_y"
       (snd (LockManager.acquireLock "schedule_z" EDITING_SCHEDULE alice 7000 disk))
     = holder "schedule_y" disk.
Proof.
  assert (Hok : fst (LockManager.acquireLock "schedule_z" EDITING_SCHEDULE alice
                       7000 disk) = true) by (vm_compute; reflexivity).
  destruct (acquireLock_success_effect "schedule_z" EDITING_SCHEDULE alice 7000
              disk disk_has_one_lock_per_resource Hok) as (Hh & Hothers & _).
  split; [exact Hok|]. split; [exact Hh|]. apply Hothers. discriminate.
Defined.

(** alice takes [z] at 7 s, and again at 9 s or with the clock at 0. *)
Lemma acquireLock_is_idempotent_up_to_the_stamp_witness :
  fst (LockManager.acquireLock "schedule_z" EDITING_SCHEDULE alice 7000 disk)
  = true
  /\ (fst (LockManager.acquireLock "schedule_z" EDITING_SCHEDULE alice 9000
             (snd (LockManager.acquireLock "schedule_z" EDITING_SCHEDULE alice
                     7000 disk))) = true
      /\ holder "schedule_z"
           (snd (LockManager.acquireLock "schedule_z" EDITING_SCHEDULE alice 9000
                   (snd (LockManager.acquireLock "schedule_z" EDITING_SCHEDULE
                           alice 7000 disk))))
         = Some (FileLock.mk "schedule_z" EDITING_SCHEDULE "a1" "alice" 9000))
  /\ (fst (LockManager.acquireLock "schedule_z" EDITING_SCHEDULE alice 0
             (snd (LockManager.acquireLock "schedule_z" EDITING_SCHEDULE alice
                     7000 disk))) = false
      /\ holder "schedule_z"
           (snd (LockManager.acquireLock "schedule_z" EDITING_SCHEDULE alice 0
                   (snd (LockManager.acquireLock "schedule_z" EDITING_SCHEDULE
                           alice 7000 disk))))
         = Some (FileLock.mk "schedule_z" EDITING_SCHEDULE "a1" "alice" 7000)).
Proof.
  assert (Hok : fst (LockManager.acquireLock "schedule_z" EDITING_SCHEDULE alice
                       7000 disk) = true) by (vm_compute; reflexivity).
  assert (Hw : nextWriteSucceeds
                 (snd (LockManager.acquireLock "schedule_z" EDITING_SCHEDULE alice
                         7000 disk))) by (vm_compute; reflexivity).
  destruct (acquireLock_is_idempotent_up_to_the_stamp "schedule_z"
              EDITING_SCHEDULE alice 7000 9000 disk
              disk_has_one_lock_per_resource Hok Hw) as (Hagain & _ & Hh).
  destruct (acquireLock_is_idempotent_up_to_the_stamp "schedule_z"
              EDITING_SCHEDULE alice 7000 0 disk
              disk_has_one_lock_per_resource Hok Hw) as (Hrefused & _ & Hkept).
  split; [exact Hok|]. split; [split; [exact Hagain|exact Hh]|].
  split; [exact Hrefused|exact Hkept].
Defined.

(** alice gives back [x]. *)
Lemma releaseLock_removes_the_callers_lock_only_witness :
  LockManager.loadAllLocks disk = Some [aliceLock; bobLock]
  /\ fst (LockManager.releaseLock "schedule_x" "a1" disk) = true
  /\ registry (snd (LockManager.releaseLock "schedule_x" "a1" disk)) = [bobLock].
Proof.
  assert (Hload : LockManager.loadAllLocks disk = Some [aliceLock; bobLock])
    by (vm_compute; reflexivity).
  assert (Hw : nextWriteSucceeds disk) by (vm_compute; reflexivity).
  destruct (releaseLock_removes_the_callers_lock_only "schedule_x" "a1" disk
              [aliceLock; bobLock] Hload ltac:(discriminate) ltac:(discriminate)
              Hw) as (Hiff & Hreg & _).
  split; [exact Hload|]. split.
  - apply Hiff. exists aliceLock.
    split; [left; reflexivity|split; reflexivity].
  - rewrite Hreg. vm_compute. reflexivity.
Defined.

(** alice's session ends: her one lock goes, bob's stays. *)
Lemma releaseLocksForSession_removes_exactly_the_tokens_locks_witness :
  fst (LockManager.releaseLocksForSession "a1" disk) = 1%nat
  /\ registry (snd (LockManager.releaseLocksForSession "a1" disk)) = [bobLock].
Proof.
  assert (Hload : LockManager.loadAllLocks disk = Some [aliceLock; bobLock])
    by (vm_compute; reflexivity).
  assert (Hw : nextWriteSucceeds disk) by (vm_compute; reflexivity).
  destruct (releaseLocksForSession_removes_exactly_the_tokens_locks "a1" disk
              [aliceLock; bobLock] Hload ltac:(discriminate) Hw) as [Hn Hreg].
  split; [rewrite Hn|rewrite Hreg]; vm_compute; reflexivity.
Defined.

(** A stamp taken 296 ms before the clock wraps, read 1000 ms later. *)
Lemma expiry_survives_clock_wrap_witness :
  u32 (4294967000 + 1000) = 704
  /\ age (u32 (4294967000 + 1000)) 4294967000 = 1000.
Proof.
  split; [vm_compute; reflexivity|].
  apply (expiry_survives_clock_wrap 4294967000 1000); lia.
Defined.

(** A login and the next request of the same browser, one second later. *)
Lemma session_cookie_round_trip_witness :
  SessionManager.generateSessionId [Byte.x0a; Byte.xff] = "0aff"%string
  /\ fst (SessionManager.validateSession plainDigest
            (Some (SessionManager.mkRequest "10.0.0.9" "Mozilla"
                     (Some ("session_id="
                            ++ SessionManager.generateSessionId [Byte.x0a; Byte.xff]
                            ++ "; lang=en")%string)))
            2000
            (snd (SessionManager.createSession plainDigest
                    (SessionManager.generateSessionId [Byte.x0a; Byte.xff])
                    "alice" MANAGER
                    (Some (SessionManager.mkRequest "10.0.0.9" "Mozilla" None))
                    1000 sessionManager))
            disk)
     = Some (SessionData.mk
               (SessionManager.generateSessionId [Byte.x0a; Byte.xff])
               "alice" MANAGER 1000 2000 (plainDigest "10.0.0.9Mozilla")).
Proof.
  split; [vm_compute; reflexivity|].
  assert (Hage : age 2000 1000 <= SessionManager.SESSION_TIMEOUT_MS)
    by (vm_compute; discriminate).
  exact (proj2 (session_cookie_round_trip plainDigest [Byte.x0a; Byte.xff]
                  "alice" MANAGER "10.0.0.9" "Mozilla" "; lang=en" None 1000 2000
                  sessionManager disk ltac:(discriminate) ltac:(discriminate)
                  ltac:(discriminate) ltac:(lia) Hage
                  (or_intror (ex_intro _ " lang=en"%string eq_refl)))).
Defined.

(** The sweep at 2 000 000 ms removes alice's session and leaves no lock of
    hers. *)
Lemma session_sweep_releases_the_locks_of_what_it_removes_witness :
  SessionManager.activeSessions sessionManager !! "a1"%string = Some alice
  /\ SessionManager.activeSessions
       (fst (SessionManager.cleanupExpiredSessions 2000000 sessionManager disk))
     !! "a1"%string = None
  /\ (forall l,
        In l (registry
                (snd (SessionManager.cleanupExpiredSessions 2000000
                        sessionManager disk))) ->
        FileLock.sessionId l <> "a1"%string).
Proof.
  assert (Hstored : SessionManager.activeSessions sessionManager !! "a1"%string
                    = Some alice) by (vm_compute; reflexivity).
  assert (Hint : SessionManager.SESSION_CLEANUP_INTERVAL_MS
                 <= age 2000000 (SessionManager.lastCleanupTime sessionManager))
    by (vm_compute; discriminate).
  assert (Hold : SessionManager.SESSION_TIMEOUT_MS
                 < age 2000000 (SessionData.lastHeartbeat alice))
    by (vm_compute; reflexivity).
  split; [exact Hstored|].
  exact (session_sweep_releases_the_locks_of_what_it_removes 2000000
           sessionManager disk "a1" alice eq_refl Hint Hstored
           ltac:(discriminate) Hold).
Defined.

(** With relays 1 and 5 on, relay 0 is switched on, relay 5 off, and relay
    9, which has no bit, on. *)
Lemma shift_register_image_has_eight_bits_witness :
  let lit :=
    OutputPointManager.setDirectRelayStatePhysical 5 true
      (OutputPointManager.setDirectRelayStatePhysical 1 true (started twoRelays)) in
  OutputPointManager.relayState lit = 34
  /\ OutputPointManager.relayState
       (OutputPointManager.setDirectRelayStatePhysical 0 true lit) = 35
  /\ (OutputPointManager.relayOn 0
        (OutputPointManager.setDirectRelayStatePhysical 0 true lit) = true
      /\ OutputPointManager.relayOn 1
           (OutputPointManager.setDirectRelayStatePhysical 0 true lit) = true
      /\ OutputPointManager.relayOn 2
           (OutputPointManager.setDirectRelayStatePhysical 0 true lit) = false)
  /\ (OutputPointManager.relayOn 5
        (OutputPointManager.setDirectRelayStatePhysical 5 false lit) = false
      /\ OutputPointManager.relayOn 1
           (OutputPointManager.setDirectRelayStatePhysical 5 false lit) = true)
  /\ (OutputPointManager.relayState
        (OutputPointManager.setDirectRelayStatePhysical 9 true lit)
      = OutputPointManager.relayState lit
      /\ OutputPointManager.relayOn 9
           (OutputPointManager.setDirectRelayStatePhysical 9 true lit) = false).
Proof.
  intros lit.
  assert (Hm : OutputPointManager.controlMethod (OutputPointManager.ioConfig lit)
               = OutputPointManager.ShiftRegister) by reflexivity.
  assert (Himage : OutputPointManager.relayState lit = 34)
    by (vm_compute; reflexivity).
  assert (Hbyte : 0 <= OutputPointManager.relayState lit < 256)
    by (rewrite Himage; lia).
  assert (H1 : OutputPointManager.relayOn 1 lit = true)
    by (vm_compute; reflexivity).
  assert (H2 : OutputPointManager.relayOn 2 lit = false)
    by (vm_compute; reflexivity).
  destruct (shift_register_image_has_eight_bits 0 true lit Hm Hbyte ltac:(lia))
    as (_ & Hon & _).
  destruct (shift_register_image_has_eight_bits 5 false lit Hm Hbyte ltac:(lia))
    as (_ & Hoff & _).
  destruct (shift_register_image_has_eight_bits 9 true lit Hm Hbyte ltac:(lia))
    as (_ & _ & Hnone).
  split; [exact Himage|]. split; [vm_compute; reflexivity|].
  split.
  { split; [exact (Hon ltac:(lia) 0 ltac:(lia))|].
    split; [rewrite (Hon ltac:(lia) 1 ltac:(lia)); exact H1
           |rewrite (Hon ltac:(lia) 2 ltac:(lia)); exact H2]. }
  split.
  { split; [exact (Hoff ltac:(lia) 5 ltac:(lia))
           |rewrite (Hoff ltac:(lia) 1 ltac:(lia)); exact H1]. }
  exact (Hnone ltac:(lia)).
Defined.

(** The relay's timer runs out while ten commands wait in the queue. *)
Lemma timer_off_is_lost_when_the_queue_is_full_witness :
  let armed :=
    OutputPointManager.processCommand
      (OutputPointManager.mkCommand "DirectRelay_0"
         OutputPointManager.TURN_ON_TIMED 2000)
      (started oneRelay) in
  let full :=
    withQueue
      (List.repeat (OutputPointManager.mkCommand "DirectRelay_0"
                      OutputPointManager.TURN_ON 0) 10) armed in
  OutputPointManager.activeTimerTasks full !! 0%nat
  = Some (Some (OutputPointManager.mkTimer 0 2000))
  /\ exists st',
       OutputPointManager.timerExpires 0 full = Some st'
       /\ OutputPointManager.commandQueue st'
          = OutputPointManager.commandQueue full
       /\ OutputPointManager.relayState st' = OutputPointManager.relayState full
       /\ OutputPointManager.pin0 st' = OutputPointManager.pin0 full
       /\ OutputPointManager.activeTimerTasks st'
          = <[Z.to_nat 0 := None]> (OutputPointManager.activeTimerTasks full).
Proof.
  intros armed full.
  assert (Harmed : OutputPointManager.activeTimerTasks full !! 0%nat
                   = Some (Some (OutputPointManager.mkTimer 0 2000)))
    by (vm_compute; reflexivity).
  split; [exact Harmed|].
  exact (timer_off_is_lost_when_the_queue_is_full 0
           (OutputPointManager.mkTimer 0 2000) full Harmed eq_refl).
Defined.

(** Two relays, each with a timer armed (5 s and 7 s); a new timed On for
    relay 0 replaces its timer and leaves the timer of relay 1 armed. *)
Lemma timed_on_replaces_the_relays_timer_witness :
  let armed :=
    OutputPointManager.processCommand
      (OutputPointManager.mkCommand "DirectRelay_1"
         OutputPointManager.TURN_ON_TIMED 7000)
      (OutputPointManager.processCommand
         (OutputPointManager.mkCommand "DirectRelay_0"
            OutputPointManager.TURN_ON_TIMED 5000)
         (started twoRelays)) in
  let again :=
    OutputPointManager.mkCommand "DirectRelay_0"
      OutputPointManager.TURN_ON_TIMED 2000 in
  OutputPointManager.activeTimerTasks armed
  = [Some (OutputPointManager.mkTimer 0 5000);
     Some (OutputPointManager.mkTimer 1 7000)]
  /\ OutputPointManager.activeTimerTasks
       (OutputPointManager.processCommand again armed) !! 0%nat
     = Some (Some (OutputPointManager.mkTimer 0 2000))
  /\ OutputPointManager.activeTimerTasks
       (OutputPointManager.processCommand again armed) !! 1%nat
     = Some (Some (OutputPointManager.mkTimer 1 7000))
  /\ List.length
       (OutputPointManager.activeTimerTasks
          (OutputPointManager.processCommand again armed)) = 2%nat.
Proof.
  intros armed again.
  assert (Hslots : OutputPointManager.activeTimerTasks armed
                   = [Some (OutputPointManager.mkTimer 0 5000);
                      Some (OutputPointManager.mkTimer 1 7000)])
    by (vm_compute; reflexivity).
  assert (Hmap : OutputPointManager.directRelayPointIdToIndexMap armed
                   !! OutputPointManager.pointId again = Some 0)
    by (vm_compute; reflexivity).
  assert (Hlt : (Z.to_nat 0
                 < List.length (OutputPointManager.activeTimerTasks armed))%nat)
    by (rewrite Hslots; simpl; lia).
  destruct (timed_on_replaces_the_relays_timer again 0 armed eq_refl Hmap Hlt)
    as (Hnew & Hothers & Hlen & _).
  split; [exact Hslots|]. split; [exact Hnew|].
  split; [rewrite (Hothers 1%nat ltac:(discriminate)), Hslots; reflexivity|].
  rewrite Hlen, Hslots. reflexivity.
Defined.

(** Relays numbered from zero: the timer of relay 0 addresses relay 0. *)
Lemma timer_off_reaches_its_relay_iff_numbered_from_zero_witness :
  OutputPointManager.pointIdStartIndex oneRelay = 0
  /\ OutputPointManager.directRelayPointIdToIndexMap
       (started oneRelay)
       !! OutputPointManager.pointId
            (OutputPointManager.timerOffCommand (OutputPointManager.mkTimer 0 2000))
     = Some 0.
Proof.
  split; [reflexivity|].
  apply (timer_off_reaches_its_relay_iff_numbered_from_zero oneRelay
           (OutputPointManager.mkTimer 0 2000) eq_refl
           ltac:(vm_compute; split; [discriminate|reflexivity])).
  reflexivity.
Defined.

(** A schedule with windows 01:00-02:00 and 04:00-05:00 gets a third one,
    02:00-03:00, which touches the first. *)
Lemma autopilot_windows_stay_apart_witness :
  let s :=
    Schedule.mk "Morning" 0 0 "Morning_1700000000"
      [window 60 120; window 240 300] [] [] in
  orderedWindows (Schedule.autopilotWindows s)
  /\ fst (ScheduleManager.validateAndAddEvent s (window 120 180)) = true
  /\ Schedule.autopilotWindows
       (snd (ScheduleManager.validateAndAddEvent s (window 120 180)))
     = [window 60 120; window 120 180; window 240 300]
  /\ orderedWindows
       (Schedule.autopilotWindows
          (snd (ScheduleManager.validateAndAddEvent s (window 120 180)))).
Proof.
  intros s.
  assert (Hord : orderedWindows (Schedule.autopilotWindows s)).
  { split.
    - repeat constructor; vm_compute; reflexivity.
    - repeat constructor; vm_compute; discriminate. }
  assert (Hok : fst (ScheduleManager.validateAndAddEvent s (window 120 180)) = true)
    by (vm_compute; reflexivity).
  split; [exact Hord|]. split; [exact Hok|].
  split; [vm_compute; reflexivity|].
  exact (proj1 (autopilot_windows_stay_apart s (window 120 180) Hord Hok)).
Defined.

(** A two-byte salt and the stand-in digest. *)
Lemma verifyPassword_accepts_equal_digests_only_witness :
  AuthUtils.generateSalt [Byte.x0a; Byte.xff] = "0aff"%string
  /\ AuthUtils.verifyPassword plainHash "secret"
       (AuthUtils.hashPassword plainHash "secret"
          (AuthUtils.generateSalt [Byte.x0a; Byte.xff]))
       (AuthUtils.generateSalt [Byte.x0a; Byte.xff]) = true.
Proof.
  split; [vm_compute; reflexivity|].
  assert (Hdigest : forall input, plainHash input <> [])
    by (intros input; discriminate).
  exact (proj1 (proj2 (verifyPassword_accepts_equal_digests_only plainHash
                         [Byte.x0a; Byte.xff] "secret" ltac:(discriminate)
                         Hdigest))).
Defined.

(** alice asks for the lock on the free schedule [z]. *)
Lemma lock_post_200_means_the_caller_holds_the_lock_witness :
  fst (ApiRoutes.handleScheduleLockPost plainDigest (lockRequest "z") 2000 7000
         server) = 200
  /\ exists session uid,
       fst (SessionManager.validateSession plainDigest
              (Some (ApiRoutes.client (lockRequest "z"))) 2000
              (ApiRoutes.sessions server) (ApiRoutes.locks server)) = Some session
       /\ (SessionData.userRole session = MANAGER
           \/ SessionData.userRole session = OWNER)
       /\ ApiRoutes.uidParam (lockRequest "z") = Some uid
       /\ (let level :=
             ScheduleIndex.getPersistentLockLevel (ApiRoutes.scheduleIndex server)
               uid in
           0 <= level /\ level <> 1 /\ level <> 2)
       /\ holder ("schedule_" ++ uid)
            (ApiRoutes.locks
               (snd (ApiRoutes.handleScheduleLockPost plainDigest
                       (lockRequest "z") 2000 7000 server)))
          = Some (FileLock.mk ("schedule_" ++ uid) EDITING_SCHEDULE
                    (SessionData.sessionId session)
                    (SessionData.username session) 7000)
       /\ ApiRoutes.scheduleIndex
            (snd (ApiRoutes.handleScheduleLockPost plainDigest (lockRequest "z")
                    2000 7000 server))
          = ApiRoutes.scheduleIndex server.
Proof.
  assert (Hok : fst (ApiRoutes.handleScheduleLockPost plainDigest
                       (lockRequest "z") 2000 7000 server) = 200)
    by (vm_compute; reflexivity).
  split; [exact Hok|].
  exact (lock_post_200_means_the_caller_holds_the_lock plainDigest
           (lockRequest "z") 2000 7000 server disk_has_one_lock_per_resource Hok).
Defined.

(** alice gives back the lock on [x]. *)
Lemma lock_delete_200_means_the_callers_lock_is_gone_witness :
  fst (ApiRoutes.handleScheduleLockDelete plainDigest (lockRequest "x") 2000
         server) = 200
  /\ exists session uid held,
       fst (SessionManager.validateSession plainDigest
              (Some (ApiRoutes.client (lockRequest "x"))) 2000
              (ApiRoutes.sessions server) (ApiRoutes.locks server)) = Some session
       /\ SessionData.userRole session <> VIEWER
       /\ ApiRoutes.uidParam (lockRequest "x") = Some uid
       /\ holder ("schedule_" ++ uid) (ApiRoutes.locks server) = Some held
       /\ FileLock.sessionId held = SessionData.sessionId session
       /\ holder ("schedule_" ++ uid)
            (ApiRoutes.locks
               (snd (ApiRoutes.handleScheduleLockDelete plainDigest
                       (lockRequest "x") 2000 server))) = None
       /\ (forall R', R' <> ("schedule_" ++ uid)%string ->
             holder R'
               (ApiRoutes.locks
                  (snd (ApiRoutes.handleScheduleLockDelete plainDigest
                          (lockRequest "x") 2000 server)))
             = holder R' (ApiRoutes.locks server)).
Proof.
  assert (Hok : fst (ApiRoutes.handleScheduleLockDelete plainDigest
                       (lockRequest "x") 2000 server) = 200)
    by (vm_compute; reflexivity).
  split; [exact Hok|].
  exact (lock_delete_200_means_the_callers_lock_is_gone plainDigest
           (lockRequest "x") 2000 server disk_has_one_lock_per_resource Hok).
Defined.

End OperationInstances.
